(** * zeitstempel-react: the OpenTimestamps codec, walkers and stamper

  A shallow embedding of [src/core/*.ts] and the properties of its
  specification.

  Conventions of the embedding.
  - A [Uint8Array] is a [list byte].
  - A JavaScript [number] holding a length, a height or a counter is an [N];
    the one place where the source can produce [NaN] ([readVaruint]) is
    modelled with [JsNum].
  - A JavaScript string is a [string]; [TextEncoder]/[TextDecoder] are the
    identity on the UTF-8 bytes (exact for well-formed UTF-8 without a
    byte-order mark).
  - A thrown exception is the [Err] case of [result].
  - [async]/[await] is sequential composition; the network collaborators
    ([fetch]) are oracles threaded through a world that logs every call. *)

From Stdlib Require Import List NArith ZArith Lia Bool Arith.
From Stdlib Require Import Strings.Byte Strings.Ascii Strings.String.
From Stdlib Require Import DecimalString.
Import ListNotations.

Local Open Scope N_scope.

(* ================================================================== *)
(** * Bytes and results *)

Definition bytes := list byte.

(** Conversion of a number to an element of a [Uint8Array] (modulo 256). *)
Definition u8 (n : N) : byte :=
match Byte.of_N (n mod 256) with
| Some b => b
| None => x00
end.

Inductive result (E A : Type) : Type :=
| Ok (a : A)
| Err (e : E).
Arguments Ok {E A} a.
Arguments Err {E A} e.

Definition bind {E A B} (r : result E A) (k : A -> result E B) : result E B :=
match r with
| Ok a => k a
| Err e => Err e
end.

Declare Scope result_scope.
Delimit Scope result_scope with result.
Notation "x <- r ;; k" := (bind r (fun x => k))
(at level 61, r at next level, right associativity) : result_scope.
Notation "' p <- r ;; k" := (bind r (fun x => let p := x in k))
(at level 61, p pattern, r at next level, right associativity) : result_scope.
Local Open Scope result_scope.

(** A JavaScript number as [readVaruint] computes it: a non-negative integer,
  or [NaN] (from [0 * 2 ** shift] once [2 ** shift] is [Infinity]). *)
Inductive JsNum : Type :=
| JInt (n : N)
| JNaN.

(* ================================================================== *)
(** * hex.ts *)

Module Hex.

Definition HEX_CHARS : string := "0123456789abcdef".

(** [HEX_CHARS[i]]; the index is always below 16 in [bytesToHex]. *)
Definition hexChar (i : N) : ascii :=
  match String.get (N.to_nat i) HEX_CHARS with
  | Some c => c
  | None => "?"%char
  end.

(** The loop of [bytesToHex]: [hex += HEX_CHARS[b >> 4] + HEX_CHARS[b & 0x0f]]. *)
Definition bytesToHex (bs : bytes) : string :=
  fold_left
    (fun hex b =>
       hex ++ String (hexChar (N.shiftr (Byte.to_N b) 4))
                (String (hexChar (N.land (Byte.to_N b) 15)) EmptyString))%string
    bs EmptyString.

(** [parseInt(ch, 16)] on a single character; [None] is [NaN]. *)
Definition parseHexDigit (c : ascii) : option N :=
  let n := N_of_ascii c in
  if (48 <=? n) && (n <=? 57) then Some (n - 48)
  else if (97 <=? n) && (n <=? 102) then Some (n - 87)
  else if (65 <=? n) && (n <=? 70) then Some (n - 55)
  else None.

Inductive HexError : Type :=
| OddLength
| InvalidHexCharacter (offset : N).

Fixpoint hexToBytes_loop (hex : string) (i : N) : result HexError bytes :=
  match hex with
  | String h (String l rest) =>
      match parseHexDigit h, parseHexDigit l with
      | Some hi, Some lo =>
          tl <- hexToBytes_loop rest (i + 2) ;;
          Ok (u8 (N.lor (N.shiftl hi 4) lo) :: tl)
      | _, _ => Err (InvalidHexCharacter i)
      end
  | _ => Ok []
  end.

Definition hexToBytes (hex : string) : result HexError bytes :=
  if negb (N.of_nat (String.length hex) mod 2 =? 0) then Err OddLength
  else hexToBytes_loop hex 0.

(** [result |= a[i] ^ b[i]] over every position. *)
Fixpoint constantTimeEqual_loop (a b : bytes) (acc : N) : N :=
  match a, b with
  | x :: a', y :: b' =>
      constantTimeEqual_loop a' b' (N.lor acc (N.lxor (Byte.to_N x) (Byte.to_N y)))
  | _, _ => acc
  end.

Definition constantTimeEqual (a b : bytes) : bool :=
  if negb (Nat.eqb (List.length a) (List.length b)) then false
  else constantTimeEqual_loop a b 0 =? 0.

End Hex.

(* ================================================================== *)
(** * constants.ts *)

Module Constants.

Definition HEADER_MAGIC : bytes :=
  [x00; x4f; x70; x65; x6e; x54; x69; x6d;
   x65; x73; x74; x61; x6d; x70; x73; x00;
   x00; x50; x72; x6f; x6f; x66; x00; xbf;
   x89; xe2; xe8; x84; xe8; x92; x94].

Definition TAG_APPEND    : byte := xf0.
Definition TAG_PREPEND   : byte := xf1.
Definition TAG_REVERSE   : byte := xf2.
Definition TAG_HEXLIFY   : byte := xf3.
Definition TAG_SHA1      : byte := x02.
Definition TAG_RIPEMD160 : byte := x03.
Definition TAG_SHA256    : byte := x08.
Definition TAG_KECCAK256 : byte := x67.

Definition TAG_ATTESTATION : byte := x00.
Definition TAG_FORK        : byte := xff.

Definition ATT_TAG_BITCOIN  : bytes := [x05; x88; x96; x0d; x73; xd7; x19; x01].
Definition ATT_TAG_LITECOIN : bytes := [x06; x86; x9a; x0d; x73; xd7; x1b; x45].
Definition ATT_TAG_ETHEREUM : bytes := [x30; xfe; x80; x87; xb5; xc7; xea; xd7].
Definition ATT_TAG_PENDING  : bytes := [x83; xdf; xe3; x0d; x2e; xf9; x0c; x8e].

Inductive HashOp : Type := sha256 | sha1 | ripemd160 | keccak256.

Definition HASH_OP_DIGEST_LEN (h : HashOp) : N :=
  match h with
  | sha256 => 32
  | sha1 => 20
  | ripemd160 => 20
  | keccak256 => 32
  end.

Definition TAG_TO_HASH_OP (tag : byte) : option HashOp :=
  match tag with
  | x08 => Some sha256
  | x02 => Some sha1
  | x03 => Some ripemd160
  | x67 => Some keccak256
  | _ => None
  end.

Definition HASH_OP_TO_TAG (h : HashOp) : byte :=
  match h with
  | sha256 => TAG_SHA256
  | sha1 => TAG_SHA1
  | ripemd160 => TAG_RIPEMD160
  | keccak256 => TAG_KECCAK256
  end.

Definition HASH_OP_DISPLAY (h : HashOp) : string :=
  match h with
  | sha256 => "SHA256"
  | sha1 => "SHA1"
  | ripemd160 => "RIPEMD160"
  | keccak256 => "KECCAK256"
  end.

End Constants.

(* ================================================================== *)
(** * types.ts *)

Module Types.
Import Constants.

Inductive Operation : Type :=
| OpAppend (data : bytes)
| OpPrepend (data : bytes)
| OpSha256
| OpSha1
| OpRipemd160
| OpKeccak256
| OpReverse
| OpHexlify.

Inductive Attestation : Type :=
| Bitcoin (height : N)
| Litecoin (height : N)
| Ethereum (height : N)
| Pending (uri : string)
| Unknown (tag : bytes) (payload : bytes).

(** A node of the proof tree: [{ attestations, ops }].  The induction
    principle that reaches the children is [Timestamp_ind'] below. *)
#[local] Unset Elimination Schemes.
Inductive Timestamp : Type :=
| mkTimestamp (attestations : list Attestation)
              (ops : list (Operation * Timestamp)).
#[local] Set Elimination Schemes.

Definition attestations (ts : Timestamp) : list Attestation :=
  match ts with mkTimestamp a _ => a end.

Definition ops (ts : Timestamp) : list (Operation * Timestamp) :=
  match ts with mkTimestamp _ o => o end.

(** Induction on a tree, with the property available for every child. *)
Fixpoint Timestamp_ind' (P : Timestamp -> Prop)
    (Hnode : forall atts chs,
        Forall (fun oc : Operation * Timestamp => P (snd oc)) chs ->
        P (mkTimestamp atts chs))
    (ts : Timestamp) : P ts :=
  match ts with
  | mkTimestamp atts chs =>
      Hnode atts chs
        ((fix children (l : list (Operation * Timestamp))
            : Forall (fun oc : Operation * Timestamp => P (snd oc)) l :=
            match l with
            | [] => Forall_nil _
            | oc :: l' => Forall_cons oc (Timestamp_ind' P Hnode (snd oc)) (children l')
            end) chs)
  end.

Record OtsFile : Type := mkOtsFile {
  hashOp : HashOp;
  fileDigest : bytes;
  timestamp : Timestamp
}.

End Types.

(* ================================================================== *)
(** * parser.ts *)

Module Parser.
Import Constants Types.

Inductive ParseError : Type :=
| UnexpectedEndOfFile
| VaruintOverflow
| VarbytesTooLarge
| BadMagicHeader
| UnsupportedVersion (version : JsNum)
| UnknownHashOperationTag (tag : byte)
| UnknownOperationTag (tag : byte)
| MaxDepthExceeded
(** Not an exception of the source: the source goes on with [NaN] as a
    length or a height, where its cursor arithmetic is outside this model. *)
| NotANumber
(** Not an exception of the source: the recursion budget of the model ran
    out ([parseTimestamp_fuel_enough]: it never does from [parseOts]). *)
| OutOfFuel.

Definition presult (A : Type) : Type := result ParseError A.

(** The cursor is the part of [data] from [pos] on. *)
Definition Cursor := bytes.

Definition remaining (c : Cursor) : N := N.of_nat (List.length c).

Definition peek (c : Cursor) : presult byte :=
  match c with
  | [] => Err UnexpectedEndOfFile
  | b :: _ => Ok b
  end.

Definition readByte (c : Cursor) : presult (byte * Cursor) :=
  match c with
  | [] => Err UnexpectedEndOfFile
  | b :: c' => Ok (b, c')
  end.

Definition readBytes (c : Cursor) (n : N) : presult (bytes * Cursor) :=
  if remaining c <? n then Err UnexpectedEndOfFile
  else Ok (firstn (N.to_nat n) c, skipn (N.to_nat n) c).

(** The [for (;;)] loop of [readVaruint], one byte per iteration.  [2 **
    shift] is [Infinity] from [shift = 1024] on, and the product with a zero
    payload is then [NaN]; a non-zero payload has been rejected before. *)
Definition addPayload (value : JsNum) (payload shift : N) : JsNum :=
  match value with
  | JInt v => if 1024 <=? shift then JNaN else JInt (v + payload * 2 ^ shift)
  | JNaN => JNaN
  end.

Fixpoint readVaruint_loop (c : Cursor) (value : JsNum) (shift : N)
  : presult (JsNum * Cursor) :=
  match c with
  | [] => Err UnexpectedEndOfFile
  | byte :: c' =>
      let payload := N.land (Byte.to_N byte) 127 in
      if (56 <=? shift) && (0 <? payload) then Err VaruintOverflow
      else if (49 <=? shift) && (15 <? payload) then Err VaruintOverflow
      else
        let value' := addPayload value payload shift in
        let shift' := shift + 7 in
        if N.land (Byte.to_N byte) 128 =? 0 then Ok (value', c')
        else readVaruint_loop c' value' shift'
  end.

Definition readVaruint (c : Cursor) : presult (JsNum * Cursor) :=
  readVaruint_loop c (JInt 0) 0.

Definition readVarbytes (c : Cursor) : presult (bytes * Cursor) :=
  '(len, c) <- readVaruint c ;;
  match len with
  | JNaN => Err NotANumber
  | JInt len =>
      if 1048576 <? len then Err VarbytesTooLarge
      else readBytes c len
  end.

Definition MAX_DEPTH : nat := 256.

Definition parseHashOp (tag : byte) : presult HashOp :=
  match TAG_TO_HASH_OP tag with
  | Some op => Ok op
  | None => Err (UnknownHashOperationTag tag)
  end.

Definition parseOperation (c : Cursor) : presult (Operation * Cursor) :=
  '(tag, c) <- readByte c ;;
  match tag with
  | xf0 => '(data, c) <- readVarbytes c ;; Ok (OpAppend data, c)
  | xf1 => '(data, c) <- readVarbytes c ;; Ok (OpPrepend data, c)
  | xf2 => Ok (OpReverse, c)
  | xf3 => Ok (OpHexlify, c)
  | x08 => Ok (OpSha256, c)
  | x02 => Ok (OpSha1, c)
  | x03 => Ok (OpRipemd160, c)
  | x67 => Ok (OpKeccak256, c)
  | _ => Err (UnknownOperationTag tag)
  end.

Definition varuintFromSlice (data : bytes) : presult N :=
  '(v, _) <- readVaruint data ;;
  match v with
  | JInt n => Ok n
  | JNaN => Err NotANumber
  end.

Definition TextDecoder_decode (bs : bytes) : string := string_of_list_byte bs.

Definition parseAttestation (c : Cursor) : presult (Attestation * Cursor) :=
  '(tag, c) <- readBytes c 8 ;;
  '(payload, c) <- readVarbytes c ;;
  if Hex.constantTimeEqual tag ATT_TAG_BITCOIN then
    h <- varuintFromSlice payload ;; Ok (Bitcoin h, c)
  else if Hex.constantTimeEqual tag ATT_TAG_LITECOIN then
    h <- varuintFromSlice payload ;; Ok (Litecoin h, c)
  else if Hex.constantTimeEqual tag ATT_TAG_ETHEREUM then
    h <- varuintFromSlice payload ;; Ok (Ethereum h, c)
  else if Hex.constantTimeEqual tag ATT_TAG_PENDING then
    let innerCursor := payload in
    '(uriBytes, _) <- readVarbytes innerCursor ;;
    Ok (Pending (TextDecoder_decode uriBytes), c)
  else Ok (Unknown tag payload, c).

(** The state of one [parseTimestamp] activation: the two arrays it fills
    and the cursor. *)
Definition NodeState : Type :=
  (list Attestation * list (Operation * Timestamp) * Cursor)%type.

(** [parseTimestampBranch], with the recursive call to [parseTimestamp]
    passed in as [parseChild]. *)
Definition parseTimestampBranch_with
    (parseChild : Cursor -> nat -> presult (Timestamp * Cursor))
    (c : Cursor) (atts : list Attestation) (chs : list (Operation * Timestamp))
    (depth : nat) : presult NodeState :=
  tag <- peek c ;;
  if Byte.eqb tag TAG_ATTESTATION then
    '(_, c) <- readByte c ;;
    '(att, c) <- parseAttestation c ;;
    Ok (atts ++ [att], chs, c)
  else
    '(op, c) <- parseOperation c ;;
    '(child, c) <- parseChild c (S depth) ;;
    Ok (atts, chs ++ [(op, child)], c).

(** [parseTimestamp] after its depth check: the [while] loop over fork
    markers and the final branch.  Every iteration and every recursive call
    consumes a byte; [fuel] bounds them. *)
Fixpoint parseTimestamp_loop (fuel : nat) (c : Cursor)
    (atts : list Attestation) (chs : list (Operation * Timestamp))
    (depth : nat) : presult (Timestamp * Cursor) :=
  match fuel with
  | O => Err OutOfFuel
  | S fuel' =>
      let parseChild c d :=
        if Nat.ltb MAX_DEPTH d then Err MaxDepthExceeded
        else parseTimestamp_loop fuel' c [] [] d in
      if (0 <? remaining c) &&
         match peek c with Ok b => Byte.eqb b TAG_FORK | Err _ => false end
      then
        '(_, c) <- readByte c ;;
        '(atts, chs, c) <- parseTimestampBranch_with parseChild c atts chs depth ;;
        parseTimestamp_loop fuel' c atts chs depth
      else if 0 <? remaining c then
        '(atts, chs, c) <- parseTimestampBranch_with parseChild c atts chs depth ;;
        Ok (mkTimestamp atts chs, c)
      else Ok (mkTimestamp atts chs, c)
  end.

Definition parseTimestamp (fuel : nat) (c : Cursor) (depth : nat)
  : presult (Timestamp * Cursor) :=
  if Nat.ltb MAX_DEPTH depth then Err MaxDepthExceeded
  else parseTimestamp_loop fuel c [] [] depth.

Definition parseTimestampBranch (fuel : nat) :=
  parseTimestampBranch_with (parseTimestamp fuel).

(** Enough budget for any cursor: each unit is spent on at least a byte. *)
Definition fuelFor (c : Cursor) : nat := S (List.length c).

Definition parseOts (data : bytes) : presult OtsFile :=
  let c := data in
  '(header, c) <- readBytes c (N.of_nat (List.length HEADER_MAGIC)) ;;
  if negb (Hex.constantTimeEqual header HEADER_MAGIC) then Err BadMagicHeader
  else
    '(version, c) <- readVaruint c ;;
    match version with
    | JInt 1 =>
        '(tag, c) <- readByte c ;;
        hashOp <- parseHashOp tag ;;
        let digestLen := HASH_OP_DIGEST_LEN hashOp in
        '(fileDigest, c) <- readBytes c digestLen ;;
        '(timestamp, _) <- parseTimestamp (fuelFor c) c 0 ;;
        Ok (mkOtsFile hashOp fileDigest timestamp)
    | _ => Err (UnsupportedVersion version)
    end.

Definition parseTimestampFromBytes (data : bytes) : presult Timestamp :=
  '(ts, _) <- parseTimestamp (fuelFor data) data 0 ;; Ok ts.

(** Tree utilities. *)
Definition isPending (a : Attestation) : bool :=
  match a with Pending _ => true | _ => false end.

Fixpoint countAttestations (ts : Timestamp) : N :=
  match ts with
  | mkTimestamp atts chs =>
      (fix loop (l : list (Operation * Timestamp)) (count : N) : N :=
         match l with
         | [] => count
         | (_, child) :: l' => loop l' (count + countAttestations child)
         end) chs (N.of_nat (List.length atts))
  end.

Fixpoint hasPending (ts : Timestamp) : bool :=
  match ts with
  | mkTimestamp atts chs =>
      if existsb isPending atts then true
      else (fix loop (l : list (Operation * Timestamp)) : bool :=
              match l with
              | [] => false
              | (_, child) :: l' => if hasPending child then true else loop l'
              end) chs
  end.

(** [findBitcoinHeight]: [null] is [None]. *)
Fixpoint findBitcoinHeight (ts : Timestamp) : option N :=
  match ts with
  | mkTimestamp atts chs =>
      match (fix attLoop (l : list Attestation) : option N :=
               match l with
               | [] => None
               | Bitcoin height :: _ => Some height
               | _ :: l' => attLoop l'
               end) atts with
      | Some h => Some h
      | None =>
          (fix loop (l : list (Operation * Timestamp)) : option N :=
             match l with
             | [] => None
             | (_, child) :: l' =>
                 match findBitcoinHeight child with
                 | Some h => Some h
                 | None => loop l'
                 end
             end) chs
      end
  end.

End Parser.

(* ================================================================== *)
(** * writer.ts *)

Module Writer.
Import Constants Types.

(** [ByteBuffer]: the bytes pushed so far. *)
Definition ByteBuffer := bytes.

Definition push (buf : ByteBuffer) (b : byte) : ByteBuffer := buf ++ [b].

Definition extend (buf : ByteBuffer) (bs : bytes) : ByteBuffer :=
  fold_left push bs buf.

Definition toUint8Array (buf : ByteBuffer) : bytes := buf.

(** The [for (;;)] loop of [writeVaruint].  [v] is divided by 128 on every
    iteration, so [fuel] iterations are enough once [v < 2 ^ fuel]. *)
Fixpoint writeVaruint_loop (fuel : nat) (buf : ByteBuffer) (v : N) : ByteBuffer :=
  match fuel with
  | O => buf
  | S fuel' =>
      let byte := N.land v 127 in
      let v := v / 128 in
      let byte := if negb (v =? 0) then N.lor byte 128 else byte in
      let buf := push buf (u8 byte) in
      if v =? 0 then buf else writeVaruint_loop fuel' buf v
  end.

Definition writeVaruint (buf : ByteBuffer) (val : N) : ByteBuffer :=
  writeVaruint_loop (S (N.to_nat (N.size val))) buf val.

Definition writeVarbytes (buf : ByteBuffer) (data : bytes) : ByteBuffer :=
  let buf := writeVaruint buf (N.of_nat (List.length data)) in
  extend buf data.

Definition TextEncoder_encode (s : string) : bytes := list_byte_of_string s.

Definition writeOperation (buf : ByteBuffer) (op : Operation) : ByteBuffer :=
  match op with
  | OpAppend data => writeVarbytes (push buf TAG_APPEND) data
  | OpPrepend data => writeVarbytes (push buf TAG_PREPEND) data
  | OpSha256 => push buf (HASH_OP_TO_TAG sha256)
  | OpSha1 => push buf (HASH_OP_TO_TAG sha1)
  | OpRipemd160 => push buf (HASH_OP_TO_TAG ripemd160)
  | OpKeccak256 => push buf (HASH_OP_TO_TAG keccak256)
  | OpReverse => push buf TAG_REVERSE
  | OpHexlify => push buf TAG_HEXLIFY
  end.

Definition writeAttestation (buf : ByteBuffer) (att : Attestation) : ByteBuffer :=
  let buf := push buf TAG_ATTESTATION in
  match att with
  | Bitcoin height =>
      let buf := extend buf ATT_TAG_BITCOIN in
      let payload := writeVaruint [] height in
      writeVarbytes buf (toUint8Array payload)
  | Litecoin height =>
      let buf := extend buf ATT_TAG_LITECOIN in
      let payload := writeVaruint [] height in
      writeVarbytes buf (toUint8Array payload)
  | Ethereum height =>
      let buf := extend buf ATT_TAG_ETHEREUM in
      let payload := writeVaruint [] height in
      writeVarbytes buf (toUint8Array payload)
  | Pending uri =>
      let buf := extend buf ATT_TAG_PENDING in
      writeVarbytes buf (TextEncoder_encode uri)
  | Unknown tag payload =>
      let buf := extend buf tag in
      writeVarbytes buf payload
  end.

(** The state of the two [for] loops of [writeTimestamp]: the buffer and
    [branchIdx]. *)
Definition writeFork (totalBranches : Z) (st : ByteBuffer * Z) : ByteBuffer :=
  let '(buf, branchIdx) := st in
  if (branchIdx <? totalBranches - 1)%Z then push buf TAG_FORK else buf.

Fixpoint writeTimestamp (buf : ByteBuffer) (ts : Timestamp) : ByteBuffer :=
  match ts with
  | mkTimestamp atts chs =>
      let totalBranches := Z.of_nat (List.length atts + List.length chs) in
      let st :=
        fold_left
          (fun (st : ByteBuffer * Z) att =>
             let buf := writeFork totalBranches st in
             (writeAttestation buf att, (snd st + 1)%Z))
          atts (buf, 0%Z) in
      fst ((fix loop (l : list (Operation * Timestamp)) (st : ByteBuffer * Z)
              : ByteBuffer * Z :=
              match l with
              | [] => st
              | (op, child) :: l' =>
                  let buf := writeFork totalBranches st in
                  let buf := writeOperation buf op in
                  let buf := writeTimestamp buf child in
                  loop l' (buf, (snd st + 1)%Z)
              end) chs st)
  end.

Definition writeOts (ots : OtsFile) : bytes :=
  let buf : ByteBuffer := [] in
  let buf := extend buf HEADER_MAGIC in
  let buf := writeVaruint buf 1 in
  let buf := push buf (HASH_OP_TO_TAG (hashOp ots)) in
  let buf := extend buf (fileDigest ots) in
  let buf := writeTimestamp buf (timestamp ots) in
  toUint8Array buf.

End Writer.

(* ================================================================== *)
(** * crypto.ts

    SHA-256, SHA-1 and RIPEMD-160 come from the platform ([crypto.subtle],
    [@noble/hashes]); they are total functions from bytes to bytes, taken as
    an oracle. *)

Module Crypto.

Record HashOracle : Type := mkHashOracle {
  sha256 : bytes -> bytes;
  sha1 : bytes -> bytes;
  ripemd160 : bytes -> bytes
}.

End Crypto.

(* ================================================================== *)
(** * operations.ts *)

Module Operations.
Import Constants Types.

Inductive OpError : Type :=
| Keccak256NotSupported.

(** Typed arrays live in a heap of buffers, addressed by their index, so
    that allocation and in-place updates are visible. *)
Definition Heap := list bytes.

Definition alloc (h : Heap) (b : bytes) : Heap * nat := (h ++ [b], List.length h).

Definition load (h : Heap) (a : nat) : bytes := nth a h [].

Definition store (h : Heap) (a : nat) (b : bytes) : Heap :=
  firstn a h ++ b :: skipn (S a) h.

(** [new Uint8Array(n)]: [n] zero bytes. *)
Definition Uint8Array_new (n : nat) : bytes := repeat x00 n.

(** [out.set(src, offset)], for [offset + src.length <= out.length]. *)
Definition Uint8Array_set (out src : bytes) (offset : nat) : bytes :=
  firstn offset out ++ src ++ skipn (offset + List.length src) out.

Section WithHashes.
Variable H : Crypto.HashOracle.

Definition applyOperation_heap (h : Heap) (op : Operation) (msg : nat)
  : result OpError (Heap * nat) :=
  match op with
  | OpAppend data =>
      let '(h, out) :=
        alloc h (Uint8Array_new (List.length (load h msg) + List.length data)) in
      let h := store h out (Uint8Array_set (load h out) (load h msg) 0) in
      let h := store h out
                 (Uint8Array_set (load h out) data (List.length (load h msg))) in
      Ok (h, out)
  | OpPrepend data =>
      let '(h, out) :=
        alloc h (Uint8Array_new (List.length data + List.length (load h msg))) in
      let h := store h out (Uint8Array_set (load h out) data 0) in
      let h := store h out
                 (Uint8Array_set (load h out) (load h msg) (List.length data)) in
      Ok (h, out)
  | OpSha256 => Ok (alloc h (Crypto.sha256 H (load h msg)))
  | OpSha1 => Ok (alloc h (Crypto.sha1 H (load h msg)))
  | OpRipemd160 => Ok (alloc h (Crypto.ripemd160 H (load h msg)))
  | OpKeccak256 => Err Keccak256NotSupported
  | OpReverse =>
      let '(h, out) := alloc h (load h msg) in
      let h := store h out (rev (load h out)) in
      Ok (h, out)
  | OpHexlify => Ok (alloc h (Writer.TextEncoder_encode (Hex.bytesToHex (load h msg))))
  end.

(** [applyOperation] on values: the contents of the returned buffer. *)
Definition applyOperation (op : Operation) (msg : bytes) : result OpError bytes :=
  match applyOperation_heap [msg] op 0 with
  | Ok (h, out) => Ok (load h out)
  | Err e => Err e
  end.

Definition hashContents (data : bytes) (hashOp : HashOp) : result OpError bytes :=
  match hashOp with
  | Constants.sha256 => Ok (Crypto.sha256 H data)
  | Constants.sha1 => Ok (Crypto.sha1 H data)
  | Constants.ripemd160 => Ok (Crypto.ripemd160 H data)
  | Constants.keccak256 => Err Keccak256NotSupported
  end.

End WithHashes.
End Operations.

(* ================================================================== *)
(** * bitcoin.ts *)

Module Bitcoin.

Record BlockInfo : Type := mkBlockInfo {
  height : N;
  blockHash : string;
  merkleRoot : string;
  timestamp : N
}.

(** [getBlockInfo] asks the block explorers; it resolves to a [BlockInfo] or
    rejects with a message. *)
Definition BlockOracle : Type := N -> result string BlockInfo.

Definition merkleRootToLeBytes (hexBe : string) : result Hex.HexError bytes :=
  match Hex.hexToBytes hexBe with
  | Ok bs => Ok (rev bs)
  | Err e => Err e
  end.

End Bitcoin.

(* ================================================================== *)
(** * verify.ts *)

Module Verify.
Import Constants Types Operations.

Inductive LookupFailure : Type :=
| BlockApiFailure (message : string)
| MerkleRootNotHex (e : Hex.HexError).

Inductive VerifyErrorMessage : Type :=
| ProofTreeExceedsMaximumDepth
| OperationFailed (e : OpError)
| CouldNotFetchBitcoinBlock (height : N) (cause : LookupFailure).

Inductive SkipReason : Type :=
| LitecoinNotVerified (height : N)
| EthereumNotVerified (height : N)
| UnknownAttestationType (tagHex : string).

Inductive VerifyResult : Type :=
| Verified (height : N) (blockHash : string) (blockTime : N)
| VPending (uri : string)
| Failed (height : N) (expected got : bytes)
| Skipped (reason : SkipReason)
| VError (message : VerifyErrorMessage).

Inductive VerifyThrown : Type :=
| ThrownParseError (e : Parser.ParseError)
| ThrownHashError (e : OpError)
| ThrownHexError (e : Hex.HexError)
| FileDigestMismatch (expected computed : string)
| DigestMismatch (expected provided : string).

(** The heights asked of the block explorer so far, oldest first. *)
Definition Lookups := list N.

Definition MAX_DEPTH : nat := 256.

Section WithCollaborators.
Variable H : Crypto.HashOracle.
Variable getBlockInfo : Bitcoin.BlockOracle.

Definition verifyBitcoin (height : N) (msg : bytes) (w : Lookups)
  : VerifyResult * Lookups :=
  let w := w ++ [height] in
  match getBlockInfo height with
  | Err e => (VError (CouldNotFetchBitcoinBlock height (BlockApiFailure e)), w)
  | Ok blockInfo =>
      match Bitcoin.merkleRootToLeBytes (Bitcoin.merkleRoot blockInfo) with
      | Err e => (VError (CouldNotFetchBitcoinBlock height (MerkleRootNotHex e)), w)
      | Ok expectedLe =>
          if Hex.constantTimeEqual msg expectedLe
          then (Verified height (Bitcoin.blockHash blockInfo)
                  (Bitcoin.timestamp blockInfo), w)
          else (Failed height expectedLe msg, w)
      end
  end.

Definition checkAttestation (att : Attestation) (msg : bytes) (w : Lookups)
  : VerifyResult * Lookups :=
  match att with
  | Bitcoin height => verifyBitcoin height msg w
  | Pending uri => (VPending uri, w)
  | Litecoin height => (Skipped (LitecoinNotVerified height), w)
  | Ethereum height => (Skipped (EthereumNotVerified height), w)
  | Unknown tag _ => (Skipped (UnknownAttestationType (Hex.bytesToHex tag)), w)
  end.

(** The state of the loops of [walkTimestamp]: [results] and the world. *)
Definition WalkState : Type := (list VerifyResult * Lookups)%type.

Fixpoint walkTimestamp (ts : Timestamp) (msg : bytes) (depth : nat) (w : Lookups)
  : WalkState :=
  if Nat.ltb MAX_DEPTH depth then ([VError ProofTreeExceedsMaximumDepth], w)
  else
    match ts with
    | mkTimestamp atts chs =>
        let st :=
          fold_left
            (fun (st : WalkState) att =>
               let '(r, w) := checkAttestation att msg (snd st) in
               (fst st ++ [r], w))
            atts ([], w) in
        (fix loop (l : list (Operation * Timestamp)) (st : WalkState) : WalkState :=
           match l with
           | [] => st
           | (op, child) :: l' =>
               match applyOperation H op msg with
               | Ok newMsg =>
                   let '(childResults, w) :=
                     walkTimestamp child newMsg (S depth) (snd st) in
                   loop l' (fst st ++ childResults, w)
               | Err e =>
                   loop l' (fst st ++ [VError (OperationFailed e)], snd st)
               end
           end) chs st
    end.

Definition verifyFile (fileData otsData : bytes) (w : Lookups)
  : result VerifyThrown (list VerifyResult) * Lookups :=
  match Parser.parseOts otsData with
  | Err e => (Err (ThrownParseError e), w)
  | Ok ots =>
      match hashContents H fileData (hashOp ots) with
      | Err e => (Err (ThrownHashError e), w)
      | Ok computedDigest =>
          if negb (Hex.constantTimeEqual computedDigest (fileDigest ots))
          then (Err (FileDigestMismatch (Hex.bytesToHex (fileDigest ots))
                       (Hex.bytesToHex computedDigest)), w)
          else
            let '(results, w) := walkTimestamp (timestamp ots) (fileDigest ots) 0 w in
            (Ok results, w)
      end
  end.

Definition verifyHash (hashData otsData : bytes) (w : Lookups) :=
  verifyFile hashData otsData w.

Definition verifyDigest (digestHex : string) (otsData : bytes) (w : Lookups)
  : result VerifyThrown (list VerifyResult) * Lookups :=
  match Parser.parseOts otsData with
  | Err e => (Err (ThrownParseError e), w)
  | Ok ots =>
      match Hex.hexToBytes digestHex with
      | Err e => (Err (ThrownHexError e), w)
      | Ok digest =>
          if negb (Hex.constantTimeEqual digest (fileDigest ots))
          then (Err (DigestMismatch (Hex.bytesToHex (fileDigest ots)) digestHex), w)
          else
            let '(results, w) := walkTimestamp (timestamp ots) (fileDigest ots) 0 w in
            (Ok results, w)
      end
  end.

End WithCollaborators.
End Verify.

(* ================================================================== *)
(** * The HTTP collaborator ([fetch]) *)

Module Http.

Record Response : Type := mkResponse {
  ok : bool;
  status : N;
  body : bytes
}.

(** A [GET]: resolves to a response or rejects with a message. *)
Definition GetOracle : Type := string -> result string Response.

(** A [POST] of a body. *)
Definition PostOracle : Type := string -> bytes -> result string Response.

End Http.

(* ================================================================== *)
(** * upgrade.ts *)

Module Upgrade.
Import Constants Types Operations.

Inductive UpgradeError : Type :=
| ProofTreeExceedsMaximumDepth
| FetchRejected (message : string)
| HttpStatus (status : N) (url : string)
| ResponseParseError (e : Parser.ParseError)
| OperationFailed (e : OpError).

Record UpgradeResult : Type := mkUpgradeResult {
  upgraded : N;
  stillPending : N;
  errors : list UpgradeError;
  alreadyComplete : bool
}.

(** The mutable [result] object together with the URLs requested so far. *)
Record UpgradeState : Type := mkUpgradeState {
  result_ : UpgradeResult;
  requests : list string
}.

Definition incUpgraded (st : UpgradeState) : UpgradeState :=
  let r := result_ st in
  mkUpgradeState
    (mkUpgradeResult (upgraded r + 1) (stillPending r) (errors r) (alreadyComplete r))
    (requests st).

Definition incStillPending (st : UpgradeState) : UpgradeState :=
  let r := result_ st in
  mkUpgradeState
    (mkUpgradeResult (upgraded r) (stillPending r + 1) (errors r) (alreadyComplete r))
    (requests st).

Definition pushError (st : UpgradeState) (e : UpgradeError) : UpgradeState :=
  let r := result_ st in
  mkUpgradeState
    (mkUpgradeResult (upgraded r) (stillPending r) (errors r ++ [e]) (alreadyComplete r))
    (requests st).

Definition logRequest (st : UpgradeState) (url : string) : UpgradeState :=
  mkUpgradeState (result_ st) (requests st ++ [url]).

Definition MAX_DEPTH : nat := 256.

(** [uri.replace(/\/+$/, '')]. *)
Fixpoint stripTrailingSlashes (s : string) : string :=
  match s with
  | EmptyString => EmptyString
  | String c rest =>
      let rest' := stripTrailingSlashes rest in
      if Ascii.eqb c "/" && String.eqb rest' EmptyString then EmptyString
      else String c rest'
  end.

Definition upgradeUrl (uri : string) (msg : bytes) : string :=
  (stripTrailingSlashes uri ++ "/timestamp/" ++ Hex.bytesToHex msg)%string.

Section WithCollaborators.
Variable H : Crypto.HashOracle.
Variable fetch : Http.GetOracle.

(** [null] is [None]. *)
Definition fetchUpgrade (uri : string) (msg : bytes)
  : result UpgradeError (option Timestamp) :=
  let url := upgradeUrl uri msg in
  match fetch url with
  | Err e => Err (FetchRejected e)
  | Ok response =>
      if Http.status response =? 404 then Ok None
      else if negb (Http.ok response) then Err (HttpStatus (Http.status response) url)
      else
        let body := Http.body response in
        if Nat.eqb (List.length body) 0 then Ok None
        else
          match Parser.parseTimestampFromBytes body with
          | Ok ts => Ok (Some ts)
          | Err e => Err (ResponseParseError e)
          end
  end.

(** The state of the first loop of [upgradeTimestamp]. *)
Definition AttLoopState : Type :=
  (list Attestation * list (Operation * Timestamp) * UpgradeState)%type.

Definition upgradeAttestation (msg : bytes) (acc : AttLoopState) (att : Attestation)
  : AttLoopState :=
  let '(newAttestations, newOps, st) := acc in
  match att with
  | Pending uri =>
      let st := logRequest st (upgradeUrl uri msg) in
      match fetchUpgrade uri msg with
      | Ok (Some subTree) =>
          (newAttestations ++ attestations subTree, newOps ++ ops subTree,
           incUpgraded st)
      | Ok None => (newAttestations ++ [att], newOps, incStillPending st)
      | Err e => (newAttestations ++ [att], newOps, pushError st e)
      end
  | _ => (newAttestations ++ [att], newOps, st)
  end.

(** The tree is updated in place in the source; here the updated node is
    returned.  A proof tree is a tree: no node is reachable twice. *)
Fixpoint upgradeTimestamp (ts : Timestamp) (msg : bytes) (st : UpgradeState)
    (depth : nat) : Timestamp * UpgradeState :=
  if Nat.ltb MAX_DEPTH depth then (ts, pushError st ProofTreeExceedsMaximumDepth)
  else
    match ts with
    | mkTimestamp atts chs =>
        let '(newAttestations, newOps, st) :=
          fold_left (upgradeAttestation msg) atts ([], [], st) in
        let originalOps := chs in
        (* ts.attestations = newAttestations; ts.ops.push(...newOps):
           the children of [originalOps] are updated below, in place *)
        let '(updatedOps, st) :=
          (fix loop (l : list (Operation * Timestamp)) (st : UpgradeState)
             : list (Operation * Timestamp) * UpgradeState :=
             match l with
             | [] => ([], st)
             | (op, child) :: l' =>
                 match applyOperation H op msg with
                 | Ok newMsg =>
                     let '(child', st) := upgradeTimestamp child newMsg st (S depth) in
                     let '(rest, st) := loop l' st in
                     ((op, child') :: rest, st)
                 | Err e =>
                     let '(rest, st) := loop l' (pushError st (OperationFailed e)) in
                     ((op, child) :: rest, st)
                 end
             end) originalOps st in
        (mkTimestamp newAttestations (updatedOps ++ newOps), st)
    end.

Fixpoint hasPendingAttestation (ts : Timestamp) : bool :=
  match ts with
  | mkTimestamp atts chs =>
      if existsb Parser.isPending atts then true
      else (fix loop (l : list (Operation * Timestamp)) : bool :=
              match l with
              | [] => false
              | (_, child) :: l' =>
                  if hasPendingAttestation child then true else loop l'
              end) chs
  end.

Definition upgradeProof (ots : OtsFile) (requests0 : list string)
  : OtsFile * UpgradeState :=
  let st := mkUpgradeState (mkUpgradeResult 0 0 [] false) requests0 in
  if negb (hasPendingAttestation (timestamp ots)) then
    (ots, mkUpgradeState (mkUpgradeResult 0 0 [] true) requests0)
  else
    let '(ts, st) := upgradeTimestamp (timestamp ots) (fileDigest ots) st 0 in
    (mkOtsFile (hashOp ots) (fileDigest ots) ts, st).

End WithCollaborators.
End Upgrade.

(* ================================================================== *)
(** * stamp.ts *)

Module Stamp.
Import Constants Types Writer.

Definition CALENDAR_SERVERS : list string :=
  ["https://alice.btc.calendar.opentimestamps.org";
   "https://bob.btc.calendar.opentimestamps.org"]%string.

Inductive SubmitError : Type :=
| PostRejected (message : string)
| PostHttpStatus (status : N) (url : string)
| EmptyResponse (url : string)
| ResponseTooLarge (url : string).

Inductive StampThrown : Type :=
| BadHex (e : Hex.HexError)
| Expected32ByteDigest (got : nat)
| NoCalendarServerResponded (errors : list (string * SubmitError)).

(** The block of [stampHash] that builds the [.ots] bytes from the digest,
    the nonce and the collected responses ([responses.length > 0]). *)
Definition buildOts (fileDigest nonce : bytes) (responses : list (string * bytes))
  : bytes :=
  let buf : ByteBuffer := [] in
  let buf := extend buf HEADER_MAGIC in
  let buf := writeVaruint buf 1 in
  let buf := push buf (HASH_OP_TO_TAG Constants.sha256) in
  let buf := extend buf fileDigest in
  let buf := push buf TAG_PREPEND in
  let buf := writeVarbytes buf nonce in
  let buf := push buf TAG_SHA256 in
  let buf :=
    if Nat.ltb 1 (List.length responses) then
      fold_left (fun buf r => extend (push buf TAG_FORK) (snd r))
        (removelast responses) buf
    else buf in
  let buf := extend buf (snd (last responses (EmptyString, []))) in
  toUint8Array buf.

Section WithCollaborators.
Variable H : Crypto.HashOracle.
(** [crypto.getRandomValues]: the byte written at each index. *)
Variable getRandomValue : nat -> byte.
Variable fetch : Http.PostOracle.

Definition submitToCalendar (server : string) (digest : bytes)
  : result SubmitError bytes :=
  let url := (server ++ "/digest")%string in
  match fetch url digest with
  | Err e => Err (PostRejected e)
  | Ok response =>
      if negb (Http.ok response) then Err (PostHttpStatus (Http.status response) url)
      else
        let body := Http.body response in
        if Nat.eqb (List.length body) 0 then Err (EmptyResponse url)
        else if 65536 <? N.of_nat (List.length body) then Err (ResponseTooLarge url)
        else Ok body
  end.

Definition stampHash (sha256Hex : string) : result StampThrown bytes :=
  match Hex.hexToBytes sha256Hex with
  | Err e => Err (BadHex e)
  | Ok fileDigest =>
      if negb (Nat.eqb (List.length fileDigest) 32)
      then Err (Expected32ByteDigest (List.length fileDigest))
      else
        let nonce := map getRandomValue (seq 0 16) in
        let combined :=
          Operations.Uint8Array_new (List.length nonce + List.length fileDigest) in
        let combined := Operations.Uint8Array_set combined nonce 0 in
        let combined := Operations.Uint8Array_set combined fileDigest (List.length nonce) in
        let calendarDigest := Crypto.sha256 H combined in
        let '(responses, errors) :=
          fold_left
            (fun (acc : list (string * bytes) * list (string * SubmitError)) server =>
               match submitToCalendar server calendarDigest with
               | Ok data => (fst acc ++ [(server, data)], snd acc)
               | Err e => (fst acc, snd acc ++ [(server, e)])
               end)
            CALENDAR_SERVERS ([], []) in
        if Nat.eqb (List.length responses) 0 then Err (NoCalendarServerResponded errors)
        else Ok (buildOts fileDigest nonce responses)
  end.


End WithCollaborators.
End Stamp.

(* ================================================================== *)
(** * info.ts *)

Module Info.
Import Constants Types.

(** A number inside a template literal: its decimal digits (what JavaScript
    prints for a non-negative integer below [10 ^ 21]). *)
Definition numberToString (n : N) : string :=
  NilEmpty.string_of_uint (N.to_uint n).

Definition formatOperation (op : Operation) : string :=
  match op with
  | OpAppend data => "append(" ++ Hex.bytesToHex data ++ ")"
  | OpPrepend data => "prepend(" ++ Hex.bytesToHex data ++ ")"
  | OpSha256 => "SHA256"
  | OpSha1 => "SHA1"
  | OpRipemd160 => "RIPEMD160"
  | OpKeccak256 => "KECCAK256"
  | OpReverse => "reverse"
  | OpHexlify => "hexlify"
  end%string.

Definition formatAttestation (att : Attestation) : string :=
  match att with
  | Bitcoin height => "Bitcoin block #" ++ numberToString height
  | Litecoin height => "Litecoin block #" ++ numberToString height
  | Ethereum height => "Ethereum block #" ++ numberToString height
  | Pending uri => "Pending (" ++ uri ++ ")"
  | Unknown tag _ => "Unknown attestation (tag: " ++ Hex.bytesToHex tag ++ ")"
  end%string.

(** The connector before a branch and the extension of the prefix below a
    continuation, by [isLast]. *)
Definition connector (isLast : bool) : string :=
  if isLast then "└── "%string else "├── "%string.

Definition extension (isLast : bool) : string :=
  if isLast then "    "%string else "│   "%string.

(** The state of the two loops of [formatTimestampTree]: [lines] and
    [index]. *)
Fixpoint formatTimestampTree (ts : Timestamp) (prefix : string) (lines : list string)
  : list string :=
  match ts with
  | mkTimestamp atts chs =>
      let total := Z.of_nat (List.length atts + List.length chs) in
      let st :=
        fold_left
          (fun (st : list string * Z) att =>
             let isLast := (snd st =? total - 1)%Z in
             (fst st ++ [prefix ++ connector isLast ++ formatAttestation att]%string,
              (snd st + 1)%Z))
          atts (lines, 0%Z) in
      fst ((fix loop (l : list (Operation * Timestamp)) (st : list string * Z)
              : list string * Z :=
              match l with
              | [] => st
              | (op, child) :: l' =>
                  let isLast := (snd st =? total - 1)%Z in
                  let lines :=
                    fst st ++ [prefix ++ connector isLast ++ formatOperation op]%string in
                  let lines :=
                    formatTimestampTree child (prefix ++ extension isLast)%string lines in
                  loop l' (lines, (snd st + 1)%Z)
              end) chs st)
  end.

(** The [lines] array of [formatProofTree] before it is joined. *)
Definition formatProofTree_lines (ots : OtsFile) : list string :=
  let lines : list string := [] in
  let lines :=
    lines ++ ["File hash: " ++ Hex.bytesToHex (fileDigest ots)
              ++ " (" ++ HASH_OP_DISPLAY (hashOp ots) ++ ")"]%string in
  let lines := lines ++ ["│"%string] in
  formatTimestampTree (timestamp ots) EmptyString lines.

Definition formatProofTree (ots : OtsFile) : string :=
  String.concat (String "010" EmptyString) (formatProofTree_lines ots).

End Info.

(* ================================================================== *)
(** * Vocabulary of the specification *)

Module Spec.
Import Constants Types.

(** The 7 data bits and the continuation bit of a LEB128 byte. *)
Definition payload (b : byte) : N := N.land (Byte.to_N b) 127.

Definition continues (b : byte) : bool := negb (N.land (Byte.to_N b) 128 =? 0).

(** The little-endian base-128 value of the payloads of [bs]. *)
Fixpoint payloadValue (bs : bytes) : N :=
  match bs with
  | [] => 0
  | b :: bs' => payload b + 128 * payloadValue bs'
  end.

(** What the value read so far is below, before byte [i] of a varuint. *)
Definition varuintBound (i : N) : N := if i <=? 7 then 2 ^ (7 * i) else 2 ^ 53.

(** Sizes the parser accepts in an operation: at most 1 MiB of data. *)
Definition opWellSized (op : Operation) : Prop :=
  match op with
  | OpAppend data | OpPrepend data => N.of_nat (List.length data) <= 1048576
  | _ => True
  end.

(** The reference definition of the operation engine (section 4.2 of the
    specification): [None] is the failure [UnsupportedOperation]. *)
Definition lowerHexDigit (n : N) : byte :=
  u8 (if n <? 10 then 48 + n else 87 + n).

Definition hexlify (msg : bytes) : bytes :=
  flat_map (fun b => [lowerHexDigit (Byte.to_N b / 16);
                      lowerHexDigit (Byte.to_N b mod 16)]) msg.

Definition applyReference (H : Crypto.HashOracle) (op : Operation) (msg : bytes)
  : option bytes :=
  match op with
  | OpAppend d => Some (msg ++ d)
  | OpPrepend d => Some (d ++ msg)
  | OpReverse => Some (rev msg)
  | OpHexlify => Some (hexlify msg)
  | OpSha256 => Some (Crypto.sha256 H msg)
  | OpSha1 => Some (Crypto.sha1 H msg)
  | OpRipemd160 => Some (Crypto.ripemd160 H msg)
  | OpKeccak256 => None
  end.

(** The attestations of a tree in depth-first order, those of a node before
    those of its continuations. *)
Fixpoint attestationsDepthFirst (ts : Timestamp) : list Attestation :=
  match ts with
  | mkTimestamp atts chs =>
      atts ++ flat_map (fun oc => attestationsDepthFirst (snd oc)) chs
  end.

(** The number of continuations on the longest path below a node. *)
Fixpoint treeDepth (ts : Timestamp) : nat :=
  match ts with
  | mkTimestamp _ chs =>
      fold_right (fun oc acc => Nat.max (S (treeDepth (snd oc))) acc) 0%nat chs
  end.

Definition isKeccak (op : Operation) : bool :=
  match op with OpKeccak256 => true | _ => false end.

(** No [Keccak256] operation in the tree: every operation can be applied. *)
Fixpoint everyOperationApplies (ts : Timestamp) : bool :=
  match ts with
  | mkTimestamp _ chs =>
      forallb (fun oc => negb (isKeccak (fst oc)) && everyOperationApplies (snd oc)) chs
  end.

End Spec.

(** The [.ots] grammar of section 4.1 of the specification, as an encoder,
    and the trees it is defined on. *)
Module Grammar.
Import Constants Types.

Inductive Branch : Type :=
| BAttestation (att : Attestation)
| BContinuation (op : Operation) (child : Timestamp).

(** [Attestation := 0x00 AttTag:8B VarBytes]; the payload of [Pending] is a
    nested varbytes around the UTF-8 URI. *)
Definition encodeAttestation (att : Attestation) : bytes :=
  match att with
  | Pending uri =>
      TAG_ATTESTATION :: ATT_TAG_PENDING
        ++ Writer.writeVarbytes []
             (Writer.writeVarbytes [] (Writer.TextEncoder_encode uri))
  | _ => Writer.writeAttestation [] att
  end.

(** [Timestamp := (Fork Branch)* Branch]: a fork marker before every branch
    but the last. *)
Fixpoint joinBranches (encoded : list bytes) : bytes :=
  match encoded with
  | [] => []
  | [b] => b
  | b :: rest => TAG_FORK :: b ++ joinBranches rest
  end.

Fixpoint encodeTimestamp (ts : Timestamp) : bytes :=
  match ts with
  | mkTimestamp atts chs =>
      joinBranches
        (map encodeAttestation atts
         ++ map (fun oc => Writer.writeOperation [] (fst oc) ++ encodeTimestamp (snd oc))
              chs)
  end.

Definition encodeBranch (b : Branch) : bytes :=
  match b with
  | BAttestation att => encodeAttestation att
  | BContinuation op child => Writer.writeOperation [] op ++ encodeTimestamp child
  end.

Definition branchesOf (ts : Timestamp) : list Branch :=
  map BAttestation (attestations ts)
  ++ map (fun oc => BContinuation (fst oc) (snd oc)) (ops ts).

(** The node that holds the branches [bs], in their order. *)
Definition attestationsOfBranches (bs : list Branch) : list Attestation :=
  flat_map (fun b => match b with BAttestation a => [a] | _ => [] end) bs.

Definition opsOfBranches (bs : list Branch) : list (Operation * Timestamp) :=
  flat_map (fun b => match b with BContinuation op c => [(op, c)] | _ => [] end) bs.

Definition knownTag (tag : bytes) : Prop :=
  tag = ATT_TAG_BITCOIN \/ tag = ATT_TAG_LITECOIN \/
  tag = ATT_TAG_ETHEREUM \/ tag = ATT_TAG_PENDING.

(** Attestations within the bounds of the format: a height is a safe
    integer, a payload is at most 1 MiB, and an unknown tag is eight bytes
    that are none of the four known tags. *)
Definition wfAttestation (att : Attestation) : Prop :=
  match att with
  | Bitcoin h | Litecoin h | Ethereum h => h < 2 ^ 53
  | Pending uri =>
      N.of_nat (List.length (Writer.writeVarbytes [] (Writer.TextEncoder_encode uri)))
      <= 1048576
  | Unknown tag payload =>
      List.length tag = 8%nat /\ ~ knownTag tag /\
      N.of_nat (List.length payload) <= 1048576
  end.

(** Trees within the bounds of the format, for a node at [depth]: at most
    256 deep, every node with at least one branch. *)
Fixpoint wfTimestamp (depth : nat) (ts : Timestamp) : Prop :=
  match ts with
  | mkTimestamp atts chs =>
      (depth <= Parser.MAX_DEPTH)%nat /\
      (atts <> [] \/ chs <> []) /\
      Forall wfAttestation atts /\
      (fix children (l : list (Operation * Timestamp)) : Prop :=
         match l with
         | [] => True
         | oc :: l' =>
             Spec.opWellSized (fst oc) /\ wfTimestamp (S depth) (snd oc) /\ children l'
         end) chs
  end.

Definition wfBranch (depth : nat) (b : Branch) : Prop :=
  match b with
  | BAttestation att => wfAttestation att
  | BContinuation op child => Spec.opWellSized op /\ wfTimestamp (S depth) child
  end.

(** Files within the bounds of the format. *)
Definition wfOtsFile (ots : OtsFile) : Prop :=
  N.of_nat (List.length (fileDigest ots)) = HASH_OP_DIGEST_LEN (hashOp ots) /\
  wfTimestamp 0 (timestamp ots).

(** Branch bodies from index [idx] on, of [total] branches, each but the
    last of the node behind a fork marker. *)
Fixpoint forkedFrom (total idx : Z) (encoded : list bytes) : bytes :=
  match encoded with
  | [] => []
  | e :: rest =>
      (if (idx <? total - 1)%Z then [TAG_FORK] else [])
        ++ e ++ forkedFrom total (idx + 1)%Z rest
  end.

End Grammar.

Module VerifySpec.
Import Constants Types Verify.

(** The block explorer answers for [height] with a merkle root in hex. *)
Definition lookupSucceeds (getBlockInfo : Bitcoin.BlockOracle) (height : N) : Prop :=
  exists info le,
    getBlockInfo height = Ok info /\
    Bitcoin.merkleRootToLeBytes (Bitcoin.merkleRoot info) = Ok le.

(** The result that belongs to an attestation. *)
Definition resultFor (getBlockInfo : Bitcoin.BlockOracle)
    (att : Attestation) (r : VerifyResult) : Prop :=
  match att with
  | Bitcoin h =>
      (lookupSucceeds getBlockInfo h /\
       ((exists bh bt, r = Verified h bh bt) \/ (exists e g, r = Failed h e g))) \/
      (~ lookupSucceeds getBlockInfo h /\
       exists c, r = VError (CouldNotFetchBitcoinBlock h c))
  | Pending uri => r = VPending uri
  | Litecoin h => r = Skipped (LitecoinNotVerified h)
  | Ethereum h => r = Skipped (EthereumNotVerified h)
  | Unknown tag _ => r = Skipped (UnknownAttestationType (Hex.bytesToHex tag))
  end.

(** The narrower reading, in which a Bitcoin attestation is always answered
    by [Verified] or [Failed]. *)
Definition resultForAsClaimed (att : Attestation) (r : VerifyResult) : Prop :=
  match att with
  | Bitcoin h => (exists bh bt, r = Verified h bh bt) \/ (exists e g, r = Failed h e g)
  | Pending uri => r = VPending uri
  | Litecoin _ | Ethereum _ | Unknown _ _ => exists reason, r = Skipped reason
  end.

End VerifySpec.

Module UpgradeSpec.
Import Constants Types Operations Upgrade.

(** What takes the place of an attestation at a node reached with [msg]: a
    pending attestation that the calendar completes is replaced by the
    attestations and the continuations of the returned sub-tree; every other
    attestation stays. *)
Definition replacement (fetch : Http.GetOracle) (msg : bytes) (att : Attestation)
  : list Attestation * list (Operation * Timestamp) :=
  match att with
  | Pending uri =>
      match fetchUpgrade fetch uri msg with
      | Ok (Some subTree) => (attestations subTree, ops subTree)
      | _ => ([att], [])
      end
  | _ => ([att], [])
  end.

(** The upgraded tree, as the specification words it: the continuations a
    node had before are upgraded recursively, the continuations taken from
    calendar responses are appended as they are. *)
Fixpoint upgradedTree (H : Crypto.HashOracle) (fetch : Http.GetOracle)
    (ts : Timestamp) (msg : bytes) (depth : nat) : Timestamp :=
  if Nat.ltb MAX_DEPTH depth then ts
  else
    match ts with
    | mkTimestamp atts chs =>
        mkTimestamp
          (flat_map (fun a => fst (replacement fetch msg a)) atts)
          (map (fun oc =>
                  (fst oc,
                   match applyOperation H (fst oc) msg with
                   | Ok newMsg => upgradedTree H fetch (snd oc) newMsg (S depth)
                   | Err _ => snd oc
                   end)) chs
           ++ flat_map (fun a => snd (replacement fetch msg a)) atts)
    end.

Definition requestFor (msg : bytes) (att : Attestation) : list string :=
  match att with
  | Pending uri => [upgradeUrl uri msg]
  | _ => []
  end.

(** The calendar requests an upgrade makes, read off the tree as it was
    before the upgrade: one per pending attestation it had, and no other. *)
Fixpoint requestsOf (H : Crypto.HashOracle) (ts : Timestamp) (msg : bytes)
    (depth : nat) : list string :=
  if Nat.ltb MAX_DEPTH depth then []
  else
    match ts with
    | mkTimestamp atts chs =>
        flat_map (requestFor msg) atts
        ++ flat_map (fun oc =>
                       match applyOperation H (fst oc) msg with
                       | Ok newMsg => requestsOf H (snd oc) newMsg (S depth)
                       | Err _ => []
                       end) chs
    end.

(** Some pending attestation in the tree. *)
Definition somePending (ts : Timestamp) : Prop :=
  Exists (fun a => Parser.isPending a = true) (Spec.attestationsDepthFirst ts).

(** No pending attestation anywhere in the tree. *)
Definition noPending (ts : Timestamp) : Prop :=
  Forall (fun a => Parser.isPending a = false) (Spec.attestationsDepthFirst ts).

End UpgradeSpec.

Module StampSpec.
Import Constants Types.

(** The nonce that [stampHash] draws, and the digest it submits:
    [SHA-256(nonce || fileDigest)]. *)
Definition nonceOf (getRandomValue : nat -> byte) : bytes :=
  map getRandomValue (seq 0 16).

Definition calendarDigestOf (H : Crypto.HashOracle) (getRandomValue : nat -> byte)
    (fileDigest : bytes) : bytes :=
  Crypto.sha256 H (nonceOf getRandomValue ++ fileDigest).

(** The bodies of the calendars that answered, in the configured order. *)
Definition successfulResponses (fetch : Http.PostOracle) (calendarDigest : bytes)
  : list (string * bytes) :=
  flat_map
    (fun server =>
       match Stamp.submitToCalendar fetch server calendarDigest with
       | Ok data => [(server, data)]
       | Err _ => []
       end)
    Stamp.CALENDAR_SERVERS.




End StampSpec.

(** The inner loops of the tree walkers, by name. *)
Module Loops.
Import Constants Types Operations.

Definition walkChildren (H : Crypto.HashOracle) (getBlockInfo : Bitcoin.BlockOracle)
    (msg : bytes) (depth : nat)
  : list (Operation * Timestamp) -> Verify.WalkState -> Verify.WalkState :=
  fix loop l st :=
    match l with
    | [] => st
    | (op, child) :: l' =>
        match applyOperation H op msg with
        | Ok newMsg =>
            let '(childResults, w) :=
              Verify.walkTimestamp H getBlockInfo child newMsg (S depth) (snd st) in
            loop l' (fst st ++ childResults, w)
        | Err e =>
            loop l' (fst st ++ [Verify.VError (Verify.OperationFailed e)], snd st)
        end
    end.

Definition walkAttestation (getBlockInfo : Bitcoin.BlockOracle) (msg : bytes)
    (st : Verify.WalkState) (att : Attestation) : Verify.WalkState :=
  let '(r, w) := Verify.checkAttestation getBlockInfo att msg (snd st) in
  (fst st ++ [r], w).

Definition upgradeChildren (H : Crypto.HashOracle) (fetch : Http.GetOracle)
    (msg : bytes) (depth : nat)
  : list (Operation * Timestamp) -> Upgrade.UpgradeState ->
    list (Operation * Timestamp) * Upgrade.UpgradeState :=
  fix loop l st :=
    match l with
    | [] => ([], st)
    | (op, child) :: l' =>
        match applyOperation H op msg with
        | Ok newMsg =>
            let '(child', st) :=
              Upgrade.upgradeTimestamp H fetch child newMsg st (S depth) in
            let '(rest, st) := loop l' st in
            ((op, child') :: rest, st)
        | Err e =>
            let '(rest, st) := loop l' (Upgrade.pushError st (Upgrade.OperationFailed e)) in
            ((op, child) :: rest, st)
        end
    end.

Definition writeAttestationStep (totalBranches : Z) (st : Writer.ByteBuffer * Z)
    (att : Attestation) : Writer.ByteBuffer * Z :=
  let buf := Writer.writeFork totalBranches st in
  (Writer.writeAttestation buf att, (snd st + 1)%Z).

Definition writeChildren (totalBranches : Z)
  : list (Operation * Timestamp) -> Writer.ByteBuffer * Z -> Writer.ByteBuffer * Z :=
  fix loop l st :=
    match l with
    | [] => st
    | (op, child) :: l' =>
        let buf := Writer.writeFork totalBranches st in
        let buf := Writer.writeOperation buf op in
        let buf := Writer.writeTimestamp buf child in
        loop l' (buf, (snd st + 1)%Z)
    end.

Definition hasPendingChild : list (Operation * Timestamp) -> bool :=
  fix loop l :=
    match l with
    | [] => false
    | (_, child) :: l' =>
        if Upgrade.hasPendingAttestation child then true else loop l'
    end.

End Loops.


(** Concrete collaborators and inputs for the examples: a hash oracle that
    answers with bytes [0xaa], a block explorer that cannot be reached, a
    proof with one Bitcoin attestation for block 358391 whose stored digest
    is what the oracle answers, and the same proof with a digest of zeros. *)
Module Examples.
Import Constants Types.

Definition hashes : Crypto.HashOracle :=
  Crypto.mkHashOracle (fun _ => repeat xaa 32) (fun _ => repeat xaa 20)
    (fun _ => repeat xaa 20).

Definition unreachableExplorer : Bitcoin.BlockOracle :=
  fun _ => Err "Network error"%string.

Definition helloWorldLikeOts : bytes :=
  HEADER_MAGIC ++ x01 :: x08 :: repeat xaa 32
    ++ x00 :: ATT_TAG_BITCOIN ++ [x03; xf7; xef; x15].

Definition mismatchedOts : bytes :=
  HEADER_MAGIC ++ x01 :: x08 :: repeat x00 32
    ++ x00 :: ATT_TAG_BITCOIN ++ [x03; xf7; xef; x15].

(** The stamping scenarios: the digest [aa..aa] in hex, a random source that
    writes zeros, a calendar that answers every submission with a minimal
    pending attestation for [calendarUri], and a pair of calendars of which
    the first answers with a timestamp of two sibling attestations. *)
Definition digestHex : string :=
  "aaaaaaaaaaaaaaaaaaaaaaaaaaaaaaaaaaaaaaaaaaaaaaaaaaaaaaaaaaaaaaaa".

Definition zeroRandom : nat -> byte := fun _ => x00.

Definition calendarUri : string := "https://alice.btc.calendar.opentimestamps.org".

Definition pendingCalendar : Http.PostOracle :=
  fun _ _ =>
    Ok (Http.mkResponse true 200 (Grammar.encodeAttestation (Pending calendarUri))).



(** The pending proof of the upgrade tests, and calendars that answer a
    request with a completed sub-tree, with a sub-tree that itself holds a
    pending attestation under a continuation, or with 404. *)
Definition pendingOts : OtsFile :=
  mkOtsFile sha256 (repeat x00 32) (mkTimestamp [Pending calendarUri] []).

Definition completeOts : OtsFile :=
  mkOtsFile sha256 (repeat x00 32) (mkTimestamp [Bitcoin 100000] []).

Definition bitcoinCalendar : Http.GetOracle :=
  fun _ => Ok (Http.mkResponse true 200 (Grammar.encodeAttestation (Bitcoin 500000))).

Definition nestedSubTree : Timestamp :=
  mkTimestamp [Bitcoin 500000]
    [(OpSha256, mkTimestamp [Pending "https://bob.btc.calendar.opentimestamps.org"] [])].

Definition nestedCalendar : Http.GetOracle :=
  fun _ => Ok (Http.mkResponse true 200 (Grammar.encodeTimestamp nestedSubTree)).

Definition notFoundCalendar : Http.GetOracle :=
  fun _ => Ok (Http.mkResponse false 404 []).

End Examples.

(** Vocabulary for the properties of the utilities around the codec. *)
Module Shape.
Import Constants Types.

(** A hexadecimal digit, in either case. *)
Definition isHexChar (c : ascii) : bool :=
  existsb (Ascii.eqb c) (list_ascii_of_string "0123456789abcdefABCDEF").

(** A lower-case hexadecimal digit. *)
Definition isLowerHexChar (c : ascii) : bool :=
  existsb (Ascii.eqb c) (list_ascii_of_string "0123456789abcdef").

(** The heights of the Bitcoin attestations of a list, in order. *)
Definition bitcoinHeights (atts : list Attestation) : list N :=
  flat_map (fun a => match a with Bitcoin h => [h] | _ => [] end) atts.

(** The number of continuations in a tree. *)
Fixpoint countOps (ts : Timestamp) : nat :=
  match ts with
  | mkTimestamp _ chs =>
      fold_right (fun oc acc => (S (countOps (snd oc)) + acc)%nat) 0%nat chs
  end.

(** The operation that computes the hash named in a file header. *)
Definition hashOperation (h : HashOp) : Operation :=
  match h with
  | sha256 => OpSha256
  | sha1 => OpSha1
  | ripemd160 => OpRipemd160
  | keccak256 => OpKeccak256
  end.

(** The tags of the operations without an argument. *)
Definition isUnaryOpTag (b : byte) : bool :=
  match b with
  | xf2 | xf3 | x08 | x02 | x03 | x67 => true
  | _ => false
  end.

(** The errors an upgrade records for a calendar request, as opposed to
    those for an operation or for the depth of the tree. *)
Definition isFetchError (e : Upgrade.UpgradeError) : bool :=
  match e with
  | Upgrade.FetchRejected _ | Upgrade.HttpStatus _ _ | Upgrade.ResponseParseError _ => true
  | _ => false
  end.

End Shape.

Module Chain.
Import Constants Types.

(** The tree of a file that is one path of operations, outermost first,
    ending in a node without branches. *)
Definition chainOf (ops : list Operation) : Timestamp :=
  fold_right (fun op child => mkTimestamp [] [(op, child)]) (mkTimestamp [] []) ops.

(** The bytes of that path. *)
Definition chainBytes (ops : list Operation) : bytes :=
  List.concat (map (Writer.writeOperation []) ops).

End Chain.

(** The inner loops of the tree utilities of [parser.ts], by name. *)
Module TreeLoops.
Import Constants Types.

Definition countChildren : list (Operation * Timestamp) -> N -> N :=
  fix loop l count :=
    match l with
    | [] => count
    | (_, child) :: l' => loop l' (count + Parser.countAttestations child)
    end.

Definition hasPendingChild : list (Operation * Timestamp) -> bool :=
  fix loop l :=
    match l with
    | [] => false
    | (_, child) :: l' => if Parser.hasPending child then true else loop l'
    end.

Definition firstBitcoin : list Attestation -> option N :=
  fix attLoop l :=
    match l with
    | [] => None
    | Bitcoin height :: _ => Some height
    | _ :: l' => attLoop l'
    end.

Definition firstBitcoinBelow : list (Operation * Timestamp) -> option N :=
  fix loop l :=
    match l with
    | [] => None
    | (_, child) :: l' =>
        match Parser.findBitcoinHeight child with
        | Some h => Some h
        | None => loop l'
        end
    end.

End TreeLoops.

Module WalkSpec.
Import Constants Types Operations.

(** The heights a verification asks the block explorer for, in order: those
    of the Bitcoin attestations of every node it reaches. *)
Fixpoint heightsAsked (H : Crypto.HashOracle) (ts : Timestamp) (msg : bytes)
    (depth : nat) : list N :=
  if Nat.ltb Verify.MAX_DEPTH depth then []
  else
    match ts with
    | mkTimestamp atts chs =>
        Shape.bitcoinHeights atts
        ++ flat_map (fun oc =>
                       match applyOperation H (fst oc) msg with
                       | Ok newMsg => heightsAsked H (snd oc) newMsg (S depth)
                       | Err _ => []
                       end) chs
    end.

(** A result other than the error for a tree beyond the depth limit. *)
Definition notDepthError (r : Verify.VerifyResult) : Prop :=
  r <> Verify.VError Verify.ProofTreeExceedsMaximumDepth.

End WalkSpec.

Module UpgradeSteps.
Import Constants Types Upgrade.

(** A run of [k] slashes. *)
Fixpoint slashes (k : nat) : string :=
  match k with
  | O => EmptyString
  | S k' => String "/" (slashes k')
  end.

(** The statistics after the attempt to upgrade one pending attestation at a
    node reached with [msg]. *)
Definition attemptState (fetch : Http.GetOracle) (msg : bytes) (st : UpgradeState)
    (uri : string) : UpgradeState :=
  let st := logRequest st (upgradeUrl uri msg) in
  match fetchUpgrade fetch uri msg with
  | Ok (Some _) => incUpgraded st
  | Ok None => incStillPending st
  | Err e => pushError st e
  end.

(** The requests the statistics account for: upgraded, still pending, or
    failed. *)
Definition settled (st : UpgradeState) : nat :=
  (N.to_nat (upgraded (result_ st)) + N.to_nat (stillPending (result_ st))
   + List.length (filter Shape.isFetchError (errors (result_ st))))%nat.

(** A calendar that has no completed proof to give: it cannot be reached,
    or answers 404, an error status, or an empty body. *)
Definition nothingCompleted (fetch : Http.GetOracle) : Prop :=
  forall url : string,
    match fetch url with
    | Ok response =>
        Http.status response = 404 \/ Http.ok response = false \/
        Http.body response = []
    | Err _ => True
    end.

End UpgradeSteps.

(** The loops of [formatTimestampTree], by name, and what is said of the
    lines it writes. *)
Module InfoLoops.
Import Constants Types Info.

Definition formatAttestationStep (total : Z) (prefix : string) (st : list string * Z)
    (att : Attestation) : list string * Z :=
  let isLast := (snd st =? total - 1)%Z in
  (fst st ++ [prefix ++ connector isLast ++ formatAttestation att]%string,
   (snd st + 1)%Z).

Definition formatChildren (total : Z) (prefix : string)
  : list (Operation * Timestamp) -> list string * Z -> list string * Z :=
  fix loop l st :=
    match l with
    | [] => st
    | (op, child) :: l' =>
        let isLast := (snd st =? total - 1)%Z in
        let lines :=
          fst st ++ [prefix ++ connector isLast ++ formatOperation op]%string in
        let lines :=
          formatTimestampTree child (prefix ++ extension isLast)%string lines in
        loop l' (lines, (snd st + 1)%Z)
    end.

(** A line that starts with [prefix]. *)
Definition startsWith (prefix line : string) : Prop :=
  exists rest : string, line = (prefix ++ rest)%string.

(** A line that ends with the text of the attestation [att]. *)
Definition shows (att : Attestation) (line : string) : Prop :=
  exists before : string, line = (before ++ formatAttestation att)%string.

(** What a node adds to the lines: one line per attestation and per
    continuation of the sub-tree; every line starts with the prefix; every
    attestation of the sub-tree is shown. *)
Definition addsLines (ts : Timestamp) (prefix : string) (new : list string) : Prop :=
  List.length new =
    (List.length (Spec.attestationsDepthFirst ts) + Shape.countOps ts)%nat /\
  Forall (startsWith prefix) new /\
  forall att, In att (Spec.attestationsDepthFirst ts) -> Exists (shows att) new.

End InfoLoops.

(** What the calendars give for a submitted digest, read off the HTTP
    exchange alone. *)
Module Calendars.

(** The calendar at [server] answered the [POST] of [calendarDigest] to
    [server/digest] with [body]: the response is ok and its body has 1 to
    65536 bytes. *)
Definition answered (fetch : Http.PostOracle) (calendarDigest : bytes)
    (server : string) (body : bytes) : Prop :=
  exists response,
    fetch (server ++ "/digest")%string calendarDigest = Ok response /\
    Http.ok response = true /\
    Http.body response = body /\
    1 <= N.of_nat (List.length body) <= 65536.

(** The same, decided. *)
Definition answerOf (fetch : Http.PostOracle) (calendarDigest : bytes)
    (server : string) : option bytes :=
  match fetch (server ++ "/digest")%string calendarDigest with
  | Ok response =>
      if Http.ok response
         && (1 <=? N.of_nat (List.length (Http.body response)))
         && (N.of_nat (List.length (Http.body response)) <=? 65536)
      then Some (Http.body response)
      else None
  | Err _ => None
  end.

(** The answers of the two calendars, alice before bob. *)
Definition answers (fetch : Http.PostOracle) (calendarDigest : bytes)
  : list (string * bytes) :=
  flat_map
    (fun server =>
       match answerOf fetch calendarDigest server with
       | Some body => [(server, body)]
       | None => []
       end)
    ["https://alice.btc.calendar.opentimestamps.org"%string;
     "https://bob.btc.calendar.opentimestamps.org"%string].

End Calendars.

(* ================================================================== *)
(** * Properties *)

Import Constants Types.

(** ** Bytes *)

Lemma to_N_u8 (n : N) : Byte.to_N (u8 n) = n mod 256.
Proof.
  unfold u8.
  destruct (Byte.of_N (n mod 256)) eqn:E.
  - now apply Byte.to_of_N in E.
  - apply Byte.of_N_None_iff in E.
    pose proof (N.mod_upper_bound n 256). lia.
Qed.

Lemma to_N_lt_256 (b : byte) : Byte.to_N b < 256.
Proof. pose proof (Byte.to_N_bounded b). lia. Qed.

Lemma to_N_inj (a b : byte) : Byte.to_N a = Byte.to_N b -> a = b.
Proof.
  intros E. pose proof (Byte.of_to_N a) as Ha. rewrite E, Byte.of_to_N in Ha.
  congruence.
Qed.

Lemma u8_to_N (b : byte) : u8 (Byte.to_N b) = b.
Proof.
  apply to_N_inj. rewrite to_N_u8. apply N.mod_small, to_N_lt_256.
Qed.

Lemma land_127 (n : N) : N.land n 127 = n mod 128.
Proof. change 127 with (N.ones 7). now rewrite N.land_ones. Qed.

Lemma land_128_small (p : N) : p < 128 -> N.land p 128 = 0.
Proof.
  intros Hp. apply N.bits_inj. intros i.
  rewrite N.land_spec, N.bits_0.
  destruct (N.eq_dec i 7) as [->|Hi].
  - rewrite <- (N.mod_small p (2 ^ 7)) by exact Hp.
    now rewrite N.mod_pow2_bits_high by lia.
  - change 128 with (2 ^ 7). rewrite N.pow2_bits_false by congruence.
    apply andb_false_r.
Qed.

Lemma lor_128_small (p : N) : p < 128 -> N.lor p 128 = p + 128.
Proof.
  intros Hp. pose proof (land_128_small p Hp) as E.
  rewrite <- N.lxor_lor by exact E. symmetry. now apply N.add_nocarry_lxor.
Qed.

Lemma payload_of_byte (b : byte) : N.land (Byte.to_N b) 127 < 128.
Proof. rewrite land_127. now apply N.mod_upper_bound. Qed.

(** ** The byte buffer *)

Lemma extend_app (buf : Writer.ByteBuffer) (bs : bytes) :
  Writer.extend buf bs = buf ++ bs.
Proof.
  unfold Writer.extend. revert buf.
  induction bs as [|b bs IH]; intros buf; simpl.
  - now rewrite app_nil_r.
  - rewrite IH. unfold Writer.push. now rewrite <- app_assoc.
Qed.

Lemma writeVaruint_loop_app (fuel : nat) (buf : Writer.ByteBuffer) (v : N) :
  Writer.writeVaruint_loop fuel buf v = buf ++ Writer.writeVaruint_loop fuel [] v.
Proof.
  revert buf v. induction fuel as [|fuel IH]; intros buf v; simpl.
  - now rewrite app_nil_r.
  - destruct (v / 128 =? 0); simpl.
    + reflexivity.
    + rewrite IH. rewrite (IH (Writer.push [] _)).
      unfold Writer.push. simpl. now rewrite <- app_assoc.
Qed.

Lemma writeVaruint_app (buf : Writer.ByteBuffer) (v : N) :
  Writer.writeVaruint buf v = buf ++ Writer.writeVaruint [] v.
Proof. apply writeVaruint_loop_app. Qed.

Lemma writeVarbytes_app (buf : Writer.ByteBuffer) (data : bytes) :
  Writer.writeVarbytes buf data =
  buf ++ Writer.writeVaruint [] (N.of_nat (List.length data)) ++ data.
Proof.
  unfold Writer.writeVarbytes. rewrite extend_app, writeVaruint_app.
  now rewrite <- app_assoc.
Qed.

Lemma writeVarbytes_nil (data : bytes) :
  Writer.writeVarbytes [] data =
  Writer.writeVaruint [] (N.of_nat (List.length data)) ++ data.
Proof. now rewrite writeVarbytes_app. Qed.

(** ** Strings *)

Lemma string_app_nil_r (s : string) : (s ++ EmptyString)%string = s.
Proof. induction s as [|c s IH]; cbn; congruence. Qed.

Lemma string_app_assoc (s t u : string) :
  ((s ++ t) ++ u)%string = (s ++ (t ++ u))%string.
Proof. induction s as [|c s IH]; cbn; congruence. Qed.

(** ** LEB128: reading back what [writeVaruint] wrote *)

Lemma readVaruint_loop_write (fuel : nat) :
  forall (v acc shift : N) (rest : bytes),
    (1 <= fuel)%nat ->
    v < 2 ^ N.of_nat fuel ->
    shift <= 52 ->
    v * 2 ^ shift < 2 ^ 53 ->
    Parser.readVaruint_loop (Writer.writeVaruint_loop fuel [] v ++ rest) (JInt acc) shift
    = Ok (JInt (acc + v * 2 ^ shift), rest).
Proof.
  induction fuel as [|fuel IH]; intros v acc shift rest Hf Hv Hs Hb; [lia|].
  cbn [Writer.writeVaruint_loop]. rewrite !land_127.
  assert (Hp : v mod 128 < 128) by (apply N.mod_upper_bound; discriminate).
  assert (Hdm : v = 128 * (v / 128) + v mod 128) by (apply N.div_mod; discriminate).
  set (q := v / 128) in *. set (r := v mod 128) in *. clearbody q r.
  assert (Hpow : 0 < 2 ^ shift) by (apply N.neq_0_lt_0, N.pow_nonzero; discriminate).
  assert (H49 : 49 <= shift -> v <= 15).
  { intros H49. assert (2 ^ 49 <= 2 ^ shift) by (apply N.pow_le_mono_r; [discriminate|lia]).
    assert (Hlt : v * 2 ^ 49 < 2 ^ 53) by nia.
    change (2 ^ 53) with (16 * 2 ^ 49) in Hlt.
    assert (v < 16) by (apply (N.mul_lt_mono_pos_r (2 ^ 49)); [reflexivity|exact Hlt]).
    lia. }
  assert (Hno1024 : (1024 <=? shift) = false) by (apply N.leb_gt; lia).
  assert (Hno56 : (56 <=? shift) = false) by (apply N.leb_gt; lia).
  destruct (q =? 0) eqn:Eq; cbn [negb].
  - (* last byte *)
    apply N.eqb_eq in Eq.
    assert (Hvr : v = r) by lia. subst q. rewrite <- Hvr in *. clear Hvr r Hdm.
    unfold Writer.push. cbn [app Parser.readVaruint_loop].
    rewrite to_N_u8, !land_127.
    rewrite (N.mod_small v 256) by lia.
    rewrite (N.mod_small v 128) by exact Hp.
    rewrite Hno56. cbn [andb].
    rewrite land_128_small by exact Hp.
    cbn [N.eqb Parser.addPayload]. rewrite Hno1024.
    destruct (49 <=? shift) eqn:E49; cbn [andb]; [|reflexivity].
    apply N.leb_le in E49. specialize (H49 E49).
    replace (15 <? v) with false by (symmetry; apply N.ltb_ge; lia).
    reflexivity.
  - (* a continuation byte *)
    apply N.eqb_neq in Eq.
    assert (Hbig : 128 <= v) by lia.
    assert (Hshift : shift + 7 <= 52).
    { destruct (N.le_gt_cases (shift + 7) 52) as [|Hgt]; [assumption|exfalso].
      assert (2 ^ 46 <= 2 ^ shift) by (apply N.pow_le_mono_r; [discriminate|lia]).
      change (2 ^ 53) with (128 * 2 ^ 46) in Hb. nia. }
    rewrite writeVaruint_loop_app. unfold Writer.push.
    rewrite <- app_assoc. cbn [app Parser.readVaruint_loop].
    rewrite to_N_u8, !land_127.
    rewrite lor_128_small by exact Hp.
    rewrite (N.mod_small (r + 128) 256) by lia.
    replace ((r + 128) mod 128) with r.
    2:{ rewrite N.Div0.add_mod by discriminate. rewrite N.Div0.mod_same, N.add_0_r.
        rewrite N.Div0.mod_mod. symmetry. now apply N.mod_small. }
    rewrite Hno56.
    replace (49 <=? shift) with false by (symmetry; apply N.leb_gt; lia).
    cbn [andb].
    replace (N.land (r + 128) 128 =? 0) with false.
    2:{ symmetry. apply N.eqb_neq. rewrite <- lor_128_small by exact Hp.
        rewrite N.land_lor_distr_l. intros E. apply N.lor_eq_0_iff in E.
        destruct E as [_ E]. discriminate E. }
    cbn [Parser.addPayload]. rewrite Hno1024.
    assert (Hstep : 2 ^ (shift + 7) = 128 * 2 ^ shift).
    { rewrite N.pow_add_r. change (2 ^ 7) with 128. lia. }
    rewrite IH.
    + f_equal. f_equal. rewrite Hstep. rewrite Hdm. f_equal. lia.
    + destruct fuel; [|lia]. exfalso. cbn in Hv. lia.
    + rewrite Nnat.Nat2N.inj_succ, N.pow_succ_r' in Hv.
      assert (0 < 2 ^ N.of_nat fuel) by (apply N.neq_0_lt_0, N.pow_nonzero; discriminate).
      destruct (N.lt_ge_cases q (2 ^ N.of_nat fuel)); [assumption|nia].
    + exact Hshift.
    + rewrite Hstep. nia.
Qed.

Lemma readVaruint_writeVaruint (v : N) (rest : bytes) :
  v < 2 ^ 53 ->
  Parser.readVaruint (Writer.writeVaruint [] v ++ rest) = Ok (JInt v, rest).
Proof.
  intros Hv. unfold Parser.readVaruint, Writer.writeVaruint.
  rewrite readVaruint_loop_write.
  - f_equal. f_equal. cbn. f_equal. lia.
  - lia.
  - rewrite Nnat.Nat2N.inj_succ, Nnat.N2Nat.id, N.pow_succ_r'.
    pose proof (N.size_gt v). lia.
  - lia.
  - cbn. lia.
Qed.

(** ** Over-long LEB128 encodings *)

Lemma readVaruint_loop_prefix (pre : bytes) :
  forall (c : bytes) (value : JsNum) (shift : N),
    Forall (fun x => Spec.continues x = true) pre ->
    Parser.readVaruint_loop (pre ++ c) value shift = Err Parser.VaruintOverflow \/
    exists value',
      Parser.readVaruint_loop (pre ++ c) value shift =
      Parser.readVaruint_loop c value' (shift + 7 * N.of_nat (List.length pre)).
Proof.
  induction pre as [|x pre IH]; intros c value shift Hc.
  - right. exists value. cbn. now rewrite N.add_0_r.
  - inversion Hc as [|? ? Hx Hpre]; subst.
    cbn [app Parser.readVaruint_loop].
    destruct ((56 <=? shift) && (0 <? N.land (Byte.to_N x) 127)); [now left|].
    destruct ((49 <=? shift) && (15 <? N.land (Byte.to_N x) 127)); [now left|].
    unfold Spec.continues in Hx. apply negb_true_iff in Hx. rewrite Hx.
    destruct (IH c (Parser.addPayload value (N.land (Byte.to_N x) 127) shift)
                (shift + 7) Hpre) as [E|[value' E]].
    + now left.
    + right. exists value'. rewrite E. f_equal. cbn [List.length]. lia.
Qed.

Lemma readVaruint_loop_step (b : byte) (c : bytes) (acc shift : N) :
  Spec.continues b = true ->
  shift < 49 \/ (shift < 56 /\ Spec.payload b <= 15) ->
  Parser.readVaruint_loop (b :: c) (JInt acc) shift =
  Parser.readVaruint_loop c (JInt (acc + Spec.payload b * 2 ^ shift)) (shift + 7).
Proof.
  intros Hb Hs. cbn [Parser.readVaruint_loop]. fold (Spec.payload b).
  unfold Spec.continues in Hb. apply negb_true_iff in Hb. rewrite Hb.
  replace (56 <=? shift) with false by (symmetry; apply N.leb_gt; lia).
  cbn [andb Parser.addPayload].
  replace (1024 <=? shift) with false by (symmetry; apply N.leb_gt; lia).
  destruct (49 <=? shift) eqn:E49; cbn [andb]; [|reflexivity].
  apply N.leb_le in E49.
  replace (15 <? Spec.payload b) with false by (symmetry; apply N.ltb_ge; lia).
  reflexivity.
Qed.

(** C2 (amended).  [readVaruint] rejects an over-long encoding by the payload
    of the late bytes, not by their number: after seven continuation bytes an
    eighth byte whose payload exceeds 15 raises a varuint overflow; after
    eight or more continuation bytes any byte with a non-zero payload raises
    a varuint overflow; and after eight continuation bytes (the eighth with a
    payload of at most 15) a ninth byte [0x00] is accepted, the value being
    that of the first eight bytes. *)
Theorem readVaruint_overlong_by_payload :
  (forall (pre : bytes) (b : byte) (rest : bytes),
      Forall (fun x => Spec.continues x = true) pre ->
      List.length pre = 7%nat ->
      15 < Spec.payload b ->
      Parser.readVaruint (pre ++ b :: rest) = Err Parser.VaruintOverflow) /\
  (forall (pre : bytes) (b : byte) (rest : bytes),
      Forall (fun x => Spec.continues x = true) pre ->
      (8 <= List.length pre)%nat ->
      0 < Spec.payload b ->
      Parser.readVaruint (pre ++ b :: rest) = Err Parser.VaruintOverflow) /\
  (forall (pre : bytes) (rest : bytes),
      Forall (fun x => Spec.continues x = true) pre ->
      List.length pre = 8%nat ->
      Spec.payload (nth 7 pre x00) <= 15 ->
      Parser.readVaruint (pre ++ x00 :: rest) = Ok (JInt (Spec.payloadValue pre), rest)).
Proof.
  split; [|split].
  - intros pre b rest Hc Hlen Hb. unfold Parser.readVaruint.
    destruct (readVaruint_loop_prefix pre (b :: rest) (JInt 0) 0 Hc) as [E|[v E]];
      [exact E|].
    rewrite E, Hlen. cbn [Parser.readVaruint_loop]. fold (Spec.payload b).
    apply N.ltb_lt in Hb. rewrite Hb.
    destruct (0 <? Spec.payload b); reflexivity.
  - intros pre b rest Hc Hlen Hb. unfold Parser.readVaruint.
    destruct (readVaruint_loop_prefix pre (b :: rest) (JInt 0) 0 Hc) as [E|[v E]];
      [exact E|].
    rewrite E. cbn [Parser.readVaruint_loop]. fold (Spec.payload b).
    apply N.ltb_lt in Hb. rewrite Hb.
    replace (56 <=? 0 + 7 * N.of_nat (List.length pre)) with true
      by (symmetry; apply N.leb_le; lia).
    reflexivity.
  - intros pre rest Hc Hlen H8.
    do 8 (destruct pre as [|? pre]; [discriminate Hlen|]).
    destruct pre; [|discriminate Hlen]. clear Hlen.
    repeat match goal with
           | H : Forall _ (_ :: _) |- _ => inversion H; subst; clear H
           end.
    cbn [nth] in H8. unfold Parser.readVaruint. cbn [app].
    do 7 (rewrite readVaruint_loop_step; [|assumption|left; reflexivity]).
    rewrite readVaruint_loop_step; [|assumption|right; split; [reflexivity|exact H8]].
    cbn [Parser.readVaruint_loop Spec.payloadValue].
    change (N.land (Byte.to_N x00) 127) with 0.
    change (N.land (Byte.to_N x00) 128 =? 0) with true.
    change (0 + 7 + 7 + 7 + 7 + 7 + 7 + 7 + 7) with 56.
    change ((56 <=? 56) && (0 <? 0)) with false.
    change ((49 <=? 56) && (15 <? 0)) with false.
    cbn [Parser.addPayload]. change (1024 <=? 56) with false. cbv iota.
    change (2 ^ 0) with 1. change (2 ^ (0 + 7)) with 128.
    change (2 ^ (0 + 7 + 7)) with 16384.
    change (2 ^ (0 + 7 + 7 + 7)) with 2097152.
    change (2 ^ (0 + 7 + 7 + 7 + 7)) with 268435456.
    change (2 ^ (0 + 7 + 7 + 7 + 7 + 7)) with 34359738368.
    change (2 ^ (0 + 7 + 7 + 7 + 7 + 7 + 7)) with 4398046511104.
    change (2 ^ (0 + 7 + 7 + 7 + 7 + 7 + 7 + 7)) with 562949953421312.
    f_equal. f_equal. f_equal. lia.
Qed.

(** C2, witness: eight continuation bytes and a final byte of payload 1 (the
    input of the test suite), and the accepted nine-byte encoding of 0. *)
Lemma readVaruint_overlong_by_payload_witness :
  Parser.readVaruint [x80; x80; x80; x80; x80; x80; x80; x10] = Err Parser.VaruintOverflow /\
  Parser.readVaruint [x80; x80; x80; x80; x80; x80; x80; x80; x01] = Err Parser.VaruintOverflow /\
  Parser.readVaruint [x80; x80; x80; x80; x80; x80; x80; x80; x00] = Ok (JInt 0, []).
Proof.
  split; [|split].
  - apply (proj1 readVaruint_overlong_by_payload
             [x80; x80; x80; x80; x80; x80; x80] x10 []).
    + repeat constructor.
    + reflexivity.
    + reflexivity.
  - apply (proj1 (proj2 readVaruint_overlong_by_payload)
             [x80; x80; x80; x80; x80; x80; x80; x80] x01 []).
    + repeat constructor.
    + simpl. lia.
    + reflexivity.
  - apply (proj2 (proj2 readVaruint_overlong_by_payload)
             [x80; x80; x80; x80; x80; x80; x80; x80] []).
    + repeat constructor.
    + reflexivity.
    + vm_compute. discriminate.
Defined.

(** C2, counterexample: a nine-byte varuint is not always an overflow; with a
    zero payload in the ninth byte it decodes (here to 0). *)
Lemma readVaruint_nine_bytes_accepted :
  let input := [x80; x80; x80; x80; x80; x80; x80; x80; x00] in
  List.length input = 9%nat /\
  Parser.readVaruint input = Ok (JInt 0, []) /\
  Parser.readVaruint input <> Err Parser.VaruintOverflow.
Proof. cbv zeta. split; [reflexivity|split; [reflexivity|discriminate]]. Qed.

(** Far beyond nine bytes the source leaves the integers: with 147
    continuation bytes of payload zero, [2 ** shift] is [Infinity] at the
    next byte and the value is [NaN]. *)
Example readVaruint_NaN :
  Parser.readVaruint (repeat x80 147 ++ [x00]) = Ok (JNaN, []) /\
  Parser.readVaruint (repeat x80 146 ++ [x00]) = Ok (JInt 0, []).
Proof. split; vm_compute; reflexivity. Qed.

(** ** Constant-time equality is equality *)

Lemma constantTimeEqual_loop_zero (a : bytes) :
  forall (b : bytes) (acc : N),
    List.length a = List.length b ->
    (Hex.constantTimeEqual_loop a b acc = 0 <-> acc = 0 /\ a = b).
Proof.
  induction a as [|x a IH]; intros [|y b] acc Hlen; try discriminate Hlen; cbn.
  - intuition.
  - injection Hlen as Hlen. rewrite IH by exact Hlen.
    rewrite N.lor_eq_0_iff. rewrite N.lxor_eq_0_iff.
    split.
    + intros [[Hacc Hxy] Hab]. apply to_N_inj in Hxy. subst. auto.
    + intros [Hacc Hab]. injection Hab as -> ->. auto.
Qed.

Lemma constantTimeEqual_true_iff (a b : bytes) :
  Hex.constantTimeEqual a b = true <-> a = b.
Proof.
  unfold Hex.constantTimeEqual.
  destruct (Nat.eqb (List.length a) (List.length b)) eqn:El; cbn [negb].
  - apply Nat.eqb_eq in El. rewrite N.eqb_eq.
    rewrite constantTimeEqual_loop_zero by exact El. intuition.
  - apply Nat.eqb_neq in El. split; [discriminate|].
    intros ->. now elim El.
Qed.

Lemma constantTimeEqual_refl (a : bytes) : Hex.constantTimeEqual a a = true.
Proof. now apply constantTimeEqual_true_iff. Qed.

Lemma constantTimeEqual_false_iff (a b : bytes) :
  Hex.constantTimeEqual a b = false <-> a <> b.
Proof.
  rewrite <- constantTimeEqual_true_iff.
  destruct (Hex.constantTimeEqual a b); split; congruence.
Qed.

(** ** The cursor *)

Lemma readBytes_app (data rest : bytes) (n : N) :
  n = N.of_nat (List.length data) ->
  Parser.readBytes (data ++ rest) n = Ok (data, rest).
Proof.
  intros ->. unfold Parser.readBytes, Parser.remaining.
  rewrite length_app.
  replace (N.of_nat (List.length data + List.length rest) <? N.of_nat (List.length data))
    with false by (symmetry; apply N.ltb_ge; lia).
  rewrite Nnat.Nat2N.id.
  rewrite firstn_app, Nat.sub_diag, firstn_all, firstn_O, app_nil_r.
  rewrite skipn_app, Nat.sub_diag, skipn_all, skipn_O.
  reflexivity.
Qed.

Lemma readVarbytes_writeVarbytes (data rest : bytes) :
  N.of_nat (List.length data) <= 1048576 ->
  Parser.readVarbytes (Writer.writeVarbytes [] data ++ rest) = Ok (data, rest).
Proof.
  intros Hlen. rewrite writeVarbytes_app. cbn [app].
  unfold Parser.readVarbytes. rewrite <- app_assoc.
  rewrite readVaruint_writeVaruint by (cbn; lia).
  cbn [bind].
  replace (1048576 <? N.of_nat (List.length data)) with false
    by (symmetry; apply N.ltb_ge; lia).
  now apply readBytes_app.
Qed.

(** [parseOts] on a well-formed header: what is left is the timestamp. *)
Lemma parseOts_header (hop : HashOp) (digest rest : bytes) :
  N.of_nat (List.length digest) = HASH_OP_DIGEST_LEN hop ->
  Parser.parseOts (HEADER_MAGIC ++ x01 :: HASH_OP_TO_TAG hop :: digest ++ rest) =
  match Parser.parseTimestamp (Parser.fuelFor rest) rest 0 with
  | Ok (ts, _) => Ok (mkOtsFile hop digest ts)
  | Err e => Err e
  end.
Proof.
  intros Hlen. unfold Parser.parseOts.
  rewrite readBytes_app by reflexivity. cbn [bind].
  rewrite constantTimeEqual_refl. cbn [negb].
  change (Parser.readVaruint (x01 :: HASH_OP_TO_TAG hop :: digest ++ rest))
    with (Ok (E := Parser.ParseError) (JInt 1, HASH_OP_TO_TAG hop :: digest ++ rest)).
  cbn [bind Parser.readByte].
  replace (Parser.parseHashOp (HASH_OP_TO_TAG hop)) with (Ok (E := Parser.ParseError) hop)
    by (destruct hop; reflexivity).
  cbn [bind]. rewrite readBytes_app by (symmetry; exact Hlen).
  cbn [bind]. destruct (Parser.parseTimestamp (Parser.fuelFor rest) rest 0) as [[ts c]|e];
    reflexivity.
Qed.

(** ** A timestamp region without a branch *)

Lemma writeOperation_app (buf : Writer.ByteBuffer) (op : Operation) :
  Writer.writeOperation buf op = buf ++ Writer.writeOperation [] op.
Proof.
  destruct op; cbn [Writer.writeOperation]; unfold Writer.push;
    rewrite ?writeVarbytes_app, ?(writeVarbytes_app ([] ++ _));
    rewrite <- ?app_assoc; reflexivity.
Qed.

Lemma parseOperation_writeOperation (op : Operation) (rest : bytes) :
  Spec.opWellSized op ->
  Parser.parseOperation (Writer.writeOperation [] op ++ rest) = Ok (op, rest).
Proof.
  intros Hop. destruct op; cbn [Writer.writeOperation Spec.opWellSized] in *;
    try reflexivity.
  - rewrite writeVarbytes_app. unfold Writer.push. cbn [app].
    unfold Parser.parseOperation. cbn [Parser.readByte bind TAG_APPEND].
    rewrite <- writeVarbytes_nil.
    now rewrite readVarbytes_writeVarbytes.
  - rewrite writeVarbytes_app. unfold Writer.push. cbn [app].
    unfold Parser.parseOperation. cbn [Parser.readByte bind TAG_PREPEND].
    rewrite <- writeVarbytes_nil.
    now rewrite readVarbytes_writeVarbytes.
Qed.

Lemma writeOperation_first (op : Operation) :
  exists (tag : byte) (tl : bytes),
    Writer.writeOperation [] op = tag :: tl /\
    tag <> TAG_FORK /\ tag <> TAG_ATTESTATION.
Proof.
  destruct op; cbn [Writer.writeOperation];
    rewrite ?writeVarbytes_app; unfold Writer.push; cbn [app];
    eexists; eexists; (split; [reflexivity|split; discriminate]).
Qed.

Lemma parseTimestamp_nil (fuel depth : nat) :
  (depth <= Parser.MAX_DEPTH)%nat ->
  Parser.parseTimestamp (S fuel) [] depth = Ok (mkTimestamp [] [], []).
Proof.
  intros Hd. unfold Parser.parseTimestamp.
  replace (Nat.ltb Parser.MAX_DEPTH depth) with false
    by (symmetry; apply Nat.ltb_ge; exact Hd).
  reflexivity.
Qed.

(** A fork marker as the last byte of the input, met by the loop of
    [parseTimestamp] at any node: the branch that must follow cannot be
    read. *)
Lemma parseTimestamp_loop_fork_at_end (fuel depth : nat) (atts : list Attestation)
    (chs : list (Operation * Timestamp)) :
  Parser.parseTimestamp_loop (S fuel) [TAG_FORK] atts chs depth =
  Err Parser.UnexpectedEndOfFile.
Proof. reflexivity. Qed.

(** C3 (amended).  The parser accepts a timestamp region that has no branch.
    An input that ends right after the file digest parses to a root node with
    no attestation and no continuation, and an input that ends right after an
    operation gives that operation a child node with no branch, at the root
    and at any depth below the cap.  An unexpected end of data is raised when
    the input ends right after a fork marker [0xFF] that the parser reads as
    one: at any node, at any depth and after any branches already read; so
    at the root, below an operation, and after a forked attestation. *)
Theorem parse_accepts_branchless_timestamp :
  (forall (hop : HashOp) (digest : bytes),
      N.of_nat (List.length digest) = HASH_OP_DIGEST_LEN hop ->
      Parser.parseOts (HEADER_MAGIC ++ x01 :: HASH_OP_TO_TAG hop :: digest) =
      Ok (mkOtsFile hop digest (mkTimestamp [] []))) /\
  (forall (hop : HashOp) (digest : bytes) (op : Operation),
      N.of_nat (List.length digest) = HASH_OP_DIGEST_LEN hop ->
      Spec.opWellSized op ->
      Parser.parseOts
        (HEADER_MAGIC ++ x01 :: HASH_OP_TO_TAG hop :: digest ++ Writer.writeOperation [] op) =
      Ok (mkOtsFile hop digest (mkTimestamp [] [(op, mkTimestamp [] [])]))) /\
  (forall (fuel depth : nat) (atts : list Attestation)
          (chs : list (Operation * Timestamp)) (op : Operation),
      (depth < Parser.MAX_DEPTH)%nat ->
      Spec.opWellSized op ->
      Parser.parseTimestampBranch (S fuel) (Writer.writeOperation [] op) atts chs depth =
      Ok (atts, chs ++ [(op, mkTimestamp [] [])], [])) /\
  (forall (hop : HashOp) (digest : bytes),
      N.of_nat (List.length digest) = HASH_OP_DIGEST_LEN hop ->
      Parser.parseOts (HEADER_MAGIC ++ x01 :: HASH_OP_TO_TAG hop :: digest ++ [TAG_FORK]) =
      Err Parser.UnexpectedEndOfFile) /\
  (forall (fuel depth : nat) (atts : list Attestation)
          (chs : list (Operation * Timestamp)),
      Parser.parseTimestamp_loop (S fuel) [TAG_FORK] atts chs depth =
        Err Parser.UnexpectedEndOfFile /\
      ((depth <= Parser.MAX_DEPTH)%nat ->
       Parser.parseTimestamp (S fuel) [TAG_FORK] depth =
         Err Parser.UnexpectedEndOfFile)) /\
  (forall (hop : HashOp) (digest : bytes) (op : Operation),
      N.of_nat (List.length digest) = HASH_OP_DIGEST_LEN hop ->
      Spec.opWellSized op ->
      Parser.parseOts
        (HEADER_MAGIC ++ x01 :: HASH_OP_TO_TAG hop :: digest
           ++ Writer.writeOperation [] op ++ [TAG_FORK]) =
      Err Parser.UnexpectedEndOfFile) /\
  (forall (hop : HashOp) (digest c : bytes) (att : Attestation),
      N.of_nat (List.length digest) = HASH_OP_DIGEST_LEN hop ->
      Parser.parseAttestation c = Ok (att, [TAG_FORK]) ->
      Parser.parseOts
        (HEADER_MAGIC ++ x01 :: HASH_OP_TO_TAG hop :: digest
           ++ TAG_FORK :: TAG_ATTESTATION :: c) =
      Err Parser.UnexpectedEndOfFile).
Proof.
  assert (Hbranch :
    forall (fuel depth : nat) atts chs (op : Operation),
      (depth < Parser.MAX_DEPTH)%nat ->
      Spec.opWellSized op ->
      Parser.parseTimestampBranch (S fuel) (Writer.writeOperation [] op) atts chs depth =
      Ok (atts, chs ++ [(op, mkTimestamp [] [])], [])).
  { intros fuel depth atts chs op Hd Hop.
    unfold Parser.parseTimestampBranch, Parser.parseTimestampBranch_with.
    destruct (writeOperation_first op) as (tag & tl & E & Hfork & Hatt).
    pose proof (parseOperation_writeOperation op [] Hop) as Hparse.
    rewrite app_nil_r in Hparse. rewrite Hparse. rewrite E.
    cbn [Parser.peek bind].
    replace (Byte.eqb tag TAG_ATTESTATION) with false.
    2:{ symmetry. destruct (Byte.eqb tag TAG_ATTESTATION) eqn:Et; [|reflexivity].
        apply Byte.byte_dec_bl in Et. contradiction. }
    rewrite parseTimestamp_nil by lia. reflexivity. }
  split; [|split; [|split; [|split; [|split; [|split]]]]].
  - intros hop digest Hlen.
    rewrite <- (app_nil_r digest) at 1. rewrite parseOts_header by exact Hlen.
    reflexivity.
  - intros hop digest op Hlen Hop.
    rewrite parseOts_header by exact Hlen.
    destruct (writeOperation_first op) as (tag & tl & E & Hfork & Hatt).
    unfold Parser.parseTimestamp, Parser.fuelFor.
    cbn [Nat.ltb Nat.leb Parser.MAX_DEPTH]. rewrite E.
    cbn [List.length Parser.parseTimestamp_loop].
    change (0 <? Parser.remaining (tag :: tl)) with true.
    cbn [Parser.peek andb].
    replace (Byte.eqb tag TAG_FORK) with false.
    2:{ symmetry. destruct (Byte.eqb tag TAG_FORK) eqn:Et; [|reflexivity].
        apply Byte.byte_dec_bl in Et. contradiction. }
    rewrite <- E.
    change (Parser.parseTimestampBranch_with _ (Writer.writeOperation [] op) [] [] 0%nat)
      with (Parser.parseTimestampBranch (S (List.length tl))
              (Writer.writeOperation [] op) [] [] 0).
    rewrite Hbranch by (assumption || (unfold Parser.MAX_DEPTH; lia)).
    reflexivity.
  - exact Hbranch.
  - intros hop digest Hlen.
    rewrite parseOts_header by exact Hlen. reflexivity.
  - intros fuel depth atts chs. split; [apply parseTimestamp_loop_fork_at_end|].
    intros Hd. unfold Parser.parseTimestamp.
    replace (Nat.ltb Parser.MAX_DEPTH depth) with false
      by (symmetry; apply Nat.ltb_ge; exact Hd).
    apply parseTimestamp_loop_fork_at_end.
  - intros hop digest op Hlen Hop.
    rewrite parseOts_header by exact Hlen.
    destruct (writeOperation_first op) as (tag & tl & E & Hfork & Hatt).
    pose proof (parseOperation_writeOperation op [TAG_FORK] Hop) as Hparse.
    unfold Parser.parseTimestamp, Parser.fuelFor.
    cbn [Nat.ltb Nat.leb Parser.MAX_DEPTH].
    set (c := Writer.writeOperation [] op ++ [TAG_FORK]) in *.
    assert (Hc : c = tag :: tl ++ [TAG_FORK]) by (unfold c; now rewrite E).
    assert (Hrem : (0 <? Parser.remaining c) = true) by (rewrite Hc; reflexivity).
    assert (Hpeek : Parser.peek c = Ok tag) by (rewrite Hc; reflexivity).
    assert (Hlenc : List.length c = S (List.length (tl ++ [TAG_FORK])))
      by (rewrite Hc; reflexivity).
    rewrite Hlenc. cbn [Parser.parseTimestamp_loop].
    rewrite Hrem, Hpeek. cbn [andb].
    replace (Byte.eqb tag TAG_FORK) with false.
    2:{ symmetry. destruct (Byte.eqb tag TAG_FORK) eqn:Et; [|reflexivity].
        apply Byte.byte_dec_bl in Et. contradiction. }
    unfold Parser.parseTimestampBranch_with. rewrite Hpeek. cbn [bind].
    replace (Byte.eqb tag TAG_ATTESTATION) with false.
    2:{ symmetry. destruct (Byte.eqb tag TAG_ATTESTATION) eqn:Et; [|reflexivity].
        apply Byte.byte_dec_bl in Et. contradiction. }
    rewrite Hparse. cbn [bind Nat.ltb Nat.leb Parser.MAX_DEPTH].
    rewrite length_app. cbn [List.length]. rewrite Nat.add_1_r.
    reflexivity.
  - intros hop digest c att Hlen Hatt.
    rewrite parseOts_header by exact Hlen.
    unfold Parser.parseTimestamp, Parser.fuelFor.
    cbn [Nat.ltb Nat.leb Parser.MAX_DEPTH List.length Parser.parseTimestamp_loop].
    change (0 <? Parser.remaining (TAG_FORK :: TAG_ATTESTATION :: c)) with true.
    cbn [Parser.peek andb Parser.readByte bind].
    change (Byte.eqb TAG_FORK TAG_FORK) with true. cbn match.
    unfold Parser.parseTimestampBranch_with.
    cbn [Parser.peek Parser.readByte bind].
    change (Byte.eqb TAG_ATTESTATION TAG_ATTESTATION) with true. cbn match.
    rewrite Hatt. reflexivity.
Qed.

(** C3, witness: the SHA-256 header with a 32-byte digest, alone, followed by
    a [sha256] operation, followed by a fork marker, followed by a [sha256]
    operation and a fork marker, and followed by a forked Bitcoin attestation
    and a fork marker. *)
Lemma parse_accepts_branchless_timestamp_witness :
  let digest := repeat xaa 32 in
  Parser.parseOts (HEADER_MAGIC ++ x01 :: x08 :: digest) =
    Ok (mkOtsFile sha256 digest (mkTimestamp [] [])) /\
  Parser.parseOts (HEADER_MAGIC ++ x01 :: x08 :: digest ++ [x08]) =
    Ok (mkOtsFile sha256 digest (mkTimestamp [] [(OpSha256, mkTimestamp [] [])])) /\
  Parser.parseTimestampBranch 1 [x08] [] [] 0 =
    Ok ([], [(OpSha256, mkTimestamp [] [])], []) /\
  Parser.parseOts (HEADER_MAGIC ++ x01 :: x08 :: digest ++ [xff]) =
    Err Parser.UnexpectedEndOfFile /\
  Parser.parseTimestamp 1 [xff] 3 = Err Parser.UnexpectedEndOfFile /\
  Parser.parseOts
    (HEADER_MAGIC ++ x01 :: x08 :: digest ++ Writer.writeOperation [] OpSha256 ++ [xff]) =
    Err Parser.UnexpectedEndOfFile /\
  Parser.parseOts
    (HEADER_MAGIC ++ x01 :: x08 :: digest
       ++ xff :: x00 :: ATT_TAG_BITCOIN ++ [x03; xf7; xef; x15; xff]) =
    Err Parser.UnexpectedEndOfFile.
Proof.
  cbv zeta. split; [|split; [|split; [|split; [|split; [|split]]]]].
  - apply (proj1 parse_accepts_branchless_timestamp sha256 (repeat xaa 32)).
    reflexivity.
  - apply (proj1 (proj2 parse_accepts_branchless_timestamp) sha256 (repeat xaa 32) OpSha256).
    + reflexivity.
    + exact I.
  - apply (proj1 (proj2 (proj2 parse_accepts_branchless_timestamp)) 0%nat 0%nat [] [] OpSha256).
    + unfold Parser.MAX_DEPTH. lia.
    + exact I.
  - apply (proj1 (proj2 (proj2 (proj2 parse_accepts_branchless_timestamp)))
             sha256 (repeat xaa 32)).
    reflexivity.
  - apply (proj2 (proj1 (proj2 (proj2 (proj2 (proj2 parse_accepts_branchless_timestamp))))
                    0%nat 3%nat [] [])).
    unfold Parser.MAX_DEPTH. lia.
  - apply (proj1 (proj2 (proj2 (proj2 (proj2 (proj2 parse_accepts_branchless_timestamp)))))
             sha256 (repeat xaa 32) OpSha256).
    + reflexivity.
    + exact I.
  - apply (proj2 (proj2 (proj2 (proj2 (proj2 (proj2 parse_accepts_branchless_timestamp)))))
             sha256 (repeat xaa 32) (ATT_TAG_BITCOIN ++ [x03; xf7; xef; x15; xff])
             (Bitcoin 358391)).
    + reflexivity.
    + reflexivity.
Defined.

(** C3, counterexample: an input that ends right after the file digest, and
    one that ends right after an operation tag, are parsed without error. *)
Lemma parse_branchless_not_rejected :
  let digest := repeat xaa 32 in
  Parser.parseOts (HEADER_MAGIC ++ x01 :: x08 :: digest) =
    Ok (mkOtsFile sha256 digest (mkTimestamp [] [])) /\
  Parser.parseOts (HEADER_MAGIC ++ x01 :: x08 :: digest ++ [x08]) =
    Ok (mkOtsFile sha256 digest (mkTimestamp [] [(OpSha256, mkTimestamp [] [])])).
Proof. cbv zeta. split; vm_compute; reflexivity. Qed.

(** ** What [readVaruint] returns *)

Lemma readVaruint_loop_NaN (c : bytes) :
  forall (shift : N) (x : JsNum) (c' : bytes),
    Parser.readVaruint_loop c JNaN shift = Ok (x, c') -> x = JNaN.
Proof.
  induction c as [|b c IH]; intros shift x c' E; cbn in E; [discriminate|].
  destruct (_ && _) in E; [discriminate|].
  destruct (_ && _) in E; [discriminate|].
  destruct (_ =? 0) in E.
  - now injection E as <- _.
  - now apply IH in E.
Qed.

(** Bytes after the end of a varuint do not change its value. *)
Lemma readVaruint_loop_app (c : bytes) :
  forall (value : JsNum) (shift : N) (x : JsNum) (c' extra : bytes),
    Parser.readVaruint_loop c value shift = Ok (x, c') ->
    Parser.readVaruint_loop (c ++ extra) value shift = Ok (x, c' ++ extra).
Proof.
  induction c as [|b c IH]; intros value shift x c' extra E; [discriminate|].
  cbn [app Parser.readVaruint_loop] in *.
  destruct (_ && _); [discriminate|].
  destruct (_ && _); [discriminate|].
  destruct (_ =? 0).
  - now injection E as <- <-.
  - now apply IH.
Qed.

(** The value is the little-endian base-128 number of the payloads, and it
    takes a byte for every seven bits. *)
Lemma readVaruint_loop_value (c : bytes) :
  forall (acc shift r : N),
    Parser.readVaruint_loop c (JInt acc) shift = Ok (JInt r, []) ->
    r = acc + Spec.payloadValue c * 2 ^ shift.
Proof.
  induction c as [|b c IH]; intros acc shift r E; [discriminate|].
  cbn [Parser.readVaruint_loop Spec.payloadValue] in *. fold (Spec.payload b) in E.
  destruct (_ && _) in E; [discriminate|].
  destruct (_ && _) in E; [discriminate|].
  cbn [Parser.addPayload] in E.
  destruct (1024 <=? shift).
  - destruct (_ =? 0) in E; [discriminate|].
    apply readVaruint_loop_NaN in E. discriminate.
  - destruct (_ =? 0) in E.
    + injection E as <- ->. cbn [Spec.payloadValue]. lia.
    + apply IH in E. rewrite E, N.pow_add_r. change (2 ^ 7) with 128. lia.
Qed.

Lemma payloadValue_bound (c : bytes) :
  Spec.payloadValue c < 128 ^ N.of_nat (List.length c).
Proof.
  induction c as [|b c IH]; [reflexivity|].
  cbn [Spec.payloadValue List.length].
  rewrite Nnat.Nat2N.inj_succ, N.pow_succ_r'.
  pose proof (payload_of_byte b). unfold Spec.payload. lia.
Qed.

(** The guards keep every decoded value below [2 ^ 53]. *)

Lemma readVaruint_loop_safe (c : bytes) :
  forall (i acc r : N) (c' : bytes),
    acc < Spec.varuintBound i ->
    Parser.readVaruint_loop c (JInt acc) (7 * i) = Ok (JInt r, c') ->
    r < 2 ^ 53.
Proof.
  induction c as [|b c IH]; intros i acc r c' Hacc E; [discriminate|].
  cbn [Parser.readVaruint_loop] in E.
  pose proof (payload_of_byte b) as Hp.
  set (p := N.land (Byte.to_N b) 127) in *. clearbody p.
  assert (Hnext : (56 <=? 7 * i) && (0 <? p) = false ->
                  (49 <=? 7 * i) && (15 <? p) = false ->
                  acc + p * 2 ^ (7 * i) < Spec.varuintBound (i + 1)).
  { intros G1 G2. unfold Spec.varuintBound in *.
    destruct (N.le_gt_cases i 6) as [Hi|Hi].
    - replace (i <=? 7) with true in Hacc by (symmetry; apply N.leb_le; lia).
      replace (i + 1 <=? 7) with true by (symmetry; apply N.leb_le; lia).
      replace (7 * (i + 1)) with (7 * i + 7) by lia.
      rewrite N.pow_add_r. change (2 ^ 7) with 128. nia.
    - replace (i + 1 <=? 7) with false by (symmetry; apply N.leb_gt; lia).
      destruct (N.eq_dec i 7) as [->|Hne].
      + change (7 * 7) with 49 in *. cbn [N.leb N.compare] in G2, Hacc.
        change (49 <=? 49) with true in G2. cbn [andb] in G2.
        apply N.ltb_ge in G2.
        change ((if 7 <=? 7 then 2 ^ 49 else 2 ^ 53)) with (2 ^ 49) in Hacc.
        change (2 ^ 53) with (16 * 2 ^ 49).
        assert (0 < 2 ^ 49) by reflexivity. nia.
      + replace (i <=? 7) with false in Hacc by (symmetry; apply N.leb_gt; lia).
        replace (56 <=? 7 * i) with true in G1 by (symmetry; apply N.leb_le; lia).
        cbn [andb] in G1. apply N.ltb_ge in G1.
        assert (p = 0) by lia. subst p. lia. }
  destruct ((56 <=? 7 * i) && (0 <? p)) eqn:G1; [discriminate|].
  destruct ((49 <=? 7 * i) && (15 <? p)) eqn:G2; [discriminate|].
  specialize (Hnext eq_refl eq_refl).
  cbn [Parser.addPayload] in E.
  destruct (1024 <=? 7 * i).
  - destruct (_ =? 0) in E; [discriminate|].
    apply readVaruint_loop_NaN in E. discriminate.
  - destruct (_ =? 0) in E.
    + injection E as <- _.
      unfold Spec.varuintBound in Hnext. destruct (i + 1 <=? 7) eqn:Ei; [|exact Hnext].
      apply N.leb_le in Ei.
      eapply N.lt_le_trans; [exact Hnext|].
      apply N.pow_le_mono_r; [discriminate|lia].
    + replace (7 * i + 7) with (7 * (i + 1)) in E by lia.
      eapply IH; eassumption.
Qed.

Lemma readVaruint_safe (c c' : bytes) (h : N) :
  Parser.readVaruint c = Ok (JInt h, c') -> h < 2 ^ 53.
Proof.
  intros E. apply (readVaruint_loop_safe c 0 0 h c'); [reflexivity|exact E].
Qed.

(** [writeVaruint] uses the fewest bytes. *)
Lemma writeVaruint_loop_length (fuel : nat) :
  forall (v : N) (n : nat),
    (1 <= n)%nat ->
    v < 128 ^ N.of_nat n ->
    (List.length (Writer.writeVaruint_loop fuel [] v) <= n)%nat.
Proof.
  induction fuel as [|fuel IH]; intros v n Hn Hv; cbn [Writer.writeVaruint_loop].
  - cbn. lia.
  - assert (Hdm : v = 128 * (v / 128) + v mod 128) by (apply N.div_mod; discriminate).
    assert (Hp : v mod 128 < 128) by (apply N.mod_upper_bound; discriminate).
    set (q := v / 128) in *. set (r := v mod 128) in *. clearbody q r.
    destruct (q =? 0) eqn:Eq.
    + cbn. lia.
    + apply N.eqb_neq in Eq. rewrite writeVaruint_loop_app, length_app.
      unfold Writer.push. cbn [List.length app].
      destruct n as [|[|n]]; [lia| |].
      * cbn in Hv. lia.
      * specialize (IH q (S n) ltac:(lia)).
        rewrite (Nnat.Nat2N.inj_succ (S n)), N.pow_succ_r' in Hv.
        assert (q < 128 ^ N.of_nat (S n)) by lia.
        specialize (IH H). lia.
Qed.

(** ** Height attestations with trailing payload bytes *)

Lemma varuintFromSlice_prefix (v extra : bytes) (h : N) :
  Parser.readVaruint v = Ok (JInt h, []) ->
  Parser.varuintFromSlice (v ++ extra) = Ok h.
Proof.
  intros E. unfold Parser.varuintFromSlice, Parser.readVaruint in *.
  now rewrite (readVaruint_loop_app _ _ _ _ _ extra E).
Qed.

Lemma parseAttestation_tagged (tag c : bytes) :
  List.length tag = 8%nat ->
  Parser.parseAttestation (tag ++ c) =
  match Parser.readVarbytes c with
  | Err e => Err e
  | Ok (payload, c') =>
      if Hex.constantTimeEqual tag ATT_TAG_BITCOIN then
        match Parser.varuintFromSlice payload with
        | Ok h => Ok (Bitcoin h, c') | Err e => Err e end
      else if Hex.constantTimeEqual tag ATT_TAG_LITECOIN then
        match Parser.varuintFromSlice payload with
        | Ok h => Ok (Litecoin h, c') | Err e => Err e end
      else if Hex.constantTimeEqual tag ATT_TAG_ETHEREUM then
        match Parser.varuintFromSlice payload with
        | Ok h => Ok (Ethereum h, c') | Err e => Err e end
      else if Hex.constantTimeEqual tag ATT_TAG_PENDING then
        match Parser.readVarbytes payload with
        | Ok (uriBytes, _) => Ok (Pending (Parser.TextDecoder_decode uriBytes), c')
        | Err e => Err e
        end
      else Ok (Unknown tag payload, c')
  end.
Proof.
  intros Hlen. unfold Parser.parseAttestation.
  rewrite readBytes_app by (rewrite Hlen; reflexivity). cbn [bind].
  destruct (Parser.readVarbytes c) as [[payload c']|e]; [|reflexivity]. cbn [bind].
  repeat match goal with
         | |- (if ?b then _ else _) = (if ?b then _ else _) => destruct b
         end;
    try reflexivity;
    try (destruct (Parser.varuintFromSlice payload); reflexivity).
Qed.

(** C10.  A Bitcoin, Litecoin or Ethereum attestation whose varbytes payload is
    a valid varuint [v] followed by any bytes [extra] is accepted with the
    height decoded from [v]; [extra] is dropped.  Writing the attestation
    back emits the payload [writeVaruint height] alone, which is no longer
    than [v] and decodes to the same height. *)
Theorem parseAttestation_height_ignores_trailing_bytes :
  forall (c v extra rest : bytes) (h : N),
    Parser.readVarbytes c = Ok (v ++ extra, rest) ->
    Parser.readVaruint v = Ok (JInt h, []) ->
    (Parser.parseAttestation (ATT_TAG_BITCOIN ++ c) = Ok (Bitcoin h, rest) /\
     Parser.parseAttestation (ATT_TAG_LITECOIN ++ c) = Ok (Litecoin h, rest) /\
     Parser.parseAttestation (ATT_TAG_ETHEREUM ++ c) = Ok (Ethereum h, rest)) /\
    (Writer.writeAttestation [] (Bitcoin h) =
       TAG_ATTESTATION :: ATT_TAG_BITCOIN ++ Writer.writeVarbytes [] (Writer.writeVaruint [] h) /\
     Writer.writeAttestation [] (Litecoin h) =
       TAG_ATTESTATION :: ATT_TAG_LITECOIN ++ Writer.writeVarbytes [] (Writer.writeVaruint [] h) /\
     Writer.writeAttestation [] (Ethereum h) =
       TAG_ATTESTATION :: ATT_TAG_ETHEREUM ++ Writer.writeVarbytes [] (Writer.writeVaruint [] h)) /\
    (List.length (Writer.writeVaruint [] h) <= List.length v)%nat /\
    Parser.readVaruint (Writer.writeVaruint [] h) = Ok (JInt h, []).
Proof.
  intros c v extra rest h Hc Hv.
  pose proof (varuintFromSlice_prefix v extra h Hv) as Hslice.
  split; [|split; [|split]].
  - repeat split; rewrite parseAttestation_tagged by reflexivity;
      rewrite Hc; cbn [Hex.constantTimeEqual]; cbn; rewrite Hslice; reflexivity.
  - repeat split; cbn [Writer.writeAttestation]; unfold Writer.push, Writer.toUint8Array;
      rewrite extend_app, writeVarbytes_app, <- writeVarbytes_nil; reflexivity.
  - unfold Writer.writeVaruint. apply writeVaruint_loop_length.
    + destruct v; [discriminate Hv|cbn; lia].
    + unfold Parser.readVaruint in Hv. apply readVaruint_loop_value in Hv.
      rewrite Hv. cbn. rewrite N.mul_1_r. apply payloadValue_bound.
  - rewrite <- (app_nil_r (Writer.writeVaruint [] h)).
    apply readVaruint_writeVaruint. eapply readVaruint_safe. exact Hv.
Qed.

(** C10, witness: height 358391 ([f7 ef 15]) followed by two stray bytes. *)
Lemma parseAttestation_height_ignores_trailing_bytes_witness :
  Parser.parseAttestation
    (ATT_TAG_BITCOIN ++ [x05; xf7; xef; x15; xde; xad]) = Ok (Bitcoin 358391, []) /\
  Writer.writeAttestation [] (Bitcoin 358391) =
    TAG_ATTESTATION :: ATT_TAG_BITCOIN ++ [x03; xf7; xef; x15].
Proof.
  pose proof (parseAttestation_height_ignores_trailing_bytes
                [x05; xf7; xef; x15; xde; xad] [xf7; xef; x15] [xde; xad] [] 358391
                eq_refl eq_refl) as [[Hb _] [[Hw _] _]].
  split; [exact Hb|exact Hw].
Defined.

(** ** The recursion budget of the parser is never exhausted *)

Lemma readVaruint_loop_shrinks (c : bytes) :
  forall (value : JsNum) (shift : N) (x : JsNum) (c' : bytes),
    Parser.readVaruint_loop c value shift = Ok (x, c') ->
    (List.length c' < List.length c)%nat.
Proof.
  induction c as [|b c IH]; intros value shift x c' E; [discriminate|].
  cbn [Parser.readVaruint_loop] in E.
  destruct (_ && _) in E; [discriminate|].
  destruct (_ && _) in E; [discriminate|].
  destruct (_ =? 0) in E.
  - injection E as _ <-. cbn. lia.
  - apply IH in E. cbn. lia.
Qed.

Lemma readBytes_shrinks (c : bytes) (n : N) (b c' : bytes) :
  Parser.readBytes c n = Ok (b, c') ->
  List.length c' = (List.length c - N.to_nat n)%nat /\ (N.to_nat n <= List.length c)%nat.
Proof.
  unfold Parser.readBytes, Parser.remaining. intros E.
  destruct (N.of_nat (List.length c) <? n) eqn:En; [discriminate|].
  apply N.ltb_ge in En. injection E as _ <-. rewrite length_skipn. lia.
Qed.

Lemma readVarbytes_shrinks (c b c' : bytes) :
  Parser.readVarbytes c = Ok (b, c') -> (List.length c' < List.length c)%nat.
Proof.
  unfold Parser.readVarbytes, Parser.readVaruint. intros E.
  destruct (Parser.readVaruint_loop c (JInt 0) 0) as [[len c1]|e] eqn:Ev; [|discriminate].
  apply readVaruint_loop_shrinks in Ev. cbn [bind] in E.
  destruct len as [len|]; [|discriminate].
  destruct (1048576 <? len); [discriminate|].
  apply readBytes_shrinks in E. lia.
Qed.

Lemma parseOperation_shrinks (c : bytes) (op : Operation) (c' : bytes) :
  Parser.parseOperation c = Ok (op, c') -> (List.length c' < List.length c)%nat.
Proof.
  unfold Parser.parseOperation. destruct c as [|tag c]; [discriminate|].
  cbn [Parser.readByte bind]. intros E.
  destruct tag; try discriminate E;
    try (injection E as _ <-; cbn; lia);
    (destruct (Parser.readVarbytes c) as [[data c1]|e] eqn:Ev; [|discriminate E];
     apply readVarbytes_shrinks in Ev; cbn [bind] in E; injection E as _ <-; cbn; lia).
Qed.

Lemma parseAttestation_shrinks (c : bytes) (att : Attestation) (c' : bytes) :
  Parser.parseAttestation c = Ok (att, c') -> (List.length c' < List.length c)%nat.
Proof.
  unfold Parser.parseAttestation. intros E.
  destruct (Parser.readBytes c 8) as [[tag c1]|e] eqn:Et; [|discriminate E].
  apply readBytes_shrinks in Et. cbn [bind] in E.
  destruct (Parser.readVarbytes c1) as [[payload c2]|e] eqn:Ep; [|discriminate E].
  apply readVarbytes_shrinks in Ep. cbn [bind] in E.
  assert (Hc : c' = c2).
  { repeat match type of E with
           | (if ?b then _ else _) = _ => destruct b
           end;
      try (destruct (Parser.varuintFromSlice payload); cbn [bind] in E;
           [injection E as _ <-; reflexivity|discriminate E]).
    - destruct (Parser.readVarbytes payload) as [[u ?]|?]; cbn [bind] in E;
        [injection E as _ <-; reflexivity|discriminate E].
    - injection E as _ <-; reflexivity. }
  subst. lia.
Qed.

Lemma Err_not_OutOfFuel {A B : Type} (e : Parser.ParseError) :
  @Err Parser.ParseError A e <> Err Parser.OutOfFuel ->
  @Err Parser.ParseError B e <> Err Parser.OutOfFuel.
Proof. intros Hne E. apply Hne. now injection E as ->. Qed.

Lemma bind_not_OutOfFuel {A B : Type} (r : Parser.presult A)
    (k : A -> Parser.presult B) :
  r <> Err Parser.OutOfFuel ->
  (forall a, r = Ok a -> k a <> Err Parser.OutOfFuel) ->
  bind r k <> Err Parser.OutOfFuel.
Proof.
  intros Hr Hk. destruct r as [a|e]; cbn [bind]; [now apply Hk|].
  intros E. apply Hr. now injection E as ->.
Qed.

Lemma readVaruint_not_OutOfFuel (c : bytes) :
  Parser.readVaruint c <> Err Parser.OutOfFuel.
Proof.
  unfold Parser.readVaruint.
  assert (Hloop : forall (v : JsNum) (s : N),
            Parser.readVaruint_loop c v s <> Err Parser.OutOfFuel); [|apply Hloop].
  induction c as [|b c IH]; intros v s; cbn [Parser.readVaruint_loop]; [discriminate|].
  destruct (_ && _); [discriminate|]. destruct (_ && _); [discriminate|].
  destruct (_ =? 0); [discriminate|apply IH].
Qed.

Lemma readBytes_not_OutOfFuel (c : bytes) (n : N) :
  Parser.readBytes c n <> Err Parser.OutOfFuel.
Proof. unfold Parser.readBytes. destruct (_ <? _); discriminate. Qed.

Lemma readVarbytes_not_OutOfFuel (c : bytes) :
  Parser.readVarbytes c <> Err Parser.OutOfFuel.
Proof.
  unfold Parser.readVarbytes. apply bind_not_OutOfFuel.
  - apply readVaruint_not_OutOfFuel.
  - intros [[len|] c1] _; [|discriminate].
    destruct (1048576 <? len); [discriminate|apply readBytes_not_OutOfFuel].
Qed.

Lemma parseOperation_not_OutOfFuel (c : bytes) :
  Parser.parseOperation c <> Err Parser.OutOfFuel.
Proof.
  unfold Parser.parseOperation. destruct c as [|tag c]; [discriminate|].
  cbn [Parser.readByte bind].
  destruct tag; try discriminate;
    (apply bind_not_OutOfFuel; [apply readVarbytes_not_OutOfFuel|intros [? ?] _; discriminate]).
Qed.

Lemma varuintFromSlice_not_OutOfFuel (data : bytes) :
  Parser.varuintFromSlice data <> Err Parser.OutOfFuel.
Proof.
  unfold Parser.varuintFromSlice. apply bind_not_OutOfFuel.
  - apply readVaruint_not_OutOfFuel.
  - intros [[n|] ?] _; discriminate.
Qed.

Lemma parseAttestation_not_OutOfFuel (c : bytes) :
  Parser.parseAttestation c <> Err Parser.OutOfFuel.
Proof.
  unfold Parser.parseAttestation.
  apply bind_not_OutOfFuel; [apply readBytes_not_OutOfFuel|].
  intros [tag c1] _.
  apply bind_not_OutOfFuel; [apply readVarbytes_not_OutOfFuel|].
  intros [payload c2] _.
  repeat match goal with
         | |- (if ?b then _ else _) <> _ => destruct b
         end;
    try (apply bind_not_OutOfFuel;
         [apply varuintFromSlice_not_OutOfFuel|intros ? _; discriminate]);
    try discriminate.
  apply bind_not_OutOfFuel; [apply readVarbytes_not_OutOfFuel|intros [? ?] _; discriminate].
Qed.

(** With a budget above the length of the cursor the fork loop never stops
    for lack of budget, and what it leaves is no longer than what it got. *)
Lemma parseTimestamp_loop_fuel (fuel : nat) :
  forall (c : bytes) (atts : list Attestation) (chs : list (Operation * Timestamp))
         (depth : nat),
    (List.length c < fuel)%nat ->
    Parser.parseTimestamp_loop fuel c atts chs depth <> Err Parser.OutOfFuel /\
    (forall ts c', Parser.parseTimestamp_loop fuel c atts chs depth = Ok (ts, c') ->
                   (List.length c' <= List.length c)%nat).
Proof.
  induction fuel as [|fuel IH]; intros c atts chs depth Hfuel; [lia|].
  (* one branch, read with the budget that is left *)
  assert (Hbranch : forall (c1 : bytes) atts1 chs1,
            (List.length c1 <= fuel)%nat ->
            Parser.parseTimestampBranch fuel c1 atts1 chs1 depth <> Err Parser.OutOfFuel /\
            (forall atts2 chs2 c2,
                Parser.parseTimestampBranch fuel c1 atts1 chs1 depth = Ok (atts2, chs2, c2) ->
                (List.length c2 < List.length c1)%nat)).
  { intros c1 atts1 chs1 Hc1.
    unfold Parser.parseTimestampBranch, Parser.parseTimestampBranch_with.
    destruct c1 as [|tag c1]; [split; [discriminate|intros ? ? ? E; discriminate E]|].
    cbn [Parser.peek bind]. destruct (Byte.eqb tag TAG_ATTESTATION).
    - cbn [Parser.readByte bind].
      pose proof (parseAttestation_not_OutOfFuel c1) as Hno.
      destruct (Parser.parseAttestation c1) as [[att c2]|e] eqn:Ea; cbn [bind].
      + apply parseAttestation_shrinks in Ea. split; [discriminate|].
        intros ? ? ? E. injection E as _ _ <-. cbn. lia.
      + split; [exact (Err_not_OutOfFuel e Hno)|intros ? ? ? E; discriminate E].
    - pose proof (parseOperation_not_OutOfFuel (tag :: c1)) as Hno.
      destruct (Parser.parseOperation (tag :: c1)) as [[op c2]|e] eqn:Eo; cbn [bind].
      2:{ split; [exact (Err_not_OutOfFuel e Hno)|intros ? ? ? E; discriminate E]. }
      apply parseOperation_shrinks in Eo. cbn [List.length] in *.
      unfold Parser.parseTimestamp.
      destruct (Nat.ltb Parser.MAX_DEPTH (S depth)); cbn [bind].
      { split; [discriminate|intros ? ? ? E; discriminate E]. }
      destruct (IH c2 [] [] (S depth) ltac:(lia)) as [Hno2 Hlen2].
      destruct (Parser.parseTimestamp_loop fuel c2 [] [] (S depth)) as [[child c3]|e] eqn:Ec;
        cbn [bind].
      + specialize (Hlen2 child c3 eq_refl). split; [discriminate|].
        intros ? ? ? E. injection E as _ _ <-. lia.
      + split; [exact (Err_not_OutOfFuel e Hno2)|intros ? ? ? E; discriminate E]. }
  cbn [Parser.parseTimestamp_loop].
  change (Parser.parseTimestampBranch_with _)
    with (Parser.parseTimestampBranch fuel).
  destruct c as [|b c].
  - cbn. split; [discriminate|]. intros ts c' E. injection E as _ <-. cbn. lia.
  - change (0 <? Parser.remaining (b :: c)) with true. cbn [Parser.peek andb].
    cbn [List.length] in Hfuel.
    destruct (Byte.eqb b TAG_FORK).
    + cbn [Parser.readByte bind].
      destruct (Hbranch c atts chs ltac:(lia)) as [Hno Hlen].
      destruct (Parser.parseTimestampBranch fuel c atts chs depth)
        as [[[atts2 chs2] c2]|e] eqn:Eb; cbn [bind].
      * specialize (Hlen _ _ _ eq_refl).
        destruct (IH c2 atts2 chs2 depth ltac:(lia)) as [Hno2 Hlen2].
        split; [exact Hno2|].
        intros ts c' E. specialize (Hlen2 ts c' E). cbn [List.length]. lia.
      * split; [exact (Err_not_OutOfFuel e Hno)|intros ? ? E; discriminate E].
    + destruct (Hbranch (b :: c) atts chs ltac:(cbn [List.length]; lia)) as [Hno Hlen].
      destruct (Parser.parseTimestampBranch fuel (b :: c) atts chs depth)
        as [[[atts2 chs2] c2]|e] eqn:Eb; cbn [bind].
      * specialize (Hlen _ _ _ eq_refl). split; [discriminate|].
        intros ts c' E. injection E as _ <-. lia.
      * split; [exact (Err_not_OutOfFuel e Hno)|intros ? ? E; discriminate E].
Qed.

(** [parseOts] and [parseTimestampFromBytes] never report [OutOfFuel]: the
    budget they give is enough for every input. *)
Lemma parseTimestamp_fuel_enough (c : bytes) (depth : nat) :
  Parser.parseTimestamp (Parser.fuelFor c) c depth <> Err Parser.OutOfFuel.
Proof.
  unfold Parser.parseTimestamp. destruct (Nat.ltb Parser.MAX_DEPTH depth); [discriminate|].
  apply parseTimestamp_loop_fuel. unfold Parser.fuelFor. lia.
Qed.

Lemma parseOts_not_OutOfFuel (data : bytes) :
  Parser.parseOts data <> Err Parser.OutOfFuel.
Proof.
  unfold Parser.parseOts.
  apply bind_not_OutOfFuel; [apply readBytes_not_OutOfFuel|].
  intros [header c1] _. destruct (negb _); [discriminate|].
  apply bind_not_OutOfFuel; [apply readVaruint_not_OutOfFuel|].
  intros [version c2] _. destruct version as [[|[| |]]|]; try discriminate.
  apply bind_not_OutOfFuel; [destruct c2; discriminate|].
  intros [tag c3] _.
  apply bind_not_OutOfFuel; [unfold Parser.parseHashOp; destruct (TAG_TO_HASH_OP tag); discriminate|].
  intros hop _.
  apply bind_not_OutOfFuel; [apply readBytes_not_OutOfFuel|].
  intros [digest c4] _.
  apply bind_not_OutOfFuel; [apply parseTimestamp_fuel_enough|].
  intros [ts ?] _. discriminate.
Qed.

(** ** A parsed tree is within the depth cap of the walkers *)

Lemma treeDepth_snoc (atts atts' : list Attestation) (chs : list (Operation * Timestamp))
    (op : Operation) (child : Timestamp) :
  Spec.treeDepth (mkTimestamp atts' (chs ++ [(op, child)])) =
  Nat.max (Spec.treeDepth (mkTimestamp atts chs)) (S (Spec.treeDepth child)).
Proof.
  cbn [Spec.treeDepth]. induction chs as [|oc chs IH]; cbn [app fold_right snd].
  - lia.
  - rewrite IH. lia.
Qed.

Lemma parseTimestamp_loop_depth (fuel : nat) :
  forall (c : bytes) (atts : list Attestation) (chs : list (Operation * Timestamp))
         (depth : nat) (ts : Timestamp) (c' : bytes),
    (depth + Spec.treeDepth (mkTimestamp atts chs) <= Parser.MAX_DEPTH)%nat ->
    Parser.parseTimestamp_loop fuel c atts chs depth = Ok (ts, c') ->
    (depth + Spec.treeDepth ts <= Parser.MAX_DEPTH)%nat.
Proof.
  induction fuel as [|fuel IH]; intros c atts chs depth ts c' Hacc E; [discriminate E|].
  assert (Hbranch : forall c1 atts2 chs2 c2,
            Parser.parseTimestampBranch fuel c1 atts chs depth = Ok (atts2, chs2, c2) ->
            (depth + Spec.treeDepth (mkTimestamp atts2 chs2) <= Parser.MAX_DEPTH)%nat).
  { intros c1 atts2 chs2 c2.
    unfold Parser.parseTimestampBranch, Parser.parseTimestampBranch_with.
    destruct (Parser.peek c1) as [tag|e]; cbn [bind]; [|discriminate].
    destruct (Byte.eqb tag TAG_ATTESTATION).
    - destruct (Parser.readByte c1) as [[? c3]|e]; cbn [bind]; [|discriminate].
      destruct (Parser.parseAttestation c3) as [[att c4]|e]; cbn [bind]; [|discriminate].
      intros Eb. injection Eb as <- <- _. exact Hacc.
    - destruct (Parser.parseOperation c1) as [[op c3]|e]; cbn [bind]; [|discriminate].
      unfold Parser.parseTimestamp.
      destruct (Nat.ltb Parser.MAX_DEPTH (S depth)) eqn:Ed; cbn [bind]; [discriminate|].
      apply Nat.ltb_ge in Ed.
      destruct (Parser.parseTimestamp_loop fuel c3 [] [] (S depth)) as [[child c4]|e] eqn:Ec;
        cbn [bind]; [|discriminate].
      apply IH in Ec; [|cbn; lia].
      intros Eb. injection Eb as <- <- _.
      rewrite (treeDepth_snoc atts atts chs op child). lia. }
  cbn [Parser.parseTimestamp_loop] in E.
  change (Parser.parseTimestampBranch_with _)
    with (Parser.parseTimestampBranch fuel) in E.
  destruct (_ && _) in E.
  - destruct (Parser.readByte c) as [[? c1]|e]; cbn [bind] in E; [|discriminate E].
    destruct (Parser.parseTimestampBranch fuel c1 atts chs depth)
      as [[[atts2 chs2] c2]|e] eqn:Eb; cbn [bind] in E; [|discriminate E].
    apply Hbranch in Eb. eapply IH; eassumption.
  - destruct (0 <? Parser.remaining c).
    + destruct (Parser.parseTimestampBranch fuel c atts chs depth)
        as [[[atts2 chs2] c2]|e] eqn:Eb; cbn [bind] in E; [|discriminate E].
      apply Hbranch in Eb. injection E as <- _. exact Eb.
    + injection E as <- _. exact Hacc.
Qed.

Lemma parseOts_depth (data : bytes) (ots : OtsFile) :
  Parser.parseOts data = Ok ots ->
  (Spec.treeDepth (timestamp ots) <= Parser.MAX_DEPTH)%nat.
Proof.
  unfold Parser.parseOts. intros E.
  destruct (Parser.readBytes data _) as [[header c1]|e]; cbn [bind] in E; [|discriminate E].
  destruct (negb _) in E; [discriminate E|].
  destruct (Parser.readVaruint c1) as [[version c2]|e]; cbn [bind] in E; [|discriminate E].
  destruct version as [[|[| |]]|]; try discriminate E.
  destruct (Parser.readByte c2) as [[tag c3]|e]; cbn [bind] in E; [|discriminate E].
  destruct (Parser.parseHashOp tag) as [hop|e]; cbn [bind] in E; [|discriminate E].
  destruct (Parser.readBytes c3 _) as [[digest c4]|e]; cbn [bind] in E; [|discriminate E].
  unfold Parser.parseTimestamp in E.
  destruct (Nat.ltb Parser.MAX_DEPTH 0); cbn [bind] in E; [discriminate E|].
  destruct (Parser.parseTimestamp_loop _ c4 [] [] 0) as [[ts c5]|e] eqn:Et;
    cbn [bind] in E; [|discriminate E].
  apply parseTimestamp_loop_depth in Et; [|cbn; lia].
  injection E as <-. cbn [timestamp]. lia.
Qed.

(** ** The operation engine *)

Section HeapFacts.
Import Operations.

Lemma load_alloc_new (h : Heap) (b : bytes) : load (h ++ [b]) (List.length h) = b.
Proof. unfold load. now rewrite nth_middle. Qed.

Lemma load_alloc_old (h : Heap) (b : bytes) (a : nat) :
  (a < List.length h)%nat -> load (h ++ [b]) a = load h a.
Proof. intros Ha. unfold load. now rewrite app_nth1. Qed.

Lemma store_last (h : Heap) (b b' : bytes) :
  store (h ++ [b]) (List.length h) b' = h ++ [b'].
Proof.
  unfold store. rewrite firstn_app, Nat.sub_diag, firstn_all, firstn_O, app_nil_r.
  rewrite skipn_all2 by (rewrite length_app; cbn; lia).
  reflexivity.
Qed.

Lemma Uint8Array_set_concat (a b : bytes) :
  Uint8Array_set
    (Uint8Array_set (Uint8Array_new (List.length a + List.length b)) a 0)
    b (List.length a) = a ++ b.
Proof.
  unfold Uint8Array_set, Uint8Array_new.
  cbn [firstn app Nat.add].
  rewrite repeat_app, skipn_app, repeat_length, Nat.sub_diag, skipn_O.
  rewrite skipn_all2 by (rewrite repeat_length; lia). cbn [app].
  rewrite firstn_app, Nat.sub_diag, firstn_all, firstn_O, app_nil_r.
  rewrite skipn_all2 by (rewrite length_app, repeat_length; lia).
  now rewrite app_nil_r.
Qed.

End HeapFacts.

Lemma hexChar_lower (n : N) :
  n < 16 -> Hex.hexChar n = ascii_of_byte (Spec.lowerHexDigit n).
Proof.
  intros Hn. rewrite <- (Nnat.N2Nat.id n).
  assert (Hm : (N.to_nat n < 16)%nat) by lia.
  generalize dependent (N.to_nat n). clear n Hn. intros m Hm.
  do 16 (destruct m as [|m]; [reflexivity|]). lia.
Qed.

Lemma list_byte_of_string_app (s t : string) :
  list_byte_of_string (s ++ t) = list_byte_of_string s ++ list_byte_of_string t.
Proof.
  induction s as [|c s IH]; [reflexivity|].
  cbn [String.append]. unfold list_byte_of_string in *.
  cbn [list_ascii_of_string map app]. now rewrite IH.
Qed.

Lemma bytesToHex_fold (bs : bytes) :
  forall acc : string,
    fold_left
      (fun hex b =>
         hex ++ String (Hex.hexChar (N.shiftr (Byte.to_N b) 4))
                  (String (Hex.hexChar (N.land (Byte.to_N b) 15)) EmptyString))%string
      bs acc = (acc ++ Hex.bytesToHex bs)%string.
Proof.
  unfold Hex.bytesToHex.
  induction bs as [|b bs IH]; intros acc; cbn [fold_left].
  - now rewrite string_app_nil_r.
  - rewrite IH. rewrite (IH (EmptyString ++ _)%string).
    cbn [String.append]. now rewrite string_app_assoc.
Qed.

Lemma bytesToHex_cons (b : byte) (bs : bytes) :
  Hex.bytesToHex (b :: bs) =
  String (Hex.hexChar (N.shiftr (Byte.to_N b) 4))
    (String (Hex.hexChar (N.land (Byte.to_N b) 15)) (Hex.bytesToHex bs)).
Proof.
  unfold Hex.bytesToHex at 1. cbn [fold_left]. now rewrite bytesToHex_fold.
Qed.

Lemma encode_bytesToHex (msg : bytes) :
  Writer.TextEncoder_encode (Hex.bytesToHex msg) = Spec.hexlify msg.
Proof.
  unfold Writer.TextEncoder_encode.
  induction msg as [|b msg IH]; [reflexivity|].
  rewrite bytesToHex_cons. cbn [Spec.hexlify flat_map app].
  unfold list_byte_of_string in *. cbn [list_ascii_of_string map].
  fold (Spec.hexlify msg). rewrite IH.
  pose proof (to_N_lt_256 b) as Hb.
  rewrite N.shiftr_div_pow2. change (2 ^ 4) with 16.
  change 15 with (N.ones 4). rewrite N.land_ones. change (2 ^ 4) with 16.
  rewrite !hexChar_lower.
  - now rewrite !byte_of_ascii_of_byte.
  - apply N.mod_upper_bound. discriminate.
  - apply N.Div0.div_lt_upper_bound. exact Hb.
Qed.

Lemma hexlify_length (msg : bytes) :
  List.length (Spec.hexlify msg) = (2 * List.length msg)%nat.
Proof.
  induction msg as [|b msg IH]; [reflexivity|].
  cbn [Spec.hexlify flat_map app List.length]. fold (Spec.hexlify msg). lia.
Qed.

Section OperationEngine.
Import Operations.
Variable H : Crypto.HashOracle.

(** On a heap, every supported operation allocates one buffer, fills it with
    the reference result and leaves every existing buffer as it was. *)
Lemma applyOperation_heap_reference (h : Heap) (op : Operation) (msg : nat) :
  (msg < List.length h)%nat ->
  match Spec.applyReference H op (load h msg) with
  | Some out => applyOperation_heap H h op msg = Ok (h ++ [out], List.length h)
  | None => applyOperation_heap H h op msg = Err Keccak256NotSupported
  end.
Proof.
  intros Hmsg.
  destruct op; cbn [Spec.applyReference applyOperation_heap alloc];
    repeat (rewrite load_alloc_new || rewrite store_last
            || rewrite load_alloc_old by exact Hmsg);
    rewrite ?Uint8Array_set_concat, ?encode_bytesToHex; reflexivity.
Qed.

Lemma applyOperation_reference (op : Operation) (msg : bytes) :
  applyOperation H op msg =
  match Spec.applyReference H op msg with
  | Some out => Ok out
  | None => Err Keccak256NotSupported
  end.
Proof.
  unfold applyOperation.
  pose proof (applyOperation_heap_reference [msg] op 0 ltac:(cbn; lia)) as E.
  change (load [msg] 0) with msg in E.
  destruct (Spec.applyReference H op msg) as [out|]; rewrite E; reflexivity.
Qed.

(** C8.  [applyOperation] is the reference definition: [Append(d)] gives
    [msg || d], [Prepend(d)] gives [d || msg], [Reverse] the reversed bytes,
    [Hexlify] the lowercase hex digits (twice as many bytes), the three hash
    operations the digest, each in a newly allocated buffer with every
    existing buffer (the input among them) unchanged; and it fails exactly
    for [Keccak256]. *)
Theorem applyOperation_matches_reference :
  forall (h : Heap) (op : Operation) (msg : nat),
    (msg < List.length h)%nat ->
    (forall out, Spec.applyReference H op (load h msg) = Some out ->
       exists h',
         applyOperation_heap H h op msg = Ok (h', List.length h) /\
         load h' (List.length h) = out /\
         (forall a, (a < List.length h)%nat -> load h' a = load h a) /\
         applyOperation H op (load h msg) = Ok out) /\
    ((exists e, applyOperation_heap H h op msg = Err e) <-> op = OpKeccak256) /\
    ((exists e, applyOperation H op (load h msg) = Err e) <-> op = OpKeccak256) /\
    List.length (Spec.hexlify (load h msg)) = (2 * List.length (load h msg))%nat.
Proof.
  intros h op msg Hmsg.
  pose proof (applyOperation_heap_reference h op msg Hmsg) as Hheap.
  pose proof (applyOperation_reference op (load h msg)) as Hval.
  split; [|split; [|split]].
  - intros out Hout. rewrite Hout in Hheap, Hval.
    exists (h ++ [out]). split; [exact Hheap|split; [|split]].
    + apply load_alloc_new.
    + intros a Ha. now apply load_alloc_old.
    + exact Hval.
  - split.
    + intros [e He].
      destruct op; cbn [Spec.applyReference] in Hheap; try congruence; reflexivity.
    + intros ->. exists Keccak256NotSupported. reflexivity.
  - split.
    + intros [e He].
      destruct op; cbn [Spec.applyReference] in Hval; try congruence; reflexivity.
    + intros ->. exists Keccak256NotSupported. reflexivity.
  - apply hexlify_length.
Qed.

End OperationEngine.

(** C8, witness: reversing the buffer [01 02 03] at address 0. *)
Lemma applyOperation_matches_reference_witness :
  exists h',
    Operations.applyOperation_heap Examples.hashes [[x01; x02; x03]] OpReverse 0 =
      Ok (h', 1%nat) /\
    Operations.load h' 1 = [x03; x02; x01] /\
    (forall a, (a < 1)%nat -> Operations.load h' a = Operations.load [[x01; x02; x03]] a) /\
    Operations.applyOperation Examples.hashes OpReverse [x01; x02; x03] =
      Ok [x03; x02; x01].
Proof.
  refine (proj1 (applyOperation_matches_reference Examples.hashes
                   [[x01; x02; x03]] OpReverse 0 _) [x03; x02; x01] eq_refl).
  cbn. lia.
Defined.

(** The examples of the test suite. *)
Example applyOperation_append :
  Operations.applyOperation Examples.hashes (OpAppend [xcc; xdd]) [xaa; xbb] =
  Ok [xaa; xbb; xcc; xdd].
Proof. reflexivity. Qed.

Example applyOperation_prepend :
  Operations.applyOperation Examples.hashes (OpPrepend [xcc; xdd]) [xaa; xbb] =
  Ok [xcc; xdd; xaa; xbb].
Proof. reflexivity. Qed.

Example applyOperation_hexlify :
  Operations.applyOperation Examples.hashes OpHexlify [xab; xcd] =
  Ok (Writer.TextEncoder_encode "abcd").
Proof. reflexivity. Qed.

(** ** The verifier *)

Section Verifier.
Import Operations Verify.
Variable H : Crypto.HashOracle.
Variable getBlockInfo : Bitcoin.BlockOracle.

Lemma walkTimestamp_unfold (atts : list Attestation)
    (chs : list (Operation * Timestamp)) (msg : bytes) (depth : nat) (w : Lookups) :
  walkTimestamp H getBlockInfo (mkTimestamp atts chs) msg depth w =
  if Nat.ltb MAX_DEPTH depth then ([VError ProofTreeExceedsMaximumDepth], w)
  else Loops.walkChildren H getBlockInfo msg depth chs
         (fold_left (Loops.walkAttestation getBlockInfo msg) atts ([], w)).
Proof. reflexivity. Qed.

Lemma checkAttestation_resultFor (att : Attestation) (msg : bytes) (w : Lookups) :
  (VerifySpec.resultFor getBlockInfo) att (fst (checkAttestation getBlockInfo att msg w)).
Proof.
  destruct att; cbn [checkAttestation VerifySpec.resultFor fst]; try reflexivity.
  unfold verifyBitcoin, VerifySpec.lookupSucceeds.
  destruct (getBlockInfo height) as [info|e] eqn:Einfo.
  - destruct (Bitcoin.merkleRootToLeBytes (Bitcoin.merkleRoot info)) as [le|e] eqn:Ele.
    + left. split; [now exists info, le|].
      destruct (Hex.constantTimeEqual msg le); cbn [fst]; eauto.
    + right. split; [|cbn [fst]; eauto].
      intros (info' & le & E1 & E2). congruence.
  - right. split; [|cbn [fst]; eauto].
    intros (info' & le & E1 & E2). congruence.
Qed.

Lemma walkAttestations_results (msg : bytes) (atts : list Attestation) :
  forall (seen : list Attestation) (st : WalkState),
    Forall2 (VerifySpec.resultFor getBlockInfo) seen (fst st) ->
    Forall2 (VerifySpec.resultFor getBlockInfo) (seen ++ atts)
      (fst (fold_left (Loops.walkAttestation getBlockInfo msg) atts st)).
Proof.
  induction atts as [|att atts IH]; intros seen st Hst; cbn [fold_left].
  - now rewrite app_nil_r.
  - replace (seen ++ att :: atts) with ((seen ++ [att]) ++ atts)
      by now rewrite <- app_assoc.
    apply IH. unfold Loops.walkAttestation.
    pose proof (checkAttestation_resultFor att msg (snd st)) as Hr.
    destruct (checkAttestation getBlockInfo att msg (snd st)) as [r w'].
    cbn [fst] in *. apply Forall2_app; [exact Hst|]. now constructor.
Qed.

Lemma walkTimestamp_results :
  forall (ts : Timestamp) (msg : bytes) (depth : nat) (w : Lookups),
    Spec.everyOperationApplies ts = true ->
    (depth + Spec.treeDepth ts <= MAX_DEPTH)%nat ->
    Forall2 (VerifySpec.resultFor getBlockInfo) (Spec.attestationsDepthFirst ts)
      (fst (walkTimestamp H getBlockInfo ts msg depth w)).
Proof.
  induction ts as [atts chs IH] using Timestamp_ind'.
  intros msg depth w Hops Hdepth.
  rewrite walkTimestamp_unfold.
  replace (Nat.ltb MAX_DEPTH depth) with false by (symmetry; apply Nat.ltb_ge; lia).
  cbn [Spec.attestationsDepthFirst].
  cbn [Spec.everyOperationApplies Spec.treeDepth] in Hops, Hdepth.
  pose proof (walkAttestations_results msg atts [] ([], w) (Forall2_nil _)) as Hatts.
  cbn [app] in Hatts.
  revert Hatts. generalize (fold_left (Loops.walkAttestation getBlockInfo msg) atts ([], w)).
  generalize atts as seen.
  induction chs as [|[op child] chs IHchs]; intros seen st Hst;
    cbn [flat_map Loops.walkChildren].
  - now rewrite app_nil_r.
  - cbn [forallb fold_right fst snd] in Hops, Hdepth.
    apply andb_true_iff in Hops. destruct Hops as [Hop Hops].
    apply andb_true_iff in Hop. destruct Hop as [Hk Hchild].
    inversion IH as [|? ? IHchild IHrest]; subst. cbn [snd] in IHchild.
    rewrite applyOperation_reference.
    destruct op; try discriminate Hk; cbn [Spec.applyReference];
      match goal with
      | |- context [walkTimestamp H getBlockInfo child ?m (S depth) (snd st)] =>
          pose proof (IHchild m (S depth) (snd st) Hchild ltac:(lia)) as Hc;
          destruct (walkTimestamp H getBlockInfo child m (S depth) (snd st))
            as [childResults w']
      end;
      cbn [fst] in Hc; rewrite app_assoc;
      (apply IHchs; [exact IHrest|exact Hops|lia|]);
      cbn [fst]; now apply Forall2_app.
Qed.

(** C7.  [verifyFile] throws the digest-mismatch error exactly when the
    proof parses, the supplied data can be hashed under the file's hash
    operation, and the computed digest differs from the stored one.  When it
    throws there is no list of results, no block has been looked up, and
    the outcome does not depend on the block explorer. *)
Theorem verifyFile_digest_mismatch_iff :
  forall (fileData otsData : bytes) (w : Lookups),
    ((exists expected computed,
         fst (verifyFile H getBlockInfo fileData otsData w) =
         Err (FileDigestMismatch expected computed)) <->
     (exists ots d,
         Parser.parseOts otsData = Ok ots /\
         hashContents H fileData (hashOp ots) = Ok d /\
         d <> fileDigest ots)) /\
    (forall expected computed,
        fst (verifyFile H getBlockInfo fileData otsData w) =
        Err (FileDigestMismatch expected computed) ->
        snd (verifyFile H getBlockInfo fileData otsData w) = w /\
        forall other : Bitcoin.BlockOracle,
          verifyFile H other fileData otsData w =
          verifyFile H getBlockInfo fileData otsData w).
Proof.
  intros fileData otsData w. unfold verifyFile.
  destruct (Parser.parseOts otsData) as [ots|e]; cbn [fst snd].
  2:{ split; [split|]; [intros (? & ? & E); discriminate E
                       |intros (? & ? & E & _); discriminate E
                       |intros ? ? E; discriminate E]. }
  destruct (hashContents H fileData (hashOp ots)) as [d|e] eqn:Ehash; cbn [fst snd].
  2:{ split; [split|]; [intros (? & ? & E); discriminate E
                       |intros (ots' & d' & E1 & E2 & _); congruence
                       |intros ? ? E; discriminate E]. }
  destruct (Hex.constantTimeEqual d (fileDigest ots)) eqn:Eq; cbn [negb fst snd].
  - apply constantTimeEqual_true_iff in Eq.
    destruct (walkTimestamp H getBlockInfo (timestamp ots) (fileDigest ots) 0 w)
      as [results w'].
    cbn [fst snd]. split; [split|].
    + intros (? & ? & E); discriminate E.
    + intros (ots' & d' & E1 & E2 & Hne). congruence.
    + intros ? ? E; discriminate E.
  - apply constantTimeEqual_false_iff in Eq. split; [split|].
    + intros _. now exists ots, d.
    + intros _. eauto.
    + intros ? ? _. split; reflexivity.
Qed.

(** The same for [verifyDigest], whose digest is supplied in hex. *)
Lemma verifyDigest_digest_mismatch_iff :
  forall (digestHex : string) (otsData : bytes) (w : Lookups),
    (exists expected,
        verifyDigest H getBlockInfo digestHex otsData w =
        (Err (DigestMismatch expected digestHex), w)) <->
    (exists ots d,
        Parser.parseOts otsData = Ok ots /\
        Hex.hexToBytes digestHex = Ok d /\
        d <> fileDigest ots).
Proof.
  intros digestHex otsData w. unfold verifyDigest.
  destruct (Parser.parseOts otsData) as [ots|e].
  2:{ split; [intros (? & E); discriminate E|intros (? & ? & E & _); discriminate E]. }
  destruct (Hex.hexToBytes digestHex) as [d|e] eqn:Ehex.
  2:{ split; [intros (? & E); discriminate E|intros (? & ? & _ & E & _); discriminate E]. }
  destruct (Hex.constantTimeEqual d (fileDigest ots)) eqn:Eq; cbn [negb].
  - apply constantTimeEqual_true_iff in Eq.
    destruct (walkTimestamp H getBlockInfo (timestamp ots) (fileDigest ots) 0 w)
      as [results w'].
    split; [intros (? & E); discriminate E|].
    intros (ots' & d' & E1 & E2 & Hne). congruence.
  - apply constantTimeEqual_false_iff in Eq. split; [|eauto].
    intros _. exists ots, d. auto.
Qed.

(** C4 (amended).  For a parsed proof in which every operation can be applied
    and the depth cap is not exceeded, [verifyFile], once the digest check
    has passed, returns without throwing a list with exactly one result per
    attestation, in depth-first order, the attestations of a node before
    those of its continuations: for Bitcoin, [Verified] or [Failed] when the
    block lookup succeeds and [Error] when it fails; [Pending] for a pending
    attestation; [Skipped] for Litecoin, Ethereum and unknown ones. *)
Theorem verifyFile_one_result_per_attestation :
  forall (fileData otsData : bytes) (w : Lookups) (ots : OtsFile),
    Parser.parseOts otsData = Ok ots ->
    hashContents H fileData (hashOp ots) = Ok (fileDigest ots) ->
    Spec.everyOperationApplies (timestamp ots) = true ->
    (Spec.treeDepth (timestamp ots) <= MAX_DEPTH)%nat ->
    exists results w',
      verifyFile H getBlockInfo fileData otsData w = (Ok results, w') /\
      Forall2 (VerifySpec.resultFor getBlockInfo)
        (Spec.attestationsDepthFirst (timestamp ots)) results.
Proof.
  intros fileData otsData w ots Hparse Hhash Hops Hdepth.
  unfold verifyFile. rewrite Hparse, Hhash, constantTimeEqual_refl. cbn [negb].
  pose proof (walkTimestamp_results (timestamp ots) (fileDigest ots) 0 w Hops
                ltac:(cbn; exact Hdepth)) as Hres.
  destruct (walkTimestamp H getBlockInfo (timestamp ots) (fileDigest ots) 0 w)
    as [results w'].
  now exists results, w'.
Qed.

(** A tree that came out of the parser is within the cap, so for a parsed
    proof the condition on the depth holds by itself. *)
Lemma verifyFile_results_of_parsed :
  forall (fileData otsData : bytes) (w : Lookups) (ots : OtsFile),
    Parser.parseOts otsData = Ok ots ->
    hashContents H fileData (hashOp ots) = Ok (fileDigest ots) ->
    Spec.everyOperationApplies (timestamp ots) = true ->
    exists results w',
      verifyFile H getBlockInfo fileData otsData w = (Ok results, w') /\
      Forall2 (VerifySpec.resultFor getBlockInfo)
        (Spec.attestationsDepthFirst (timestamp ots)) results.
Proof.
  intros fileData otsData w ots Hparse Hhash Hops.
  pose proof (parseOts_depth otsData ots Hparse) as Hdepth.
  unfold verifyFile. rewrite Hparse, Hhash, constantTimeEqual_refl. cbn [negb].
  pose proof (walkTimestamp_results (timestamp ots) (fileDigest ots) 0 w Hops
                ltac:(cbn; exact Hdepth)) as Hres.
  destruct (walkTimestamp H getBlockInfo (timestamp ots) (fileDigest ots) 0 w)
    as [results w'].
  now exists results, w'.
Qed.

End Verifier.

(** C7, witness: a proof whose stored digest is 32 zero bytes, verified
    against data that hashes to 32 bytes [0xaa]. *)
Lemma verifyFile_digest_mismatch_iff_witness :
  snd (Verify.verifyFile Examples.hashes Examples.unreachableExplorer []
         Examples.mismatchedOts []) = [] /\
  forall other : Bitcoin.BlockOracle,
    Verify.verifyFile Examples.hashes other [] Examples.mismatchedOts [] =
    Verify.verifyFile Examples.hashes Examples.unreachableExplorer []
      Examples.mismatchedOts [].
Proof.
  apply (proj2 (verifyFile_digest_mismatch_iff Examples.hashes
                  Examples.unreachableExplorer [] Examples.mismatchedOts [])
           (Hex.bytesToHex (repeat x00 32)) (Hex.bytesToHex (repeat xaa 32))).
  vm_compute. reflexivity.
Defined.

(** C4, witness: a proof with one Bitcoin attestation and an unreachable
    block explorer. *)
Lemma verifyFile_one_result_per_attestation_witness :
  exists results w',
    Verify.verifyFile Examples.hashes Examples.unreachableExplorer []
      Examples.helloWorldLikeOts [] = (Ok results, w') /\
    Forall2 (VerifySpec.resultFor Examples.unreachableExplorer)
      (Spec.attestationsDepthFirst (mkTimestamp [Bitcoin 358391] [])) results.
Proof.
  apply (verifyFile_one_result_per_attestation Examples.hashes
           Examples.unreachableExplorer [] Examples.helloWorldLikeOts []
           (mkOtsFile sha256 (repeat xaa 32) (mkTimestamp [Bitcoin 358391] []))).
  - vm_compute. reflexivity.
  - vm_compute. reflexivity.
  - vm_compute. reflexivity.
  - cbn. unfold Verify.MAX_DEPTH. lia.
Defined.

(** C4, counterexample: when the block explorer cannot be reached the result
    for a Bitcoin attestation is [Error], neither [Verified] nor [Failed]. *)
Lemma verifyFile_bitcoin_lookup_error :
  Verify.verifyFile Examples.hashes Examples.unreachableExplorer []
    Examples.helloWorldLikeOts [] =
  (Ok [Verify.VError
         (Verify.CouldNotFetchBitcoinBlock 358391
            (Verify.BlockApiFailure "Network error"))],
   [358391]) /\
  ~ Forall2 VerifySpec.resultForAsClaimed [Bitcoin 358391]
      [Verify.VError
         (Verify.CouldNotFetchBitcoinBlock 358391
            (Verify.BlockApiFailure "Network error"))].
Proof.
  split; [vm_compute; reflexivity|].
  intros Hall. inversion Hall as [|? ? ? ? Hr _]; subst.
  cbn in Hr. destruct Hr as [(? & ? & E)|(? & ? & E)]; discriminate E.
Qed.

(** ** The upgrader *)

Section Upgrader.
Import Operations Upgrade.
Variable H : Crypto.HashOracle.
Variable fetch : Http.GetOracle.

Lemma upgradeTimestamp_unfold (atts : list Attestation)
    (chs : list (Operation * Timestamp)) (msg : bytes) (st : UpgradeState)
    (depth : nat) :
  upgradeTimestamp H fetch (mkTimestamp atts chs) msg st depth =
  if Nat.ltb MAX_DEPTH depth
  then (mkTimestamp atts chs, pushError st ProofTreeExceedsMaximumDepth)
  else
    let '(newAttestations, newOps, st) :=
      fold_left (upgradeAttestation fetch msg) atts ([], [], st) in
    let '(updatedOps, st) := Loops.upgradeChildren H fetch msg depth chs st in
    (mkTimestamp newAttestations (updatedOps ++ newOps), st).
Proof. reflexivity. Qed.

Lemma hasPendingAttestation_unfold (atts : list Attestation)
    (chs : list (Operation * Timestamp)) :
  hasPendingAttestation (mkTimestamp atts chs) =
  if existsb Parser.isPending atts then true else Loops.hasPendingChild chs.
Proof. reflexivity. Qed.

(** The first loop: each attestation is replaced, in order; the requests are
    those for the pending attestations of the node. *)
Lemma upgradeAttestations_fold (msg : bytes) (atts : list Attestation) :
  forall (na : list Attestation) (no : list (Operation * Timestamp))
         (st : UpgradeState),
  exists st',
    fold_left (upgradeAttestation fetch msg) atts (na, no, st) =
      (na ++ flat_map (fun a => fst (UpgradeSpec.replacement fetch msg a)) atts,
       no ++ flat_map (fun a => snd (UpgradeSpec.replacement fetch msg a)) atts,
       st') /\
    requests st' = requests st ++ flat_map (UpgradeSpec.requestFor msg) atts.
Proof.
  induction atts as [|att atts IH]; intros na no st; cbn [fold_left flat_map].
  - exists st. now rewrite !app_nil_r.
  - assert (Hstep : exists st1,
      upgradeAttestation fetch msg (na, no, st) att =
        (na ++ fst (UpgradeSpec.replacement fetch msg att),
         no ++ snd (UpgradeSpec.replacement fetch msg att), st1) /\
      requests st1 = requests st ++ UpgradeSpec.requestFor msg att).
    { destruct att; cbn [upgradeAttestation UpgradeSpec.replacement
                          UpgradeSpec.requestFor fst snd];
        try (exists st; now rewrite !app_nil_r).
      destruct (fetchUpgrade fetch uri msg) as [[sub|]|e]; cbn [fst snd];
        eexists; (split; [rewrite ?app_nil_r; reflexivity|reflexivity]). }
    destruct Hstep as (st1 & -> & Hreq).
    destruct (IH (na ++ fst (UpgradeSpec.replacement fetch msg att))
                 (no ++ snd (UpgradeSpec.replacement fetch msg att)) st1)
      as (st' & -> & Hreq').
    exists st'. rewrite <- !app_assoc. split; [reflexivity|].
    rewrite Hreq', Hreq. now rewrite <- app_assoc.
Qed.

Lemma requests_pushError (st : UpgradeState) (e : UpgradeError) :
  requests (pushError st e) = requests st.
Proof. reflexivity. Qed.

(** The walker builds the tree of the specification, and its requests are
    those of the tree as it was. *)
Lemma upgradeTimestamp_spec :
  forall (ts : Timestamp) (msg : bytes) (st : UpgradeState) (depth : nat),
    fst (upgradeTimestamp H fetch ts msg st depth) =
      UpgradeSpec.upgradedTree H fetch ts msg depth /\
    requests (snd (upgradeTimestamp H fetch ts msg st depth)) =
      requests st ++ UpgradeSpec.requestsOf H ts msg depth.
Proof.
  induction ts as [atts chs IH] using Timestamp_ind'.
  intros msg st depth. rewrite upgradeTimestamp_unfold.
  cbn [UpgradeSpec.upgradedTree UpgradeSpec.requestsOf].
  destruct (Nat.ltb MAX_DEPTH depth).
  - cbn [fst snd]. now rewrite requests_pushError, app_nil_r.
  - destruct (upgradeAttestations_fold msg atts [] [] st) as (st1 & -> & Hreq1).
    cbn [app].
    assert (Hkids : forall st0,
      fst (Loops.upgradeChildren H fetch msg depth chs st0) =
        map (fun oc =>
               (fst oc,
                match applyOperation H (fst oc) msg with
                | Ok newMsg => UpgradeSpec.upgradedTree H fetch (snd oc) newMsg (S depth)
                | Err _ => snd oc
                end)) chs /\
      requests (snd (Loops.upgradeChildren H fetch msg depth chs st0)) =
        requests st0 ++
        flat_map (fun oc =>
                    match applyOperation H (fst oc) msg with
                    | Ok newMsg => UpgradeSpec.requestsOf H (snd oc) newMsg (S depth)
                    | Err _ => []
                    end) chs).
    { clear Hreq1 st1 st. induction chs as [|[op child] chs IHchs]; intros st0.
      - cbn. now rewrite app_nil_r.
      - inversion IH as [|? ? IHchild IHrest]; subst. cbn [snd] in IHchild.
        specialize (IHchs IHrest).
        cbn [Loops.upgradeChildren map flat_map fst snd].
        destruct (applyOperation H op msg) as [newMsg|e].
        + destruct (IHchild newMsg st0 (S depth)) as [Htree Hreq].
          destruct (upgradeTimestamp H fetch child newMsg st0 (S depth)) as [child' st2].
          cbn [fst snd] in Htree, Hreq.
          destruct (IHchs st2) as [Hrest Hreq2].
          destruct (Loops.upgradeChildren H fetch msg depth chs st2) as [rest st3].
          cbn [fst snd] in *. subst. split; [reflexivity|].
          rewrite Hreq2, Hreq. now rewrite <- app_assoc.
        + destruct (IHchs (pushError st0 (OperationFailed e))) as [Hrest Hreq2].
          destruct (Loops.upgradeChildren H fetch msg depth chs
                      (pushError st0 (OperationFailed e))) as [rest st3].
          cbn [fst snd] in *. subst. split; [reflexivity|].
          now rewrite Hreq2, requests_pushError. }
    destruct (Hkids st1) as [Htree Hreq2].
    destruct (Loops.upgradeChildren H fetch msg depth chs st1) as [updated st2].
    cbn [fst snd] in *. subst. split; [reflexivity|].
    rewrite Hreq2, Hreq1. now rewrite <- app_assoc.
Qed.

Lemma hasPendingAttestation_spec (ts : Timestamp) :
  hasPendingAttestation ts =
  existsb Parser.isPending (Spec.attestationsDepthFirst ts).
Proof.
  induction ts as [atts chs IH] using Timestamp_ind'.
  rewrite hasPendingAttestation_unfold. cbn [Spec.attestationsDepthFirst].
  rewrite existsb_app. destruct (existsb Parser.isPending atts); [reflexivity|].
  cbn [orb].
  induction chs as [|[op child] chs IHchs]; [reflexivity|].
  inversion IH as [|? ? IHchild IHrest]; subst. cbn [snd] in IHchild.
  cbn [Loops.hasPendingChild flat_map snd]. rewrite existsb_app, <- IHchild.
  destruct (hasPendingAttestation child); [reflexivity|].
  cbn [orb]. now apply IHchs.
Qed.

(** C5.  During [upgradeProof] the walk builds the tree the specification
    describes: at every node each pending attestation that the calendar
    completes is replaced by the attestations of the returned sub-tree, whose
    continuations are appended to the node, and the recursion descends into
    the continuations the node had before and into no other.  The calendar
    requests are therefore those of the pending attestations of the tree as
    it was: what a response contains is never requested. *)
Theorem upgradeProof_recurses_into_original_ops :
  (forall (ts : Timestamp) (msg : bytes) (st : UpgradeState) (depth : nat),
      fst (upgradeTimestamp H fetch ts msg st depth) =
        UpgradeSpec.upgradedTree H fetch ts msg depth /\
      requests (snd (upgradeTimestamp H fetch ts msg st depth)) =
        requests st ++ UpgradeSpec.requestsOf H ts msg depth) /\
  (forall (ots : OtsFile) (requests0 : list string),
      UpgradeSpec.somePending (timestamp ots) ->
      fst (upgradeProof H fetch ots requests0) =
        mkOtsFile (hashOp ots) (fileDigest ots)
          (UpgradeSpec.upgradedTree H fetch (timestamp ots) (fileDigest ots) 0) /\
      requests (snd (upgradeProof H fetch ots requests0)) =
        requests0 ++ UpgradeSpec.requestsOf H (timestamp ots) (fileDigest ots) 0).
Proof.
  split; [exact upgradeTimestamp_spec|].
  intros ots requests0 Hsome. unfold upgradeProof.
  rewrite hasPendingAttestation_spec.
  replace (existsb Parser.isPending (Spec.attestationsDepthFirst (timestamp ots)))
    with true.
  2:{ symmetry. apply existsb_exists. unfold UpgradeSpec.somePending in Hsome.
      apply Exists_exists in Hsome. exact Hsome. }
  cbn [negb].
  destruct (upgradeTimestamp_spec (timestamp ots) (fileDigest ots)
              (mkUpgradeState (mkUpgradeResult 0 0 [] false) requests0) 0)
    as [Htree Hreq].
  destruct (upgradeTimestamp H fetch (timestamp ots) (fileDigest ots) _ 0) as [ts st].
  cbn [fst snd] in *. now subst.
Qed.

(** C9.  For a file whose tree has no pending attestation, [upgradeProof]
    reports [alreadyComplete = true] with both counters at 0 and no error,
    returns the file as it was (hash operation, digest and tree), and asks
    nothing of any calendar. *)
Theorem upgradeProof_already_complete :
  forall (ots : OtsFile) (requests0 : list string),
    UpgradeSpec.noPending (timestamp ots) ->
    upgradeProof H fetch ots requests0 =
    (ots, mkUpgradeState (mkUpgradeResult 0 0 [] true) requests0).
Proof.
  intros ots requests0 Hno. unfold upgradeProof.
  rewrite hasPendingAttestation_spec.
  replace (existsb Parser.isPending (Spec.attestationsDepthFirst (timestamp ots)))
    with false; [reflexivity|].
  symmetry. apply not_true_is_false. intros Hex.
  apply existsb_exists in Hex. destruct Hex as (a & Hin & Ha).
  unfold UpgradeSpec.noPending in Hno. rewrite Forall_forall in Hno.
  specialize (Hno a Hin). congruence.
Qed.

End Upgrader.

(** C9, witness: a proof with a single Bitcoin attestation. *)
Lemma upgradeProof_already_complete_witness :
  Upgrade.upgradeProof Examples.hashes Examples.notFoundCalendar Examples.completeOts [] =
  (Examples.completeOts,
   Upgrade.mkUpgradeState (Upgrade.mkUpgradeResult 0 0 [] true) []).
Proof.
  apply (upgradeProof_already_complete Examples.hashes Examples.notFoundCalendar
           Examples.completeOts []).
  repeat constructor.
Defined.

(** C5, witness: the pending proof, with a calendar whose response holds a
    pending attestation of its own under a continuation. *)
Lemma upgradeProof_recurses_into_original_ops_witness :
  fst (Upgrade.upgradeProof Examples.hashes Examples.nestedCalendar Examples.pendingOts []) =
    mkOtsFile sha256 (repeat x00 32)
      (UpgradeSpec.upgradedTree Examples.hashes Examples.nestedCalendar
         (mkTimestamp [Pending Examples.calendarUri] []) (repeat x00 32) 0) /\
  Upgrade.requests
    (snd (Upgrade.upgradeProof Examples.hashes Examples.nestedCalendar
            Examples.pendingOts [])) =
    [] ++ UpgradeSpec.requestsOf Examples.hashes
            (mkTimestamp [Pending Examples.calendarUri] []) (repeat x00 32) 0.
Proof.
  apply (proj2 (upgradeProof_recurses_into_original_ops Examples.hashes
                  Examples.nestedCalendar) Examples.pendingOts []).
  constructor. reflexivity.
Defined.

(** The scenarios of the test suite: the calendar has the completed proof,
    and the calendar answers 404. *)
Example upgradeProof_completed :
  Upgrade.upgradeProof Examples.hashes Examples.bitcoinCalendar Examples.pendingOts [] =
  (mkOtsFile sha256 (repeat x00 32) (mkTimestamp [Bitcoin 500000] []),
   Upgrade.mkUpgradeState (Upgrade.mkUpgradeResult 1 0 [] false)
     [Upgrade.upgradeUrl Examples.calendarUri (repeat x00 32)]).
Proof. vm_compute. reflexivity. Qed.

Example upgradeProof_still_pending :
  Upgrade.upgradeProof Examples.hashes Examples.notFoundCalendar Examples.pendingOts [] =
  (Examples.pendingOts,
   Upgrade.mkUpgradeState (Upgrade.mkUpgradeResult 0 1 [] false)
     [Upgrade.upgradeUrl Examples.calendarUri (repeat x00 32)]).
Proof. vm_compute. reflexivity. Qed.

(** A response that itself holds a pending attestation under a continuation:
    the continuation is appended as it is, and its calendar is not asked. *)
Example upgradeProof_appended_not_visited :
  Upgrade.upgradeProof Examples.hashes Examples.nestedCalendar Examples.pendingOts [] =
  (mkOtsFile sha256 (repeat x00 32) Examples.nestedSubTree,
   Upgrade.mkUpgradeState (Upgrade.mkUpgradeResult 1 0 [] false)
     [Upgrade.upgradeUrl Examples.calendarUri (repeat x00 32)]).
Proof. vm_compute. reflexivity. Qed.

(** ** The parser inverts the grammar *)

(** Decide the comparisons between the known tags. *)
Ltac compare_tags :=
  repeat match goal with
         | |- context [Hex.constantTimeEqual ?a ?b] =>
             let v := eval vm_compute in (Hex.constantTimeEqual a b) in
             change (Hex.constantTimeEqual a b) with v
         end;
  cbv iota.

Section ParserInvertsGrammar.
Import Grammar.

Lemma wfTimestamp_branches (depth : nat) (ts : Timestamp) :
  wfTimestamp depth ts ->
  (depth <= Parser.MAX_DEPTH)%nat /\
  branchesOf ts <> [] /\
  Forall (wfBranch depth) (branchesOf ts).
Proof.
  destruct ts as [atts chs]. cbn [wfTimestamp].
  intros (Hd & Hne & Hatts & Hchs). split; [exact Hd|split].
  - unfold branchesOf. cbn [attestations ops]. intros E.
    apply app_eq_nil in E. destruct E as [Ea Ec].
    apply map_eq_nil in Ea. apply map_eq_nil in Ec. tauto.
  - unfold branchesOf. cbn [attestations ops]. apply Forall_app. split.
    + apply Forall_map. exact Hatts.
    + clear Hne Hatts. induction chs as [|oc chs IH]; [constructor|].
      destruct Hchs as (Hop & Hchild & Hrest).
      cbn [map]. constructor; [now split|now apply IH].
Qed.

Lemma encodeTimestamp_branches (ts : Timestamp) :
  encodeTimestamp ts = joinBranches (map encodeBranch (branchesOf ts)).
Proof.
  destruct ts as [atts chs]. cbn [encodeTimestamp]. unfold branchesOf.
  cbn [attestations ops]. now rewrite map_app, !map_map.
Qed.

Lemma branches_of_node (ts : Timestamp) :
  mkTimestamp (attestationsOfBranches (branchesOf ts)) (opsOfBranches (branchesOf ts)) = ts.
Proof.
  destruct ts as [atts chs]. unfold branchesOf, attestationsOfBranches, opsOfBranches.
  cbn [attestations ops]. rewrite !flat_map_app. f_equal.
  - replace (flat_map _ (map _ chs)) with (@nil Attestation).
    + rewrite app_nil_r. induction atts; cbn; congruence.
    + induction chs; cbn; congruence.
  - replace (flat_map _ (map BAttestation atts)) with (@nil (Operation * Timestamp)).
    + cbn [app]. induction chs as [|[op c] chs IH]; cbn; congruence.
    + induction atts; cbn; congruence.
Qed.

Lemma writeVaruint_short (h : N) :
  h < 2 ^ 53 -> (List.length (Writer.writeVaruint [] h) <= 8)%nat.
Proof.
  intros Hh. unfold Writer.writeVaruint. apply writeVaruint_loop_length; [lia|].
  change (128 ^ N.of_nat 8) with (8 * 2 ^ 53). lia.
Qed.

Lemma heightPayload_parses (h : N) (tag rest : bytes) :
  h < 2 ^ 53 ->
  Parser.readVarbytes (Writer.writeVarbytes [] (Writer.writeVaruint [] h) ++ rest) =
    Ok (Writer.writeVaruint [] h, rest) /\
  Parser.varuintFromSlice (Writer.writeVaruint [] h) = Ok h.
Proof.
  intros Hh. split.
  - apply readVarbytes_writeVarbytes. pose proof (writeVaruint_short h Hh). lia.
  - unfold Parser.varuintFromSlice.
    rewrite <- (app_nil_r (Writer.writeVaruint [] h)).
    now rewrite readVaruint_writeVaruint.
Qed.

Lemma writeAttestation_height (tag : bytes) (h : N) :
  Writer.writeVarbytes (Writer.extend (Writer.push [] TAG_ATTESTATION) tag)
    (Writer.toUint8Array (Writer.writeVaruint [] h)) =
  TAG_ATTESTATION :: tag ++ Writer.writeVarbytes [] (Writer.writeVaruint [] h).
Proof.
  unfold Writer.push, Writer.toUint8Array.
  now rewrite extend_app, writeVarbytes_app, <- writeVarbytes_nil.
Qed.

(** Every well-formed attestation is read back from its encoding. *)
Lemma parseAttestation_encodeAttestation (att : Attestation) (rest : bytes) :
  wfAttestation att ->
  exists tl,
    encodeAttestation att = TAG_ATTESTATION :: tl /\
    Parser.parseAttestation (tl ++ rest) = Ok (att, rest).
Proof.
  intros Hwf. destruct att as [h|h|h|uri|tag payload];
    cbn [encodeAttestation Writer.writeAttestation wfAttestation] in *.
  - rewrite writeAttestation_height. eexists. split; [reflexivity|].
    destruct (heightPayload_parses h ATT_TAG_BITCOIN rest Hwf) as [E1 E2].
    rewrite <- app_assoc, parseAttestation_tagged by reflexivity.
    rewrite E1. compare_tags. now rewrite E2.
  - rewrite writeAttestation_height. eexists. split; [reflexivity|].
    destruct (heightPayload_parses h ATT_TAG_LITECOIN rest Hwf) as [E1 E2].
    rewrite <- app_assoc, parseAttestation_tagged by reflexivity.
    rewrite E1. compare_tags. now rewrite E2.
  - rewrite writeAttestation_height. eexists. split; [reflexivity|].
    destruct (heightPayload_parses h ATT_TAG_ETHEREUM rest Hwf) as [E1 E2].
    rewrite <- app_assoc, parseAttestation_tagged by reflexivity.
    rewrite E1. compare_tags. now rewrite E2.
  - eexists. split; [reflexivity|].
    rewrite <- app_assoc, parseAttestation_tagged by reflexivity.
    rewrite readVarbytes_writeVarbytes by exact Hwf. compare_tags.
    rewrite <- (app_nil_r (Writer.writeVarbytes [] (Writer.TextEncoder_encode uri))).
    rewrite readVarbytes_writeVarbytes.
    + unfold Parser.TextDecoder_decode, Writer.TextEncoder_encode.
      now rewrite string_of_list_byte_of_string.
    + rewrite writeVarbytes_nil, length_app in Hwf. lia.
  - destruct Hwf as (Hlen & Hunknown & Hpayload).
    unfold Writer.push. rewrite extend_app, writeVarbytes_app, <- writeVarbytes_nil.
    cbn [app]. eexists. split; [reflexivity|].
    rewrite <- app_assoc, parseAttestation_tagged by exact Hlen.
    rewrite readVarbytes_writeVarbytes by exact Hpayload.
    unfold knownTag in Hunknown.
    repeat match goal with
           | |- context [Hex.constantTimeEqual tag ?k] =>
               let E := fresh "E" in
               destruct (Hex.constantTimeEqual tag k) eqn:E;
               [apply constantTimeEqual_true_iff in E; tauto|]
           end.
    reflexivity.
Qed.

Lemma encodeAttestation_cons (att : Attestation) :
  exists tl, encodeAttestation att = TAG_ATTESTATION :: tl.
Proof.
  destruct att; cbn [encodeAttestation Writer.writeAttestation];
    rewrite ?writeAttestation_height; unfold Writer.push;
    rewrite ?writeVarbytes_app, ?extend_app; cbn [app]; eexists; reflexivity.
Qed.

Lemma encodeBranch_first (b : Branch) :
  exists (x : byte) (tl : bytes), encodeBranch b = x :: tl /\ x <> TAG_FORK.
Proof.
  destruct b as [att|op child]; cbn [encodeBranch].
  - destruct (encodeAttestation_cons att) as [tl ->].
    eexists; eexists; (split; [reflexivity|discriminate]).
  - destruct (writeOperation_first op) as (x & tl & E & Hfork & _).
    rewrite E. cbn [app]. now exists x, (tl ++ encodeTimestamp child).
Qed.

Lemma byte_eqb_neq (x y : byte) : x <> y -> Byte.eqb x y = false.
Proof.
  intros Hne. destruct (Byte.eqb x y) eqn:E; [|reflexivity].
  apply Byte.byte_dec_bl in E. contradiction.
Qed.

(** One branch, given that the child of a continuation is read back. *)
Lemma parseTimestampBranch_encodeBranch
    (parseChild : Parser.Cursor -> nat -> Parser.presult (Timestamp * Parser.Cursor))
    (b : Branch) (rest : bytes) (atts0 : list Attestation)
    (chs0 : list (Operation * Timestamp)) (depth : nat) :
  wfBranch depth b ->
  (forall op child, b = BContinuation op child ->
     parseChild (encodeTimestamp child ++ rest) (S depth) = Ok (child, rest)) ->
  Parser.parseTimestampBranch_with parseChild (encodeBranch b ++ rest) atts0 chs0 depth =
  Ok (atts0 ++ attestationsOfBranches [b], chs0 ++ opsOfBranches [b], rest).
Proof.
  intros Hwf Hchild. unfold Parser.parseTimestampBranch_with.
  destruct b as [att|op child]; cbn [encodeBranch wfBranch] in *.
  - destruct (parseAttestation_encodeAttestation att rest Hwf) as (tl & -> & Hparse).
    cbn [app Parser.peek bind Parser.readByte].
    change (Byte.eqb TAG_ATTESTATION TAG_ATTESTATION) with true. cbv iota.
    rewrite Hparse. cbn. now rewrite app_nil_r.
  - destruct Hwf as [Hop Hwf].
    destruct (writeOperation_first op) as (x & tl & E & _ & Hatt).
    rewrite <- app_assoc.
    rewrite (parseOperation_writeOperation op _ Hop).
    rewrite E. cbn [app Parser.peek bind].
    rewrite (byte_eqb_neq _ _ Hatt).
    rewrite (Hchild op child eq_refl). cbn. now rewrite app_nil_r.
Qed.

Lemma joinBranches_cons2 (e e' : bytes) (es : list bytes) :
  joinBranches (e :: e' :: es) = TAG_FORK :: e ++ joinBranches (e' :: es).
Proof. reflexivity. Qed.

(** The fork loop reads back the branches of a node, whatever follows. *)
Lemma parseTimestamp_loop_encode (fuel : nat) :
  forall (bs : list Branch) (rest : bytes) (atts0 : list Attestation)
         (chs0 : list (Operation * Timestamp)) (depth : nat),
    bs <> [] ->
    (depth <= Parser.MAX_DEPTH)%nat ->
    Forall (wfBranch depth) bs ->
    (List.length (joinBranches (map encodeBranch bs)) < fuel)%nat ->
    Parser.parseTimestamp_loop fuel (joinBranches (map encodeBranch bs) ++ rest)
      atts0 chs0 depth =
    Ok (mkTimestamp (atts0 ++ attestationsOfBranches bs) (chs0 ++ opsOfBranches bs), rest).
Proof.
  induction fuel as [|fuel IH]; intros bs rest atts0 chs0 depth Hne Hd Hwf Hlen; [lia|].
  destruct bs as [|b bs]; [contradiction|].
  inversion Hwf as [|? ? Hb Hbs]; subst.
  (* the child of a continuation, with the budget that is left *)
  assert (Hchild : forall rest' op child,
            b = BContinuation op child ->
            (List.length (encodeTimestamp child) < fuel)%nat ->
            (if Nat.ltb Parser.MAX_DEPTH (S depth) then Err Parser.MaxDepthExceeded
             else Parser.parseTimestamp_loop fuel (encodeTimestamp child ++ rest')
                    [] [] (S depth)) = Ok (child, rest')).
  { intros rest' op child -> Hl. cbn [wfBranch] in Hb. destruct Hb as [_ Hc].
    apply wfTimestamp_branches in Hc. destruct Hc as (Hd' & Hne' & Hwf').
    replace (Nat.ltb Parser.MAX_DEPTH (S depth)) with false
      by (symmetry; apply Nat.ltb_ge; exact Hd').
    rewrite encodeTimestamp_branches in *.
    rewrite IH by assumption. cbn [app]. now rewrite branches_of_node. }
  destruct (encodeBranch_first b) as (x & tl & Ex & Hx).
  assert (Hchild_len : forall op child,
            b = BContinuation op child ->
            (S (List.length (encodeTimestamp child)) <= List.length (encodeBranch b))%nat).
  { intros op child ->. cbn [encodeBranch]. rewrite length_app.
    destruct (writeOperation_first op) as (? & ? & -> & _). cbn. lia. }
  destruct bs as [|b' bs].
  - (* the last branch *)
    cbn [map joinBranches] in *. cbn [Parser.parseTimestamp_loop].
    assert (Hrem : (0 <? Parser.remaining (encodeBranch b ++ rest)) = true)
      by (rewrite Ex; reflexivity).
    assert (Hpeek : Parser.peek (encodeBranch b ++ rest) = Ok x)
      by (rewrite Ex; reflexivity).
    rewrite Hrem, Hpeek, (byte_eqb_neq _ _ Hx). cbn [andb].
    rewrite parseTimestampBranch_encodeBranch; [reflexivity|exact Hb|].
    intros op child E. apply (Hchild rest op child E).
    specialize (Hchild_len op child E). lia.
  - (* a branch behind a fork marker *)
    rewrite !map_cons in *. rewrite joinBranches_cons2 in *.
    cbn [List.length] in Hlen. rewrite length_app in Hlen.
    cbn [app Parser.parseTimestamp_loop Parser.peek].
    change (0 <? Parser.remaining (TAG_FORK :: _)) with true.
    change (Byte.eqb TAG_FORK TAG_FORK) with true. cbn [andb Parser.readByte bind].
    rewrite <- app_assoc.
    rewrite parseTimestampBranch_encodeBranch; [|exact Hb|].
    + cbn [bind]. rewrite <- !map_cons.
      rewrite IH.
      * rewrite <- !app_assoc. unfold attestationsOfBranches, opsOfBranches.
        cbn [flat_map]. now rewrite !app_nil_r.
      * discriminate.
      * exact Hd.
      * exact Hbs.
      * rewrite !map_cons. lia.
    + intros op child E. apply (Hchild _ op child E).
      specialize (Hchild_len op child E). lia.
Qed.

(** A well-formed tree is read back from its encoding, whatever follows it. *)
Lemma parseTimestamp_encodeTimestamp (ts : Timestamp) (rest : bytes) (fuel depth : nat) :
  wfTimestamp depth ts ->
  (List.length (encodeTimestamp ts) < fuel)%nat ->
  Parser.parseTimestamp fuel (encodeTimestamp ts ++ rest) depth = Ok (ts, rest).
Proof.
  intros Hwf Hfuel. apply wfTimestamp_branches in Hwf.
  destruct Hwf as (Hd & Hne & Hwf). unfold Parser.parseTimestamp.
  replace (Nat.ltb Parser.MAX_DEPTH depth) with false
    by (symmetry; apply Nat.ltb_ge; exact Hd).
  rewrite encodeTimestamp_branches in *.
  rewrite parseTimestamp_loop_encode by assumption.
  cbn [app]. now rewrite branches_of_node.
Qed.

End ParserInvertsGrammar.

(** ** The stamper *)

Section Stamper.
Import Grammar Stamp StampSpec.

Lemma forks_fold (l : list (string * bytes)) :
  forall buf : Writer.ByteBuffer,
    fold_left (fun buf r => Writer.extend (Writer.push buf TAG_FORK) (snd r)) l buf =
    buf ++ List.concat (map (fun r => TAG_FORK :: snd r) l).
Proof.
  induction l as [|r l IH]; intros buf; cbn [fold_left map List.concat].
  - now rewrite app_nil_r.
  - rewrite IH, extend_app. unfold Writer.push. now rewrite <- !app_assoc.
Qed.

Lemma joinBranches_last (l : list (string * bytes)) :
  l <> [] ->
  List.concat (map (fun r => TAG_FORK :: snd r) (removelast l))
    ++ snd (last l (EmptyString, [])) =
  joinBranches (map snd l).
Proof.
  induction l as [|r l IH]; intros Hne; [contradiction|].
  destruct l as [|r' l]; [cbn; reflexivity|].
  cbn [removelast last map List.concat joinBranches] in *.
  rewrite <- IH by discriminate. now rewrite <- app_assoc.
Qed.

(** The bytes [stampHash] assembles. *)
Lemma buildOts_bytes (fileDigest nonce : bytes) (responses : list (string * bytes)) :
  responses <> [] ->
  buildOts fileDigest nonce responses =
  HEADER_MAGIC ++ x01 :: x08 :: fileDigest
    ++ (Writer.writeOperation [] (OpPrepend nonce)
        ++ x08 :: joinBranches (map snd responses)).
Proof.
  intros Hne. unfold buildOts, Writer.toUint8Array.
  rewrite <- (joinBranches_last responses Hne).
  assert (Hmid : forall buf : Writer.ByteBuffer,
            (if Nat.ltb 1 (List.length responses)
             then fold_left (fun buf r => Writer.extend (Writer.push buf TAG_FORK) (snd r))
                    (removelast responses) buf
             else buf) =
            buf ++ List.concat (map (fun r => TAG_FORK :: snd r) (removelast responses))).
  { intros buf. destruct (Nat.ltb 1 (List.length responses)) eqn:E.
    - apply forks_fold.
    - apply Nat.ltb_ge in E. destruct responses as [|r [|r' l]]; cbn in *;
        [contradiction|now rewrite app_nil_r|lia]. }
  rewrite Hmid, !extend_app. cbn [Writer.writeOperation].
  unfold Writer.push. rewrite writeVarbytes_app, (writeVarbytes_app ([] ++ _)).
  change (Writer.writeVaruint ([] ++ HEADER_MAGIC) 1) with (HEADER_MAGIC ++ [x01]).
  rewrite <- !app_assoc. reflexivity.
Qed.


Lemma parseTimestamp_continuation (fuel depth : nat) (op : Operation)
    (c rest : bytes) (child : Timestamp) :
  Spec.opWellSized op ->
  (depth <= Parser.MAX_DEPTH)%nat ->
  Parser.parseTimestamp fuel c (S depth) = Ok (child, rest) ->
  Parser.parseTimestamp (S fuel) (Writer.writeOperation [] op ++ c) depth =
  Ok (mkTimestamp [] [(op, child)], rest).
Proof.
  intros Hop Hd Hchild. unfold Parser.parseTimestamp at 1.
  replace (Nat.ltb Parser.MAX_DEPTH depth) with false
    by (symmetry; apply Nat.ltb_ge; exact Hd).
  cbn [Parser.parseTimestamp_loop].
  destruct (writeOperation_first op) as (x & tl & E & Hfork & Hatt).
  assert (Hrem : (0 <? Parser.remaining (Writer.writeOperation [] op ++ c)) = true)
    by (rewrite E; reflexivity).
  assert (Hpeek : Parser.peek (Writer.writeOperation [] op ++ c) = Ok x)
    by (rewrite E; reflexivity).
  rewrite Hrem, Hpeek, (byte_eqb_neq _ _ Hfork). cbn [andb].
  unfold Parser.parseTimestampBranch_with.
  rewrite Hpeek. cbn [bind]. rewrite (byte_eqb_neq _ _ Hatt).
  rewrite (parseOperation_writeOperation op c Hop). cbn [bind].
  change (if Nat.ltb Parser.MAX_DEPTH (S depth) then Err Parser.MaxDepthExceeded
          else Parser.parseTimestamp_loop fuel c [] [] (S depth))
    with (Parser.parseTimestamp fuel c (S depth)).
  rewrite Hchild. reflexivity.
Qed.


Variable H : Crypto.HashOracle.
Variable getRandomValue : nat -> byte.
Variable fetch : Http.PostOracle.

(** [stampHash] submits [SHA-256(nonce || fileDigest)] and assembles the
    bodies of the calendars that answered. *)
Lemma stampHash_builds (sha256Hex : string) (fileDigest : bytes) :
  Hex.hexToBytes sha256Hex = Ok fileDigest ->
  List.length fileDigest = 32%nat ->
  successfulResponses fetch (calendarDigestOf H getRandomValue fileDigest) <> [] ->
  stampHash H getRandomValue fetch sha256Hex =
  Ok (buildOts fileDigest (nonceOf getRandomValue)
        (successfulResponses fetch (calendarDigestOf H getRandomValue fileDigest))).
Proof.
  intros Hhex Hlen Hne. unfold stampHash. rewrite Hhex.
  rewrite Uint8Array_set_concat, Hlen. cbn [Nat.eqb negb].
  fold (nonceOf getRandomValue).
  fold (calendarDigestOf H getRandomValue fileDigest).
  revert Hne. unfold successfulResponses, CALENDAR_SERVERS.
  cbn [fold_left flat_map fst snd app].
  destruct (submitToCalendar fetch _ _) as [d1|e1];
    destruct (submitToCalendar fetch _ _) as [d2|e2];
    cbn [fst snd app List.length Nat.eqb]; intros Hne;
    [reflexivity|reflexivity|reflexivity|contradiction].
Qed.


End Stamper.




(** ** Writing and reading back *)

Section Roundtrip.
Import Grammar.

Lemma writeTimestamp_unfold (buf : Writer.ByteBuffer) (atts : list Attestation)
    (chs : list (Operation * Timestamp)) :
  Writer.writeTimestamp buf (mkTimestamp atts chs) =
  let totalBranches := Z.of_nat (List.length atts + List.length chs) in
  fst (Loops.writeChildren totalBranches chs
         (fold_left (Loops.writeAttestationStep totalBranches) atts (buf, 0%Z))).
Proof. reflexivity. Qed.

Lemma writeAttestation_app (buf : Writer.ByteBuffer) (att : Attestation) :
  Writer.writeAttestation buf att = buf ++ Writer.writeAttestation [] att.
Proof.
  destruct att; cbn [Writer.writeAttestation]; unfold Writer.push, Writer.toUint8Array;
    rewrite !extend_app, writeVarbytes_app, (writeVarbytes_app (_ ++ _));
    rewrite <- ?app_assoc; reflexivity.
Qed.

Lemma writeFork_app (total : Z) (buf : Writer.ByteBuffer) (idx : Z) :
  Writer.writeFork total (buf, idx) =
  buf ++ (if (idx <? total - 1)%Z then [TAG_FORK] else []).
Proof.
  unfold Writer.writeFork, Writer.push.
  destruct (idx <? total - 1)%Z; [reflexivity|now rewrite app_nil_r].
Qed.

Lemma writeAttestations_fold (total : Z) (atts : list Attestation) :
  forall (buf : Writer.ByteBuffer) (idx : Z),
    fold_left (Loops.writeAttestationStep total) atts (buf, idx) =
    (buf ++ forkedFrom total idx (map (Writer.writeAttestation []) atts),
     (idx + Z.of_nat (List.length atts))%Z).
Proof.
  induction atts as [|att atts IH]; intros buf idx; cbn [fold_left map forkedFrom].
  - rewrite app_nil_r. f_equal. cbn. lia.
  - unfold Loops.writeAttestationStep at 2. cbn [snd].
    rewrite IH, writeFork_app, writeAttestation_app.
    rewrite <- !app_assoc. f_equal. cbn [List.length]. lia.
Qed.

Lemma forkedFrom_app (total : Z) (es1 es2 : list bytes) :
  forall idx : Z,
    forkedFrom total idx (es1 ++ es2) =
    forkedFrom total idx es1 ++ forkedFrom total (idx + Z.of_nat (List.length es1))%Z es2.
Proof.
  induction es1 as [|e es1 IH]; intros idx; cbn [app forkedFrom List.length].
  - f_equal. lia.
  - rewrite IH. rewrite <- !app_assoc. do 4 f_equal. lia.
Qed.

Lemma forkedFrom_join (total : Z) (es : list bytes) :
  forall idx : Z,
    (idx + Z.of_nat (List.length es))%Z = total ->
    forkedFrom total idx es = joinBranches es.
Proof.
  induction es as [|e es IH]; intros idx Hidx; [reflexivity|].
  cbn [forkedFrom List.length] in *.
  destruct es as [|e' es].
  - replace (idx <? total - 1)%Z with false by (symmetry; apply Z.ltb_ge; cbn in Hidx; lia).
    cbn. now rewrite app_nil_r.
  - replace (idx <? total - 1)%Z with true
      by (symmetry; apply Z.ltb_lt; cbn [List.length] in Hidx; lia).
    rewrite IH by (cbn [List.length] in *; lia). reflexivity.
Qed.

Lemma noPending_node (atts : list Attestation) (chs : list (Operation * Timestamp)) :
  UpgradeSpec.noPending (mkTimestamp atts chs) ->
  Forall (fun a => Parser.isPending a = false) atts /\
  Forall (fun oc => UpgradeSpec.noPending (snd oc)) chs.
Proof.
  unfold UpgradeSpec.noPending. cbn [Spec.attestationsDepthFirst].
  intros Hno. apply Forall_app in Hno. destruct Hno as [Ha Hc]. split; [exact Ha|].
  induction chs as [|oc chs IH]; [constructor|].
  cbn [flat_map] in Hc. apply Forall_app in Hc. destruct Hc as [Hoc Hc].
  constructor; [exact Hoc|now apply IH].
Qed.

(** Without a pending attestation the writer emits the grammar. *)
Lemma writeTimestamp_encodeTimestamp (ts : Timestamp) :
  forall buf : Writer.ByteBuffer,
    UpgradeSpec.noPending ts ->
    Writer.writeTimestamp buf ts = buf ++ encodeTimestamp ts.
Proof.
  induction ts as [atts chs IH] using Timestamp_ind'.
  intros buf Hno. apply noPending_node in Hno. destruct Hno as [Hatts Hchs].
  rewrite writeTimestamp_unfold. cbv zeta.
  set (total := Z.of_nat (List.length atts + List.length chs)).
  rewrite writeAttestations_fold.
  assert (Hkids : forall (l : list (Operation * Timestamp)) (b : Writer.ByteBuffer) (idx : Z),
            Forall (fun oc => forall buf, UpgradeSpec.noPending (snd oc) ->
                      Writer.writeTimestamp buf (snd oc) = buf ++ encodeTimestamp (snd oc)) l ->
            Forall (fun oc => UpgradeSpec.noPending (snd oc)) l ->
            fst (Loops.writeChildren total l (b, idx)) =
            b ++ forkedFrom total idx
                   (map (fun oc => Writer.writeOperation [] (fst oc)
                                     ++ encodeTimestamp (snd oc)) l)).
  { induction l as [|[op child] l IHl]; intros b idx Hih Hnp;
      cbn [Loops.writeChildren map forkedFrom fst snd].
    - now rewrite app_nil_r.
    - inversion Hih as [|? ? Hc Hrest]; subst. inversion Hnp as [|? ? Hn Hnrest]; subst.
      cbn [snd] in Hc, Hn.
      rewrite IHl by assumption.
      rewrite (Hc _ Hn), writeOperation_app, writeFork_app.
      now rewrite <- !app_assoc. }
  rewrite Hkids by assumption.
  rewrite <- app_assoc. f_equal. cbn [encodeTimestamp].
  replace (map (Writer.writeAttestation []) atts) with (map encodeAttestation atts).
  2:{ apply map_ext_in. intros a Ha. rewrite Forall_forall in Hatts.
      specialize (Hatts a Ha). destruct a; try reflexivity. discriminate Hatts. }
  rewrite Z.add_0_l, <- (length_map encodeAttestation atts).
  rewrite <- forkedFrom_app. apply forkedFrom_join.
  rewrite length_app, !length_map. unfold total. lia.
Qed.

(** The round trip of the codec, for the files the writer serializes by the
    grammar: every well-formed file without a pending attestation is read
    back from the bytes [writeOts] produced. *)
Lemma parseOts_writeOts_without_pending (ots : OtsFile) :
  wfOtsFile ots ->
  UpgradeSpec.noPending (timestamp ots) ->
  Parser.parseOts (Writer.writeOts ots) = Ok ots.
Proof.
  intros [Hdigest Hwf] Hno. destruct ots as [hop digest ts]. cbn [hashOp fileDigest timestamp] in *.
  unfold Writer.writeOts, Writer.toUint8Array. cbn [hashOp fileDigest timestamp].
  rewrite writeTimestamp_encodeTimestamp by exact Hno.
  rewrite !extend_app. unfold Writer.push.
  change (Writer.writeVaruint ([] ++ HEADER_MAGIC) 1) with (HEADER_MAGIC ++ [x01]).
  rewrite <- !app_assoc. cbn [app].
  rewrite parseOts_header by exact Hdigest.
  rewrite <- (app_nil_r (encodeTimestamp ts)) at 2.
  rewrite parseTimestamp_encodeTimestamp; [reflexivity|exact Hwf|].
  unfold Parser.fuelFor. lia.
Qed.

End Roundtrip.

Lemma readBytes_length (c : bytes) (n : N) (b c' : bytes) :
  Parser.readBytes c n = Ok (b, c') -> (List.length b <= List.length c)%nat.
Proof.
  unfold Parser.readBytes. destruct (_ <? _); [discriminate|].
  intros E. injection E as <- _. rewrite length_firstn. lia.
Qed.

Lemma readVarbytes_length (c b c' : bytes) :
  Parser.readVarbytes c = Ok (b, c') -> (List.length b < List.length c)%nat.
Proof.
  unfold Parser.readVarbytes, Parser.readVaruint. intros E.
  destruct (Parser.readVaruint_loop c (JInt 0) 0) as [[len c1]|e] eqn:Ev; [|discriminate].
  apply readVaruint_loop_shrinks in Ev. cbn [bind] in E.
  destruct len as [len|]; [|discriminate].
  destruct (1048576 <? len); [discriminate|].
  apply readBytes_length in E. lia.
Qed.

(** What the writer emits for a pending attestation is never read back as
    that attestation: the parser takes the head of the URI for a length, and
    the URI it returns, if any, is shorter.  (A JavaScript string is shorter
    than [2 ^ 53].) *)
Lemma writeAttestation_pending_never_read_back (uri : string) (rest : bytes)
    (att : Attestation) (c' : bytes) :
  N.of_nat (List.length (Writer.TextEncoder_encode uri)) < 2 ^ 53 ->
  Parser.parseAttestation
    (ATT_TAG_PENDING ++ Writer.writeVarbytes [] (Writer.TextEncoder_encode uri) ++ rest) =
    Ok (att, c') ->
  Writer.writeAttestation [] (Pending uri) =
    TAG_ATTESTATION :: ATT_TAG_PENDING
      ++ Writer.writeVarbytes [] (Writer.TextEncoder_encode uri) /\
  att <> Pending uri.
Proof.
  intros Hjs E. split.
  - cbn [Writer.writeAttestation]. unfold Writer.push.
    now rewrite extend_app, writeVarbytes_app, <- writeVarbytes_nil.
  - rewrite parseAttestation_tagged in E by reflexivity.
    destruct (Parser.readVarbytes _) as [[payload c1]|e] eqn:Ep; [|discriminate E].
    assert (Hpayload : payload = Writer.TextEncoder_encode uri).
    { destruct (N.le_gt_cases (N.of_nat (List.length (Writer.TextEncoder_encode uri)))
                  1048576) as [Hle|Hgt].
      - rewrite readVarbytes_writeVarbytes in Ep by exact Hle. now injection Ep as <- _.
      - exfalso. rewrite writeVarbytes_nil, <- app_assoc in Ep.
        unfold Parser.readVarbytes in Ep.
        rewrite readVaruint_writeVaruint in Ep by exact Hjs. cbn [bind] in Ep.
        replace (1048576 <? _) with true in Ep by (symmetry; apply N.ltb_lt; exact Hgt).
        discriminate Ep. }
    subst payload. revert E. compare_tags.
    destruct (Parser.readVarbytes (Writer.TextEncoder_encode uri)) as [[u c2]|e] eqn:Eu;
      [|discriminate].
    apply readVarbytes_length in Eu. intros E Hatt. injection E as E _. subst att.
    injection Hatt as Huri. apply (f_equal Writer.TextEncoder_encode) in Huri.
    unfold Parser.TextDecoder_decode, Writer.TextEncoder_encode in *.
    rewrite list_byte_of_string_of_list_byte in Huri. subst u. lia.
Qed.

(** C1, at the failing input: the pending proof of the upgrade tests.  The
    writer emits the URI behind a single length prefix, the parser unwraps
    two, takes the first character [h] (104) of the URI for the inner length
    and runs out of data. *)
Theorem writeOts_pending_not_read_back :
  Writer.writeAttestation [] (Pending Examples.calendarUri) =
    TAG_ATTESTATION :: ATT_TAG_PENDING
      ++ Writer.writeVarbytes [] (Writer.TextEncoder_encode Examples.calendarUri) /\
  Parser.parseOts (Writer.writeOts Examples.pendingOts) =
    Err Parser.UnexpectedEndOfFile /\
  Parser.parseOts
    (HEADER_MAGIC ++ x01 :: x08 :: repeat x00 32
       ++ Grammar.encodeAttestation (Pending Examples.calendarUri)) =
    Ok Examples.pendingOts.
Proof. repeat split; vm_compute; reflexivity. Qed.

(* ================================================================== *)
(** * hex.ts: encoding and decoding *)

Section HexCodec.

Lemma hexChar_parses (n : N) :
  n < 16 -> Hex.parseHexDigit (Hex.hexChar n) = Some n.
Proof.
  intros Hn. rewrite <- (N2Nat.id n).
  assert (Hk : (N.to_nat n < 16)%nat) by lia.
  revert Hk. generalize (N.to_nat n) as k. intros k Hk.
  do 16 (destruct k as [|k]; [reflexivity|]). lia.
Qed.

Lemma nibbles_of_byte (b : byte) :
  N.shiftr (Byte.to_N b) 4 < 16 /\ N.land (Byte.to_N b) 15 < 16 /\
  u8 (N.lor (N.shiftl (N.shiftr (Byte.to_N b) 4) 4) (N.land (Byte.to_N b) 15)) = b.
Proof. destruct b; vm_compute; repeat split; reflexivity. Qed.

Lemma bytesToHex_string_length (bs : bytes) :
  String.length (Hex.bytesToHex bs) = (2 * List.length bs)%nat.
Proof.
  induction bs as [|b bs IH]; [reflexivity|].
  rewrite bytesToHex_cons. cbn [String.length List.length]. rewrite IH. lia.
Qed.

Lemma hexToBytes_loop_bytesToHex (bs : bytes) :
  forall i : N, Hex.hexToBytes_loop (Hex.bytesToHex bs) i = Ok bs.
Proof.
  induction bs as [|b bs IH]; intros i; [reflexivity|].
  rewrite bytesToHex_cons. cbn [Hex.hexToBytes_loop].
  destruct (nibbles_of_byte b) as (Hhi & Hlo & Hb).
  rewrite (hexChar_parses _ Hhi), (hexChar_parses _ Hlo), IH.
  cbn [bind]. now rewrite Hb.
Qed.

Lemma hexToBytes_of_bytesToHex (bs : bytes) :
  Hex.hexToBytes (Hex.bytesToHex bs) = Ok bs.
Proof.
  unfold Hex.hexToBytes.
  rewrite bytesToHex_string_length.
  replace (N.of_nat (2 * List.length bs) mod 2) with 0.
  - cbn [N.eqb negb]. apply hexToBytes_loop_bytesToHex.
  - rewrite Nat2N.inj_mul. change (N.of_nat 2) with 2.
    rewrite N.mul_comm. now rewrite N.Div0.mod_mul.
Qed.

End HexCodec.

Section HexDecoder.
Import Shape.

Lemma isHexChar_parseHexDigit (c : ascii) :
  isHexChar c = match Hex.parseHexDigit c with Some _ => true | None => false end.
Proof.
  destruct c as [b0 b1 b2 b3 b4 b5 b6 b7].
  destruct b0, b1, b2, b3, b4, b5, b6, b7; reflexivity.
Qed.

Lemma hexChar_isLowerHexChar (b : byte) :
  isLowerHexChar (Hex.hexChar (N.shiftr (Byte.to_N b) 4)) = true /\
  isLowerHexChar (Hex.hexChar (N.land (Byte.to_N b) 15)) = true.
Proof. destruct b; split; reflexivity. Qed.

(** The loop of [hexToBytes] on a string of [2 * n] characters: it decodes
    [n] bytes, or stops at the first pair with a character that is no
    hexadecimal digit. *)
Lemma hexToBytes_loop_pairs (n : nat) :
  forall (hex : string) (i : N),
    String.length hex = (2 * n)%nat ->
    (forallb isHexChar (list_ascii_of_string hex) = true ->
     exists bs, Hex.hexToBytes_loop hex i = Ok bs /\ List.length bs = n) /\
    (forallb isHexChar (list_ascii_of_string hex) = false ->
     exists j : nat,
       (j < n)%nat /\
       Hex.hexToBytes_loop hex i = Err (Hex.InvalidHexCharacter (i + 2 * N.of_nat j)) /\
       forallb isHexChar (firstn (2 * j) (list_ascii_of_string hex)) = true /\
       forallb isHexChar (firstn 2 (skipn (2 * j) (list_ascii_of_string hex))) = false).
Proof.
  induction n as [|n IH]; intros hex i Hlen.
  - destruct hex; [|discriminate]. split; [|discriminate].
    intros _. now exists [].
  - destruct hex as [|h hex]; [cbn in Hlen; lia|].
    destruct hex as [|l rest]; [cbn in Hlen; lia|].
    cbn [String.length] in Hlen.
    assert (Hrest : String.length rest = (2 * n)%nat) by lia.
    destruct (IH rest (i + 2) Hrest) as [IHok IHbad].
    cbn [list_ascii_of_string forallb Hex.hexToBytes_loop].
    rewrite !isHexChar_parseHexDigit.
    destruct (Hex.parseHexDigit h) as [hi|] eqn:Eh.
    + destruct (Hex.parseHexDigit l) as [lo|] eqn:El.
      * cbn [andb]. split.
        -- intros Hall. destruct (IHok Hall) as (bs & -> & Hbs).
           cbn [bind]. eexists. split; [reflexivity|]. cbn [List.length]. lia.
        -- intros Hall. destruct (IHbad Hall) as (j & Hj & -> & Hpre & Hbad).
           exists (S j). split; [lia|]. cbn [bind].
           split; [f_equal; f_equal; lia|].
           replace (2 * S j)%nat with (S (S (2 * j))) by lia.
           cbn [firstn skipn forallb].
           rewrite !isHexChar_parseHexDigit, Eh, El. cbn [andb].
           split; assumption.
      * cbn [andb]. split; [discriminate|]. intros _.
        exists 0%nat. split; [lia|].
        split; [f_equal; f_equal; lia|].
        change (2 * 0)%nat with 0%nat. cbn [firstn skipn forallb]. split; [reflexivity|].
        rewrite !isHexChar_parseHexDigit, Eh, El. reflexivity.
    + cbn [andb]. split; [discriminate|]. intros _.
      exists 0%nat. split; [lia|].
      split; [f_equal; f_equal; lia|].
      change (2 * 0)%nat with 0%nat. cbn [firstn skipn forallb]. split; [reflexivity|].
      rewrite !isHexChar_parseHexDigit, Eh. reflexivity.
Qed.

Lemma even_length_mod (hex : string) :
  (N.of_nat (String.length hex) mod 2 =? 0) = Nat.even (String.length hex).
Proof.
  generalize (String.length hex) as k. intros k.
  destruct (Nat.even k) eqn:E.
  - apply Nat.even_spec in E. destruct E as [m ->].
    rewrite Nat2N.inj_mul. change (N.of_nat 2) with 2.
    rewrite N.mul_comm, N.Div0.mod_mul. reflexivity.
  - assert (Ho : Nat.odd k = true) by (unfold Nat.odd; now rewrite E).
    apply Nat.odd_spec in Ho. destruct Ho as [m ->].
    rewrite Nat2N.inj_add, Nat2N.inj_mul. change (N.of_nat 2) with 2.
    change (N.of_nat 1) with 1.
    rewrite N.add_comm, N.mul_comm, N.Div0.mod_add. reflexivity.
Qed.

(** X1.  [hexToBytes] accepts exactly the strings of an even number of
    hexadecimal digits, in either case.  A string of odd length is refused
    as such whatever it holds; a string of even length with only hexadecimal
    digits gives one byte per pair; any other is refused with the (even)
    offset of the first pair that holds a character that is not a digit. *)
Theorem hexToBytes_accepts_even_hex_strings :
  forall hex : string,
    (Nat.even (String.length hex) = false ->
     Hex.hexToBytes hex = Err Hex.OddLength) /\
    (Nat.even (String.length hex) = true ->
     forallb isHexChar (list_ascii_of_string hex) = true ->
     exists bs,
       Hex.hexToBytes hex = Ok bs /\
       (2 * List.length bs)%nat = String.length hex) /\
    (Nat.even (String.length hex) = true ->
     forallb isHexChar (list_ascii_of_string hex) = false ->
     exists j : nat,
       Hex.hexToBytes hex = Err (Hex.InvalidHexCharacter (2 * N.of_nat j)) /\
       (2 * j < String.length hex)%nat /\
       forallb isHexChar (firstn (2 * j) (list_ascii_of_string hex)) = true /\
       forallb isHexChar (firstn 2 (skipn (2 * j) (list_ascii_of_string hex))) = false).
Proof.
  intros hex. unfold Hex.hexToBytes. rewrite even_length_mod.
  split; [intros ->; reflexivity|].
  split; intros Heven Hall; rewrite Heven; cbn [negb].
  - apply Nat.even_spec in Heven. destruct Heven as [n Hn].
    destruct (hexToBytes_loop_pairs n hex 0 Hn) as [Hok _].
    destruct (Hok Hall) as (bs & E & Hbs).
    exists bs. split; [exact E|]. lia.
  - apply Nat.even_spec in Heven. destruct Heven as [n Hn].
    destruct (hexToBytes_loop_pairs n hex 0 Hn) as [_ Hbad].
    destruct (Hbad Hall) as (j & Hj & E & Hpre & Hat).
    exists j. split; [exact E|]. split; [lia|]. split; assumption.
Qed.

(** X2.  Decoding the hexadecimal text of a byte array gives the byte array
    back: [hexToBytes (bytesToHex bs)] returns [bs], for every [bs].  The
    text has two characters for every byte, all of them lower-case
    hexadecimal digits. *)
Theorem hexToBytes_inverts_bytesToHex :
  forall bs : bytes,
    Hex.hexToBytes (Hex.bytesToHex bs) = Ok bs /\
    String.length (Hex.bytesToHex bs) = (2 * List.length bs)%nat /\
    forallb isLowerHexChar (list_ascii_of_string (Hex.bytesToHex bs)) = true.
Proof.
  intros bs. split; [apply hexToBytes_of_bytesToHex|].
  split; [apply bytesToHex_string_length|].
  induction bs as [|b bs IH]; [reflexivity|].
  rewrite bytesToHex_cons. cbn [list_ascii_of_string forallb].
  destruct (hexChar_isLowerHexChar b) as [-> ->]. exact IH.
Qed.

End HexDecoder.

Lemma hexToBytes_accepts_even_hex_strings_witness :
  Hex.hexToBytes "abc" = Err Hex.OddLength /\
  (exists bs,
      Hex.hexToBytes "AbCd" = Ok bs /\
      (2 * List.length bs)%nat = String.length "AbCd") /\
  (exists j : nat,
      Hex.hexToBytes "00g0" = Err (Hex.InvalidHexCharacter (2 * N.of_nat j)) /\
      (2 * j < String.length "00g0")%nat /\
      forallb Shape.isHexChar (firstn (2 * j) (list_ascii_of_string "00g0")) = true /\
      forallb Shape.isHexChar
        (firstn 2 (skipn (2 * j) (list_ascii_of_string "00g0"))) = false).
Proof.
  split; [|split].
  - apply (proj1 (hexToBytes_accepts_even_hex_strings "abc")). reflexivity.
  - apply (proj1 (proj2 (hexToBytes_accepts_even_hex_strings "AbCd"))); reflexivity.
  - apply (proj2 (proj2 (hexToBytes_accepts_even_hex_strings "00g0"))); reflexivity.
Defined.

(** X3.  [constantTimeEqual] decides equality of byte arrays: it answers
    [true] exactly when the two arrays have the same length and the same
    bytes. *)
Theorem constantTimeEqual_decides_equality :
  forall a b : bytes,
    (Hex.constantTimeEqual a b = true <-> a = b) /\
    (Hex.constantTimeEqual a b = false <-> a <> b).
Proof.
  intros a b. split.
  - apply constantTimeEqual_true_iff.
  - apply constantTimeEqual_false_iff.
Qed.

(* ================================================================== *)
(** * parser.ts and writer.ts: the primitives of the codec *)

Section CodecPrimitives.

(** X4.  [readVaruint] inverts [writeVaruint] on every safe integer:
    [writeVaruint] only appends to its buffer, and reading what it appended
    gives the value back and leaves the cursor on the bytes that follow. *)
Theorem readVaruint_inverts_writeVaruint :
  forall (v : N) (buf rest : bytes),
    v < 2 ^ 53 ->
    Writer.writeVaruint buf v = buf ++ Writer.writeVaruint [] v /\
    Parser.readVaruint (Writer.writeVaruint [] v ++ rest) = Ok (JInt v, rest).
Proof.
  intros v buf rest Hv. split.
  - apply writeVaruint_app.
  - now apply readVaruint_writeVaruint.
Qed.

(** What [readVaruint] consumed, as a prefix of its input. *)
Lemma readVaruint_loop_consumed (c : bytes) :
  forall (value : JsNum) (shift : N) (x : JsNum) (c' : bytes),
    Parser.readVaruint_loop c value shift = Ok (x, c') ->
    exists pre,
      c = pre ++ c' /\ pre <> [] /\
      Parser.readVaruint_loop pre value shift = Ok (x, []).
Proof.
  induction c as [|b c IH]; intros value shift x c' E; [discriminate|].
  cbn [Parser.readVaruint_loop] in E |- *.
  destruct ((56 <=? shift) && (0 <? N.land (Byte.to_N b) 127)) eqn:G1; [discriminate|].
  destruct ((49 <=? shift) && (15 <? N.land (Byte.to_N b) 127)) eqn:G2; [discriminate|].
  destruct (N.land (Byte.to_N b) 128 =? 0) eqn:Estop.
  - injection E as <- <-. exists [b]. split; [reflexivity|]. split; [discriminate|].
    cbn [Parser.readVaruint_loop]. now rewrite G1, G2, Estop.
  - destruct (IH _ _ _ _ E) as (pre & -> & Hne & Epre).
    exists (b :: pre). split; [reflexivity|]. split; [discriminate|].
    cbn [Parser.readVaruint_loop]. now rewrite G1, G2, Estop.
Qed.

(** X5.  A height or a length that [readVaruint] returns is the
    little-endian base-128 value of the seven low bits of the bytes it
    consumed; it consumed at least one byte, and the value is below
    [2 ^ 53]. *)
Theorem readVaruint_decodes_base128 :
  forall (c c' : bytes) (h : N),
    Parser.readVaruint c = Ok (JInt h, c') ->
    exists pre,
      c = pre ++ c' /\ pre <> [] /\
      h = Spec.payloadValue pre /\
      h < 2 ^ 53.
Proof.
  intros c c' h E.
  pose proof (readVaruint_safe c c' h E) as Hsafe.
  destruct (readVaruint_loop_consumed c _ _ _ _ E) as (pre & Hc & Hne & Epre).
  exists pre. repeat split; try assumption.
  apply readVaruint_loop_value in Epre. rewrite Epre.
  change (2 ^ 0) with 1. lia.
Qed.

(** The number of bytes [writeVaruint] emits. *)
Lemma writeVaruint_loop_exact (n : nat) :
  forall (fuel : nat) (v : N),
    (1 <= fuel)%nat ->
    v < 2 ^ N.of_nat fuel ->
    (n = 0%nat \/ 128 ^ N.of_nat n <= v) ->
    v < 128 ^ N.of_nat (S n) ->
    List.length (Writer.writeVaruint_loop fuel [] v) = S n.
Proof.
  induction n as [|n IH]; intros fuel v Hfuel Hv Hlow Hhigh.
  - destruct fuel as [|fuel]; [lia|]. cbn [Writer.writeVaruint_loop].
    change (128 ^ N.of_nat 1) with 128 in Hhigh.
    rewrite (N.div_small v 128) by exact Hhigh. reflexivity.
  - destruct fuel as [|fuel]; [lia|]. cbn [Writer.writeVaruint_loop].
    destruct Hlow as [Hlow|Hlow]; [discriminate|].
    rewrite Nat2N.inj_succ, N.pow_succ_r' in Hlow.
    rewrite (Nat2N.inj_succ (S n)), N.pow_succ_r' in Hhigh.
    rewrite Nat2N.inj_succ, N.pow_succ_r' in Hv.
    assert (Hq1 : 128 ^ N.of_nat n <= v / 128).
    { apply N.div_le_lower_bound; lia. }
    assert (Hq2 : v / 128 < 128 ^ N.of_nat (S n)).
    { apply N.Div0.div_lt_upper_bound. lia. }
    assert (Hq3 : v / 128 < 2 ^ N.of_nat fuel).
    { apply N.Div0.div_lt_upper_bound. lia. }
    assert (Hpos : 0 < 128 ^ N.of_nat n).
    { apply N.neq_0_lt_0, N.pow_nonzero. discriminate. }
    assert (Hq0 : v / 128 <> 0) by lia.
    apply N.eqb_neq in Hq0. rewrite Hq0. cbn [negb].
    rewrite writeVaruint_loop_app. unfold Writer.push.
    rewrite length_app. cbn [List.length app].
    rewrite (IH fuel (v / 128)); [lia| |exact Hq3| |exact Hq2].
    + destruct fuel as [|fuel]; [|lia].
      change (2 ^ N.of_nat 0) with 1 in Hq3. apply N.eqb_neq in Hq0. lia.
    + destruct n as [|n]; [now left|right; exact Hq1].
Qed.

Lemma lt_pow2_size (v : N) : v < 2 ^ N.of_nat (S (N.to_nat (N.size v))).
Proof.
  rewrite Nat2N.inj_succ, N2Nat.id, N.pow_succ_r'.
  pose proof (N.size_gt v) as Hs. lia.
Qed.

(** X6.  [writeVaruint] emits the shortest encoding: one byte for a value
    below 128, and [n + 1] bytes for a value from [128 ^ n] up to
    [128 ^ (n + 1) - 1]. *)
Theorem writeVaruint_shortest_encoding :
  forall (v : N) (n : nat),
    (n = 0%nat \/ 128 ^ N.of_nat n <= v) ->
    v < 128 ^ N.of_nat (S n) ->
    List.length (Writer.writeVaruint [] v) = S n.
Proof.
  intros v n Hlow Hhigh. unfold Writer.writeVaruint.
  apply writeVaruint_loop_exact; [lia|apply lt_pow2_size|exact Hlow|exact Hhigh].
Qed.

(** X7.  [readVarbytes] reads back what [writeVarbytes] wrote as long as
    the data is at most 1 MiB (1048576 bytes); [writeVarbytes] writes
    longer data all the same, and [readVarbytes] then refuses it. *)
Theorem readVarbytes_one_mebibyte_limit :
  forall data rest : bytes,
    (N.of_nat (List.length data) <= 1048576 ->
     Parser.readVarbytes (Writer.writeVarbytes [] data ++ rest) = Ok (data, rest)) /\
    (1048576 < N.of_nat (List.length data) ->
     N.of_nat (List.length data) < 2 ^ 53 ->
     Parser.readVarbytes (Writer.writeVarbytes [] data ++ rest) =
     Err Parser.VarbytesTooLarge).
Proof.
  intros data rest. split.
  - apply readVarbytes_writeVarbytes.
  - intros Hbig Hsafe. unfold Parser.readVarbytes.
    rewrite writeVarbytes_nil, <- app_assoc.
    rewrite readVaruint_writeVaruint by exact Hsafe. cbn [bind].
    apply N.ltb_lt in Hbig. now rewrite Hbig.
Qed.

(** X8.  [parseOperation] inverts [writeOperation]: for every operation
    whose argument is at most 1 MiB, parsing the bytes the writer appended
    gives the operation back and stops right after them. *)
Theorem parseOperation_inverts_writeOperation :
  forall (op : Operation) (buf rest : bytes),
    Spec.opWellSized op ->
    Writer.writeOperation buf op = buf ++ Writer.writeOperation [] op /\
    Parser.parseOperation (Writer.writeOperation [] op ++ rest) = Ok (op, rest).
Proof.
  intros op buf rest Hop. split.
  - apply writeOperation_app.
  - now apply parseOperation_writeOperation.
Qed.

End CodecPrimitives.

Lemma readVaruint_inverts_writeVaruint_witness :
  Writer.writeVaruint [xff] 358391 = [xff] ++ Writer.writeVaruint [] 358391 /\
  Parser.readVaruint (Writer.writeVaruint [] 358391 ++ [x00]) = Ok (JInt 358391, [x00]).
Proof. apply (readVaruint_inverts_writeVaruint 358391 [xff] [x00]). reflexivity. Defined.

Lemma readVaruint_decodes_base128_witness :
  exists pre,
    [xf7; xef; x15; xde] = pre ++ [xde] /\ pre <> [] /\
    358391 = Spec.payloadValue pre /\
    358391 < 2 ^ 53.
Proof.
  apply (readVaruint_decodes_base128 [xf7; xef; x15; xde] [xde] 358391). reflexivity.
Defined.

Lemma writeVaruint_shortest_encoding_witness :
  List.length (Writer.writeVaruint [] 358391) = 3%nat.
Proof.
  apply (writeVaruint_shortest_encoding 358391 2).
  - right. vm_compute. discriminate.
  - reflexivity.
Defined.

Lemma readVarbytes_one_mebibyte_limit_witness :
  Parser.readVarbytes (Writer.writeVarbytes [] [x01; x02] ++ [x03]) =
    Ok ([x01; x02], [x03]) /\
  Parser.readVarbytes
    (Writer.writeVarbytes [] (repeat x00 (N.to_nat 1048577)) ++ [x03]) =
    Err Parser.VarbytesTooLarge.
Proof.
  split.
  - apply (proj1 (readVarbytes_one_mebibyte_limit [x01; x02] [x03])).
    vm_compute. discriminate.
  - apply (proj2 (readVarbytes_one_mebibyte_limit (repeat x00 (N.to_nat 1048577)) [x03]));
      rewrite repeat_length, N2Nat.id; reflexivity.
Defined.

Lemma parseOperation_inverts_writeOperation_witness :
  Writer.writeOperation [xff] (OpAppend [x01; x02]) =
    [xff] ++ Writer.writeOperation [] (OpAppend [x01; x02]) /\
  Parser.parseOperation (Writer.writeOperation [] (OpAppend [x01; x02]) ++ [x00]) =
    Ok (OpAppend [x01; x02], [x00]).
Proof.
  apply (parseOperation_inverts_writeOperation (OpAppend [x01; x02]) [xff] [x00]).
  vm_compute. discriminate.
Defined.

(* ================================================================== *)
(** * parser.ts and writer.ts: attestations and files *)

Section FileCodec.
Import Grammar.

(** X9.  [parseAttestation] inverts [writeAttestation] on every
    attestation but a pending one, within the bounds of the format (a height
    below [2 ^ 53]; an unknown tag of eight bytes that is none of the known
    tags, with a payload of at most 1 MiB): the writer emits the attestation
    marker, and the parser, placed after the marker, gives the attestation
    back and stops at the bytes that follow. *)
Theorem parseAttestation_inverts_writeAttestation :
  forall (att : Attestation) (rest : bytes),
    wfAttestation att ->
    Parser.isPending att = false ->
    exists body,
      Writer.writeAttestation [] att = TAG_ATTESTATION :: body /\
      Parser.parseAttestation (body ++ rest) = Ok (att, rest).
Proof.
  intros att rest Hwf Hnp.
  destruct (parseAttestation_encodeAttestation att rest Hwf) as (body & E & Hparse).
  exists body. split; [|exact Hparse].
  destruct att; try exact E. discriminate Hnp.
Qed.

(** X10.  [parseOts] inverts [writeOts] on every file within the bounds of
    the format that holds no pending attestation, and it does not look at
    what follows the proof: bytes appended to the written file are ignored. *)
Theorem parseOts_inverts_writeOts :
  forall (ots : OtsFile) (extra : bytes),
    wfOtsFile ots ->
    UpgradeSpec.noPending (timestamp ots) ->
    Parser.parseOts (Writer.writeOts ots ++ extra) = Ok ots.
Proof.
  intros ots extra [Hdigest Hwf] Hno. destruct ots as [hop digest ts].
  cbn [hashOp fileDigest timestamp] in *.
  unfold Writer.writeOts, Writer.toUint8Array. cbn [hashOp fileDigest timestamp].
  rewrite writeTimestamp_encodeTimestamp by exact Hno.
  rewrite !extend_app. unfold Writer.push.
  change (Writer.writeVaruint ([] ++ HEADER_MAGIC) 1) with (HEADER_MAGIC ++ [x01]).
  rewrite <- !app_assoc. cbn [app].
  rewrite parseOts_header by exact Hdigest.
  rewrite parseTimestamp_encodeTimestamp; [reflexivity|exact Hwf|].
  unfold Parser.fuelFor. rewrite length_app. lia.
Qed.

End FileCodec.

Section FileParser.

Lemma readVaruint_one (c : bytes) : Parser.readVaruint (x01 :: c) = Ok (JInt 1, c).
Proof. reflexivity. Qed.

Lemma parseHashOp_tag (hop : HashOp) : Parser.parseHashOp (HASH_OP_TO_TAG hop) = Ok hop.
Proof. destruct hop; reflexivity. Qed.

(** X11.  [parseOts] validates the header in order.  Fewer than 31 bytes:
    unexpected end of file.  31 bytes that are not the magic: bad magic
    header.  After the magic, a version other than 1: unsupported version.
    After version 1, a tag that names no hash: unknown hash operation tag.
    After the tag, fewer bytes than the digest of that hash has: unexpected
    end of file. *)
Theorem parseOts_validates_header :
  forall data : bytes,
    ((List.length data < 31)%nat ->
     Parser.parseOts data = Err Parser.UnexpectedEndOfFile) /\
    ((31 <= List.length data)%nat ->
     firstn 31 data <> HEADER_MAGIC ->
     Parser.parseOts data = Err Parser.BadMagicHeader) /\
    (forall (c c' : bytes) (version : JsNum),
        data = HEADER_MAGIC ++ c ->
        Parser.readVaruint c = Ok (version, c') ->
        version <> JInt 1 ->
        Parser.parseOts data = Err (Parser.UnsupportedVersion version)) /\
    (forall (tag : byte) (c : bytes),
        data = HEADER_MAGIC ++ x01 :: tag :: c ->
        TAG_TO_HASH_OP tag = None ->
        Parser.parseOts data = Err (Parser.UnknownHashOperationTag tag)) /\
    (forall (hop : HashOp) (c : bytes),
        data = HEADER_MAGIC ++ x01 :: HASH_OP_TO_TAG hop :: c ->
        N.of_nat (List.length c) < HASH_OP_DIGEST_LEN hop ->
        Parser.parseOts data = Err Parser.UnexpectedEndOfFile).
Proof.
  intros data. repeat split.
  - intros Hshort. unfold Parser.parseOts, Parser.readBytes, Parser.remaining.
    change (N.of_nat (List.length HEADER_MAGIC)) with 31.
    replace (N.of_nat (List.length data) <? 31) with true
      by (symmetry; apply N.ltb_lt; lia).
    reflexivity.
  - intros Hlong Hmagic. unfold Parser.parseOts, Parser.readBytes, Parser.remaining.
    change (N.of_nat (List.length HEADER_MAGIC)) with 31.
    replace (N.of_nat (List.length data) <? 31) with false
      by (symmetry; apply N.ltb_ge; lia).
    cbn [bind]. change (N.to_nat 31) with 31%nat.
    apply constantTimeEqual_false_iff in Hmagic. now rewrite Hmagic.
  - intros c c' version -> Ever Hne. unfold Parser.parseOts.
    rewrite readBytes_app by reflexivity. cbn [bind].
    rewrite constantTimeEqual_refl. cbn [negb]. rewrite Ever. cbn [bind].
    destruct version as [[|[p|p|]]|]; try reflexivity. now elim Hne.
  - intros tag c -> Htag. unfold Parser.parseOts.
    rewrite readBytes_app by reflexivity. cbn [bind].
    rewrite constantTimeEqual_refl. cbn [negb]. rewrite readVaruint_one.
    cbn [bind Parser.readByte]. unfold Parser.parseHashOp. now rewrite Htag.
  - intros hop c -> Hshort. unfold Parser.parseOts.
    rewrite readBytes_app by reflexivity. cbn [bind].
    rewrite constantTimeEqual_refl. cbn [negb]. rewrite readVaruint_one.
    cbn [bind Parser.readByte]. rewrite parseHashOp_tag. cbn [bind].
    unfold Parser.readBytes, Parser.remaining.
    apply N.ltb_lt in Hshort. now rewrite Hshort.
Qed.

Lemma chainBytes_length (ops : list Operation) :
  (List.length ops <= List.length (Chain.chainBytes ops))%nat.
Proof.
  induction ops as [|op ops IH]; [cbn; lia|].
  unfold Chain.chainBytes in *. cbn [map List.concat]. rewrite length_app.
  destruct (writeOperation_first op) as (x & tl & -> & _). cbn [List.length]. lia.
Qed.

(** A path of operations that reaches depth 257 is refused; what follows
    the 257th operation is not read. *)
Lemma parseTimestamp_chain_too_deep (ops : list Operation) :
  forall (rest : bytes) (fuel depth : nat),
    Forall Spec.opWellSized ops ->
    ops <> [] ->
    (depth + List.length ops = 257)%nat ->
    (List.length ops <= fuel)%nat ->
    Parser.parseTimestamp fuel (Chain.chainBytes ops ++ rest) depth =
    Err Parser.MaxDepthExceeded.
Proof.
  induction ops as [|op ops IH]; intros rest fuel depth Hops Hne Hd Hfuel;
    [now elim Hne|].
  cbn [List.length] in Hd, Hfuel. destruct fuel as [|fuel]; [lia|].
  inversion Hops as [|? ? Hop Hops']; subst.
  unfold Chain.chainBytes. cbn [map List.concat]. rewrite <- app_assoc.
  fold (Chain.chainBytes ops).
  unfold Parser.parseTimestamp at 1.
  replace (Nat.ltb Parser.MAX_DEPTH depth) with false
    by (symmetry; apply Nat.ltb_ge; unfold Parser.MAX_DEPTH; lia).
  cbn [Parser.parseTimestamp_loop].
  destruct (writeOperation_first op) as (x & tl & E & Hfork & Hatt).
  set (c := Chain.chainBytes ops ++ rest).
  assert (Hrem : (0 <? Parser.remaining (Writer.writeOperation [] op ++ c)) = true)
    by (rewrite E; reflexivity).
  assert (Hpeek : Parser.peek (Writer.writeOperation [] op ++ c) = Ok x)
    by (rewrite E; reflexivity).
  rewrite Hrem, Hpeek, (byte_eqb_neq _ _ Hfork). cbn [andb].
  unfold Parser.parseTimestampBranch_with.
  rewrite Hpeek. cbn [bind]. rewrite (byte_eqb_neq _ _ Hatt).
  rewrite (parseOperation_writeOperation op c Hop). cbn [bind].
  change (if Nat.ltb Parser.MAX_DEPTH (S depth) then Err Parser.MaxDepthExceeded
          else Parser.parseTimestamp_loop fuel c [] [] (S depth))
    with (Parser.parseTimestamp fuel c (S depth)).
  destruct ops as [|op' ops].
  - cbn [List.length] in Hd. unfold Parser.parseTimestamp.
    replace (Nat.ltb Parser.MAX_DEPTH (S depth)) with true
      by (symmetry; apply Nat.ltb_lt; unfold Parser.MAX_DEPTH; lia).
    reflexivity.
  - subst c. rewrite IH; [reflexivity|exact Hops'|discriminate|lia|lia].
Qed.

(** A path of operations that stays within depth 256 and ends with the
    input is accepted. *)
Lemma parseTimestamp_chain (ops : list Operation) :
  forall (fuel depth : nat),
    Forall Spec.opWellSized ops ->
    (depth + List.length ops <= 256)%nat ->
    (List.length ops < fuel)%nat ->
    Parser.parseTimestamp fuel (Chain.chainBytes ops) depth =
    Ok (Chain.chainOf ops, []).
Proof.
  induction ops as [|op ops IH]; intros fuel depth Hops Hd Hfuel.
  - destruct fuel as [|fuel]; [cbn in Hfuel; lia|].
    apply parseTimestamp_nil. unfold Parser.MAX_DEPTH. cbn in Hd. lia.
  - cbn [List.length] in Hd, Hfuel. destruct fuel as [|fuel]; [lia|].
    inversion Hops as [|? ? Hop Hops']; subst.
    unfold Chain.chainBytes. cbn [map List.concat]. fold (Chain.chainBytes ops).
    cbn [Chain.chainOf fold_right]. fold (Chain.chainOf ops).
    apply parseTimestamp_continuation;
      [exact Hop|unfold Parser.MAX_DEPTH; lia|].
    apply IH; [exact Hops'|lia|lia].
Qed.

(** X12.  The depth limit of the parser sits exactly at 256.  Every tree
    that [parseOts] returns is at most 256 continuations deep.  A file whose
    proof is one path of 256 operations is accepted, with the tree that is
    that path; a file in which 257 operations follow one another is refused
    for exceeding the maximum depth, whatever comes after them. *)
Theorem parseOts_depth_limit :
  (forall (data : bytes) (ots : OtsFile),
      Parser.parseOts data = Ok ots ->
      (Spec.treeDepth (timestamp ots) <= 256)%nat) /\
  (forall (hop : HashOp) (digest : bytes) (ops : list Operation) (rest : bytes),
      N.of_nat (List.length digest) = HASH_OP_DIGEST_LEN hop ->
      Forall Spec.opWellSized ops ->
      (List.length ops = 256%nat ->
       Parser.parseOts
         (HEADER_MAGIC ++ x01 :: HASH_OP_TO_TAG hop :: digest ++ Chain.chainBytes ops) =
       Ok (mkOtsFile hop digest (Chain.chainOf ops))) /\
      (List.length ops = 257%nat ->
       Parser.parseOts
         (HEADER_MAGIC ++ x01 :: HASH_OP_TO_TAG hop :: digest
            ++ Chain.chainBytes ops ++ rest) =
       Err Parser.MaxDepthExceeded)).
Proof.
  split; [exact parseOts_depth|].
  intros hop digest ops rest Hdigest Hops. split; intros Hlen.
  - rewrite parseOts_header by exact Hdigest.
    rewrite parseTimestamp_chain; [reflexivity|exact Hops|lia|].
    unfold Parser.fuelFor. pose proof (chainBytes_length ops). lia.
  - rewrite parseOts_header by exact Hdigest.
    rewrite parseTimestamp_chain_too_deep; [reflexivity|exact Hops| |lia|].
    + intros ->. discriminate Hlen.
    + unfold Parser.fuelFor. rewrite length_app.
      pose proof (chainBytes_length ops). lia.
Qed.

End FileParser.

Lemma parseAttestation_inverts_writeAttestation_witness :
  exists body,
    Writer.writeAttestation [] (Bitcoin 358391) = TAG_ATTESTATION :: body /\
    Parser.parseAttestation (body ++ [xff]) = Ok (Bitcoin 358391, [xff]).
Proof.
  apply (parseAttestation_inverts_writeAttestation (Bitcoin 358391) [xff]);
    reflexivity.
Defined.

Lemma parseOts_inverts_writeOts_witness :
  Parser.parseOts (Writer.writeOts Examples.completeOts ++ [xde; xad]) =
  Ok Examples.completeOts.
Proof.
  apply (parseOts_inverts_writeOts Examples.completeOts [xde; xad]).
  - split; [reflexivity|].
    cbn. split; [unfold Parser.MAX_DEPTH; lia|].
    split; [left; discriminate|].
    split; [|exact I].
    constructor; [reflexivity|constructor].
  - constructor; [reflexivity|constructor].
Defined.

Lemma parseOts_validates_header_witness :
  Parser.parseOts [x00; x4f] = Err Parser.UnexpectedEndOfFile /\
  Parser.parseOts (repeat x00 31) = Err Parser.BadMagicHeader /\
  Parser.parseOts (HEADER_MAGIC ++ [x02]) = Err (Parser.UnsupportedVersion (JInt 2)) /\
  Parser.parseOts (HEADER_MAGIC ++ [x01; x09]) =
    Err (Parser.UnknownHashOperationTag x09) /\
  Parser.parseOts (HEADER_MAGIC ++ [x01; x08; xaa]) = Err Parser.UnexpectedEndOfFile.
Proof.
  split; [|split; [|split; [|split]]].
  - apply (proj1 (parseOts_validates_header [x00; x4f])). cbn. lia.
  - apply (proj1 (proj2 (parseOts_validates_header (repeat x00 31)))).
    + cbn. lia.
    + discriminate.
  - apply (proj1 (proj2 (proj2 (parseOts_validates_header (HEADER_MAGIC ++ [x02]))))
             [x02] [] (JInt 2)); [reflexivity|reflexivity|discriminate].
  - apply (proj1 (proj2 (proj2 (proj2
             (parseOts_validates_header (HEADER_MAGIC ++ [x01; x09])))))
             x09 []); reflexivity.
  - apply (proj2 (proj2 (proj2 (proj2
             (parseOts_validates_header (HEADER_MAGIC ++ [x01; x08; xaa])))))
             sha256 [xaa]); reflexivity.
Defined.

Lemma parseOts_depth_limit_witness :
  (Spec.treeDepth (mkTimestamp [Bitcoin 358391] []) <= 256)%nat /\
  Parser.parseOts
    (HEADER_MAGIC ++ x01 :: x08 :: repeat xaa 32
       ++ Chain.chainBytes (repeat OpSha256 256)) =
    Ok (mkOtsFile sha256 (repeat xaa 32) (Chain.chainOf (repeat OpSha256 256))) /\
  Parser.parseOts
    (HEADER_MAGIC ++ x01 :: x08 :: repeat xaa 32
       ++ Chain.chainBytes (repeat OpSha256 257) ++ [x00]) =
    Err Parser.MaxDepthExceeded.
Proof.
  assert (Hops : forall n, Forall Spec.opWellSized (repeat OpSha256 n)).
  { intros n. apply Forall_forall. intros op Hin.
    apply repeat_spec in Hin. subst op. exact I. }
  split; [|split].
  - apply (proj1 parseOts_depth_limit Examples.helloWorldLikeOts
             (mkOtsFile sha256 (repeat xaa 32) (mkTimestamp [Bitcoin 358391] []))).
    reflexivity.
  - apply (proj1 (proj2 parseOts_depth_limit sha256 (repeat xaa 32)
                    (repeat OpSha256 256) [] eq_refl (Hops 256%nat))).
    apply repeat_length.
  - apply (proj2 (proj2 parseOts_depth_limit sha256 (repeat xaa 32)
                    (repeat OpSha256 257) [x00] eq_refl (Hops 257%nat))).
    apply repeat_length.
Defined.

(* ================================================================== *)
(** * parser.ts: the tree utilities *)

Section TreeUtilities.
Import Shape.

Lemma countAttestations_unfold (atts : list Attestation)
    (chs : list (Operation * Timestamp)) :
  Parser.countAttestations (mkTimestamp atts chs) =
  TreeLoops.countChildren chs (N.of_nat (List.length atts)).
Proof. reflexivity. Qed.

Lemma hasPending_unfold (atts : list Attestation) (chs : list (Operation * Timestamp)) :
  Parser.hasPending (mkTimestamp atts chs) =
  if existsb Parser.isPending atts then true else TreeLoops.hasPendingChild chs.
Proof. reflexivity. Qed.

Lemma findBitcoinHeight_unfold (atts : list Attestation)
    (chs : list (Operation * Timestamp)) :
  Parser.findBitcoinHeight (mkTimestamp atts chs) =
  match TreeLoops.firstBitcoin atts with
  | Some h => Some h
  | None => TreeLoops.firstBitcoinBelow chs
  end.
Proof. reflexivity. Qed.

(** X13.  [countAttestations] is the number of attestations of the whole
    tree: those of the node and those below every continuation. *)
Theorem countAttestations_counts_every_attestation :
  forall ts : Timestamp,
    Parser.countAttestations ts =
    N.of_nat (List.length (Spec.attestationsDepthFirst ts)).
Proof.
  induction ts as [atts chs IH] using Timestamp_ind'.
  rewrite countAttestations_unfold. cbn [Spec.attestationsDepthFirst].
  rewrite length_app, Nat2N.inj_add.
  generalize (N.of_nat (List.length atts)) as count.
  induction chs as [|[op child] chs IHchs]; intros count.
  - cbn. lia.
  - inversion IH as [|? ? IHchild IHrest]; subst. cbn [snd] in IHchild.
    cbn [TreeLoops.countChildren flat_map snd].
    rewrite (IHchs IHrest), IHchild, length_app, Nat2N.inj_add. lia.
Qed.

(** X14.  [hasPending] answers whether some attestation of the tree is a
    pending one, and the private copy of it in [upgrade.ts],
    [hasPendingAttestation], answers the same on every tree. *)
Theorem hasPending_finds_any_pending :
  forall ts : Timestamp,
    Parser.hasPending ts =
      existsb Parser.isPending (Spec.attestationsDepthFirst ts) /\
    Upgrade.hasPendingAttestation ts = Parser.hasPending ts.
Proof.
  assert (Hspec : forall ts,
             Parser.hasPending ts =
             existsb Parser.isPending (Spec.attestationsDepthFirst ts)).
  { induction ts as [atts chs IH] using Timestamp_ind'.
    rewrite hasPending_unfold. cbn [Spec.attestationsDepthFirst].
    rewrite existsb_app. destruct (existsb Parser.isPending atts); [reflexivity|].
    cbn [orb].
    induction chs as [|[op child] chs IHchs]; [reflexivity|].
    inversion IH as [|? ? IHchild IHrest]; subst. cbn [snd] in IHchild.
    cbn [TreeLoops.hasPendingChild flat_map snd]. rewrite existsb_app, <- IHchild.
    destruct (Parser.hasPending child); [reflexivity|].
    cbn [orb]. now apply IHchs. }
  intros ts. split; [apply Hspec|].
  now rewrite Hspec, hasPendingAttestation_spec.
Qed.

Lemma firstBitcoin_spec (atts : list Attestation) :
  TreeLoops.firstBitcoin atts = hd_error (bitcoinHeights atts).
Proof.
  induction atts as [|[h|h|h|uri|tag payload] atts IH]; cbn; try exact IH; reflexivity.
Qed.

Lemma hd_error_app {A : Type} (l l' : list A) :
  hd_error (l ++ l') = match hd_error l with Some x => Some x | None => hd_error l' end.
Proof. destruct l; reflexivity. Qed.

(** X15.  [findBitcoinHeight] returns the height of the first Bitcoin
    attestation in depth-first order (the attestations of a node before
    those below its continuations), and [null] exactly when the tree holds
    no Bitcoin attestation. *)
Theorem findBitcoinHeight_first_in_depth_first_order :
  forall ts : Timestamp,
    Parser.findBitcoinHeight ts =
    hd_error (bitcoinHeights (Spec.attestationsDepthFirst ts)).
Proof.
  induction ts as [atts chs IH] using Timestamp_ind'.
  rewrite findBitcoinHeight_unfold. cbn [Spec.attestationsDepthFirst].
  unfold bitcoinHeights at 1. rewrite flat_map_app. fold (bitcoinHeights atts).
  rewrite hd_error_app, firstBitcoin_spec.
  destruct (hd_error (bitcoinHeights atts)); [reflexivity|].
  induction chs as [|[op child] chs IHchs]; [reflexivity|].
  inversion IH as [|? ? IHchild IHrest]; subst. cbn [snd] in IHchild.
  cbn [TreeLoops.firstBitcoinBelow flat_map snd].
  rewrite flat_map_app, hd_error_app. fold (bitcoinHeights (Spec.attestationsDepthFirst child)).
  rewrite <- IHchild.
  destruct (Parser.findBitcoinHeight child); [reflexivity|].
  now apply IHchs.
Qed.

End TreeUtilities.

(* ================================================================== *)
(** * operations.ts and verify.ts *)

Section VerifierFacts.
Import Operations Verify Shape.
Variable H : Crypto.HashOracle.
Variable getBlockInfo : Bitcoin.BlockOracle.

(** [hashContents] computes what [applyOperation] computes for the hash
    operation of the same name, and fails as it does for Keccak-256. *)
Lemma hashContents_agrees_with_applyOperation :
  forall (data : bytes) (hashOp : HashOp),
    hashContents H data hashOp = applyOperation H (hashOperation hashOp) data.
Proof. intros data hashOp. destruct hashOp; reflexivity. Qed.

Lemma merkleRootToLeBytes_ok (hexBe : string) (msg : bytes) :
  Bitcoin.merkleRootToLeBytes hexBe = Ok msg <-> Hex.hexToBytes hexBe = Ok (rev msg).
Proof.
  unfold Bitcoin.merkleRootToLeBytes.
  destruct (Hex.hexToBytes hexBe) as [bs|e]; split; intros E; try discriminate.
  - injection E as <-. now rewrite rev_involutive.
  - injection E as ->. now rewrite rev_involutive.
Qed.

Lemma verifyBitcoin_lookup (height : N) (msg : bytes) (w : Lookups) :
  snd (verifyBitcoin getBlockInfo height msg w) = w ++ [height].
Proof.
  unfold verifyBitcoin.
  destruct (getBlockInfo height) as [info|e]; [|reflexivity].
  destruct (Bitcoin.merkleRootToLeBytes (Bitcoin.merkleRoot info)) as [le|e];
    [|reflexivity].
  destruct (Hex.constantTimeEqual msg le); reflexivity.
Qed.

(** X16.  [verifyBitcoin] asks the block explorer once, for the height of
    the attestation, and reports [verified] exactly when the explorer has
    the block and the merkle root it gives, decoded from hexadecimal, is
    the message in reverse byte order; the block hash and the time it
    reports are then the explorer's. *)
Theorem verifyBitcoin_verified_iff :
  forall (height : N) (msg : bytes) (w : Lookups),
    snd (verifyBitcoin getBlockInfo height msg w) = w ++ [height] /\
    forall (h : N) (bh : string) (bt : N),
      fst (verifyBitcoin getBlockInfo height msg w) = Verified h bh bt <->
      h = height /\
      exists info,
        getBlockInfo height = Ok info /\
        Hex.hexToBytes (Bitcoin.merkleRoot info) = Ok (rev msg) /\
        bh = Bitcoin.blockHash info /\
        bt = Bitcoin.timestamp info.
Proof.
  intros height msg w. unfold verifyBitcoin.
  destruct (getBlockInfo height) as [info|e] eqn:Einfo.
  - destruct (Bitcoin.merkleRootToLeBytes (Bitcoin.merkleRoot info)) as [le|e] eqn:Ele.
    + destruct (Hex.constantTimeEqual msg le) eqn:Eeq; cbn [fst snd];
        (split; [reflexivity|]); intros h bh bt; split.
      * intros E. injection E as <- <- <-. split; [reflexivity|].
        exists info. apply constantTimeEqual_true_iff in Eeq. subst le.
        apply merkleRootToLeBytes_ok in Ele. now repeat split.
      * intros (-> & info' & E1 & E2 & -> & ->).
        injection E1 as <-. reflexivity.
      * discriminate.
      * intros (-> & info' & E1 & E2 & -> & ->). injection E1 as <-.
        apply merkleRootToLeBytes_ok in E2. rewrite E2 in Ele. injection Ele as <-.
        rewrite constantTimeEqual_refl in Eeq. discriminate.
    + cbn [fst snd]. split; [reflexivity|]. intros h bh bt. split; [discriminate|].
      intros (-> & info' & E1 & E2 & -> & ->). injection E1 as <-.
      apply merkleRootToLeBytes_ok in E2. congruence.
  - cbn [fst snd]. split; [reflexivity|]. intros h bh bt. split; [discriminate|].
    intros (-> & info' & E1 & _). discriminate.
Qed.

Lemma checkAttestation_lookups (att : Attestation) (msg : bytes) (w : Lookups) :
  snd (checkAttestation getBlockInfo att msg w) = w ++ bitcoinHeights [att].
Proof.
  destruct att; cbn [checkAttestation snd bitcoinHeights flat_map app];
    rewrite ?app_nil_r; try reflexivity.
  apply verifyBitcoin_lookup.
Qed.


Lemma bitcoinHeights_app (l l' : list Attestation) :
  bitcoinHeights (l ++ l') = bitcoinHeights l ++ bitcoinHeights l'.
Proof. apply flat_map_app. Qed.

Lemma walkAttestations_lookups (msg : bytes) (atts : list Attestation) :
  forall st : WalkState,
    snd (fold_left (Loops.walkAttestation getBlockInfo msg) atts st) =
    snd st ++ bitcoinHeights atts.
Proof.
  induction atts as [|att atts IH]; intros st; cbn [fold_left].
  - cbn. now rewrite app_nil_r.
  - rewrite IH. unfold Loops.walkAttestation.
    pose proof (checkAttestation_lookups att msg (snd st)) as Hl.
    destruct (checkAttestation getBlockInfo att msg (snd st)) as [r w'].
    cbn [snd] in *. rewrite Hl, <- app_assoc.
    change (att :: atts) with ([att] ++ atts). now rewrite bitcoinHeights_app.
Qed.

Lemma heightsAsked_unfold (atts : list Attestation) (chs : list (Operation * Timestamp))
    (msg : bytes) (depth : nat) :
  WalkSpec.heightsAsked H (mkTimestamp atts chs) msg depth =
  if Nat.ltb MAX_DEPTH depth then []
  else
    bitcoinHeights atts
    ++ flat_map (fun oc =>
                   match applyOperation H (fst oc) msg with
                   | Ok newMsg => WalkSpec.heightsAsked H (snd oc) newMsg (S depth)
                   | Err _ => []
                   end) chs.
Proof. reflexivity. Qed.

(** The log of a walk: what it was, then the heights asked, in order. *)
Lemma walkTimestamp_lookups :
  forall (ts : Timestamp) (msg : bytes) (depth : nat) (w : Lookups),
    snd (walkTimestamp H getBlockInfo ts msg depth w) =
    w ++ WalkSpec.heightsAsked H ts msg depth.
Proof.
  induction ts as [atts chs IH] using Timestamp_ind'.
  intros msg depth w. rewrite walkTimestamp_unfold, heightsAsked_unfold.
  destruct (Nat.ltb MAX_DEPTH depth); [cbn; now rewrite app_nil_r|].
  rewrite app_assoc.
  pose proof (walkAttestations_lookups msg atts ([], w)) as Ha.
  cbn [snd] in Ha. rewrite <- Ha. clear Ha.
  generalize (fold_left (Loops.walkAttestation getBlockInfo msg) atts ([], w)).
  induction chs as [|[op child] chs IHchs]; intros st;
    cbn [flat_map Loops.walkChildren fst snd].
  - now rewrite app_nil_r.
  - inversion IH as [|? ? IHchild IHrest]; subst. cbn [snd] in IHchild.
    destruct (applyOperation H op msg) as [newMsg|e].
    + pose proof (IHchild newMsg (S depth) (snd st)) as Hc.
      destruct (walkTimestamp H getBlockInfo child newMsg (S depth) (snd st))
        as [childResults w'].
      cbn [snd] in Hc. rewrite (IHchs IHrest). cbn [snd]. rewrite Hc.
      now rewrite <- app_assoc.
    + rewrite (IHchs IHrest). reflexivity.
Qed.

Lemma heightsAsked_incl :
  forall (ts : Timestamp) (msg : bytes) (depth : nat),
    incl (WalkSpec.heightsAsked H ts msg depth)
      (bitcoinHeights (Spec.attestationsDepthFirst ts)).
Proof.
  induction ts as [atts chs IH] using Timestamp_ind'.
  intros msg depth. rewrite heightsAsked_unfold. cbn [Spec.attestationsDepthFirst].
  destruct (Nat.ltb MAX_DEPTH depth); [intros x []|].
  rewrite bitcoinHeights_app. apply incl_app_app; [apply incl_refl|].
  induction chs as [|[op child] chs IHchs]; [intros x []|].
  inversion IH as [|? ? IHchild IHrest]; subst. cbn [snd] in IHchild.
  cbn [flat_map fst snd]. rewrite bitcoinHeights_app.
  apply incl_app_app; [|now apply IHchs].
  destruct (applyOperation H op msg) as [newMsg|e]; [apply IHchild|intros x []].
Qed.

Lemma heightsAsked_all :
  forall (ts : Timestamp) (msg : bytes) (depth : nat),
    Spec.everyOperationApplies ts = true ->
    (depth + Spec.treeDepth ts <= MAX_DEPTH)%nat ->
    WalkSpec.heightsAsked H ts msg depth =
    bitcoinHeights (Spec.attestationsDepthFirst ts).
Proof.
  induction ts as [atts chs IH] using Timestamp_ind'.
  intros msg depth Hops Hdepth. rewrite heightsAsked_unfold.
  replace (Nat.ltb MAX_DEPTH depth) with false by (symmetry; apply Nat.ltb_ge; lia).
  cbn [Spec.attestationsDepthFirst]. rewrite bitcoinHeights_app. f_equal.
  cbn [Spec.everyOperationApplies Spec.treeDepth] in Hops, Hdepth.
  induction chs as [|[op child] chs IHchs]; [reflexivity|].
  inversion IH as [|? ? IHchild IHrest]; subst. cbn [snd] in IHchild.
  cbn [forallb fold_right fst snd] in Hops, Hdepth.
  apply andb_true_iff in Hops. destruct Hops as [Hop Hops].
  apply andb_true_iff in Hop. destruct Hop as [Hk Hchild].
  cbn [flat_map fst snd]. rewrite bitcoinHeights_app.
  rewrite (IHchs IHrest Hops) by lia. f_equal.
  rewrite applyOperation_reference.
  destruct op; try discriminate Hk; cbn [Spec.applyReference];
    apply IHchild; (exact Hchild || lia).
Qed.

(** X17.  A walk of the proof tree only appends to the log of block
    lookups, and every height it asks for is the height of a Bitcoin
    attestation of the tree: a proof without Bitcoin attestations is walked
    without any lookup.  When every operation can be applied and the tree is
    within the depth limit, the heights asked are those of all the Bitcoin
    attestations, one lookup each, in depth-first order. *)
Theorem walkTimestamp_asks_for_bitcoin_heights :
  forall (ts : Timestamp) (msg : bytes) (depth : nat) (w : Lookups),
    (exists asked,
        snd (walkTimestamp H getBlockInfo ts msg depth w) = w ++ asked /\
        incl asked (bitcoinHeights (Spec.attestationsDepthFirst ts))) /\
    (bitcoinHeights (Spec.attestationsDepthFirst ts) = [] ->
     snd (walkTimestamp H getBlockInfo ts msg depth w) = w) /\
    (Spec.everyOperationApplies ts = true ->
     (depth + Spec.treeDepth ts <= 256)%nat ->
     snd (walkTimestamp H getBlockInfo ts msg depth w) =
     w ++ bitcoinHeights (Spec.attestationsDepthFirst ts)).
Proof.
  intros ts msg depth w. rewrite walkTimestamp_lookups.
  split; [|split].
  - eexists. split; [reflexivity|]. apply heightsAsked_incl.
  - intros Hnone. pose proof (heightsAsked_incl ts msg depth) as Hincl.
    rewrite Hnone in Hincl.
    destruct (WalkSpec.heightsAsked H ts msg depth) as [|h l];
      [now rewrite app_nil_r|].
    destruct (Hincl h (or_introl eq_refl)).
  - intros Hops Hdepth. now rewrite heightsAsked_all.
Qed.

Lemma checkAttestation_notDepthError (att : Attestation) (msg : bytes) (w : Lookups) :
  WalkSpec.notDepthError (fst (checkAttestation getBlockInfo att msg w)).
Proof.
  destruct att; cbn [checkAttestation fst]; try discriminate.
  unfold verifyBitcoin.
  destruct (getBlockInfo height) as [info|e]; [|discriminate].
  destruct (Bitcoin.merkleRootToLeBytes (Bitcoin.merkleRoot info)) as [le|e];
    [|discriminate].
  destruct (Hex.constantTimeEqual msg le); discriminate.
Qed.

Lemma walkAttestations_notDepthError (msg : bytes) (atts : list Attestation) :
  forall st : WalkState,
    Forall WalkSpec.notDepthError (fst st) ->
    Forall WalkSpec.notDepthError (fst (fold_left (Loops.walkAttestation getBlockInfo msg) atts st)).
Proof.
  induction atts as [|att atts IH]; intros st Hst; cbn [fold_left]; [exact Hst|].
  apply IH. unfold Loops.walkAttestation.
  pose proof (checkAttestation_notDepthError att msg (snd st)) as Hr.
  destruct (checkAttestation getBlockInfo att msg (snd st)) as [r w'].
  cbn [fst] in *. apply Forall_app. split; [exact Hst|]. now constructor.
Qed.

Lemma walkTimestamp_notDepthError :
  forall (ts : Timestamp) (msg : bytes) (depth : nat) (w : Lookups),
    (depth + Spec.treeDepth ts <= MAX_DEPTH)%nat ->
    Forall WalkSpec.notDepthError (fst (walkTimestamp H getBlockInfo ts msg depth w)).
Proof.
  induction ts as [atts chs IH] using Timestamp_ind'.
  intros msg depth w Hdepth. rewrite walkTimestamp_unfold.
  replace (Nat.ltb MAX_DEPTH depth) with false by (symmetry; apply Nat.ltb_ge; lia).
  cbn [Spec.treeDepth] in Hdepth.
  pose proof (walkAttestations_notDepthError msg atts ([], w) (Forall_nil _)) as Hatts.
  revert Hatts.
  generalize (fold_left (Loops.walkAttestation getBlockInfo msg) atts ([], w)).
  induction chs as [|[op child] chs IHchs]; intros st Hst;
    cbn [Loops.walkChildren]; [exact Hst|].
  inversion IH as [|? ? IHchild IHrest]; subst. cbn [snd] in IHchild.
  cbn [fold_right snd] in Hdepth.
  destruct (applyOperation H op msg) as [newMsg|e].
  - pose proof (IHchild newMsg (S depth) (snd st) ltac:(lia)) as Hc.
    destruct (walkTimestamp H getBlockInfo child newMsg (S depth) (snd st))
      as [childResults w'].
    cbn [fst] in Hc. apply (IHchs IHrest); [lia|].
    cbn [fst]. apply Forall_app. now split.
  - apply (IHchs IHrest); [lia|].
    cbn [fst]. apply Forall_app. split; [exact Hst|].
    constructor; [discriminate|constructor].
Qed.

(** X18.  The depth check of the verifier never fires on a parsed proof:
    whatever [verifyFile] or [verifyDigest] returns, no result is the error
    for a proof tree that exceeds the maximum depth, since the parser has
    refused such a tree before. *)
Theorem verify_never_reports_depth_error :
  forall (otsData : bytes) (w : Lookups),
    (forall (fileData : bytes) (results : list VerifyResult),
        fst (verifyFile H getBlockInfo fileData otsData w) = Ok results ->
        ~ In (VError ProofTreeExceedsMaximumDepth) results) /\
    (forall (digestHex : string) (results : list VerifyResult),
        fst (verifyDigest H getBlockInfo digestHex otsData w) = Ok results ->
        ~ In (VError ProofTreeExceedsMaximumDepth) results).
Proof.
  intros otsData w.
  assert (Hwalk : forall ots results,
             Parser.parseOts otsData = Ok ots ->
             fst (walkTimestamp H getBlockInfo (timestamp ots) (fileDigest ots) 0 w) =
               results ->
             ~ In (VError ProofTreeExceedsMaximumDepth) results).
  { intros ots results Eots <- Hin.
    pose proof (parseOts_depth otsData ots Eots) as Hd.
    pose proof (walkTimestamp_notDepthError (timestamp ots) (fileDigest ots) 0 w
                  ltac:(cbn; exact Hd)) as Hall.
    rewrite Forall_forall in Hall. now apply (Hall _ Hin). }
  split.
  - intros fileData results. unfold verifyFile.
    destruct (Parser.parseOts otsData) as [ots|e] eqn:Eots; [|discriminate].
    destruct (hashContents H fileData (hashOp ots)) as [d|e]; [|discriminate].
    destruct (negb _); [discriminate|].
    destruct (walkTimestamp H getBlockInfo (timestamp ots) (fileDigest ots) 0 w)
      as [rs w'] eqn:Ew.
    cbn [fst]. intros E. injection E as <-.
    apply (Hwalk ots rs eq_refl). now rewrite Ew.
  - intros digestHex results. unfold verifyDigest.
    destruct (Parser.parseOts otsData) as [ots|e] eqn:Eots; [|discriminate].
    destruct (Hex.hexToBytes digestHex) as [d|e]; [|discriminate].
    destruct (negb _); [discriminate|].
    destruct (walkTimestamp H getBlockInfo (timestamp ots) (fileDigest ots) 0 w)
      as [rs w'] eqn:Ew.
    cbn [fst]. intros E. injection E as <-.
    apply (Hwalk ots rs eq_refl). now rewrite Ew.
Qed.

(** X19.  [verifyDigest], given the hexadecimal text of the digest of a
    file, returns what [verifyFile] returns for the file when the digest is
    the one stored in the proof; when it is not, each throws its own
    mismatch error, before any block lookup. *)
Theorem verifyDigest_agrees_with_verifyFile :
  forall (fileData otsData : bytes) (w : Lookups) (ots : OtsFile) (d : bytes),
    Parser.parseOts otsData = Ok ots ->
    hashContents H fileData (hashOp ots) = Ok d ->
    (d = fileDigest ots ->
     verifyDigest H getBlockInfo (Hex.bytesToHex d) otsData w =
       verifyFile H getBlockInfo fileData otsData w /\
     exists results,
       fst (verifyFile H getBlockInfo fileData otsData w) = Ok results) /\
    (d <> fileDigest ots ->
     verifyFile H getBlockInfo fileData otsData w =
       (Err (FileDigestMismatch (Hex.bytesToHex (fileDigest ots)) (Hex.bytesToHex d)), w) /\
     verifyDigest H getBlockInfo (Hex.bytesToHex d) otsData w =
       (Err (DigestMismatch (Hex.bytesToHex (fileDigest ots)) (Hex.bytesToHex d)), w)).
Proof.
  intros fileData otsData w ots d Eots Ehash.
  unfold verifyFile, verifyDigest.
  rewrite Eots, Ehash, hexToBytes_of_bytesToHex.
  split.
  - intros ->. rewrite constantTimeEqual_refl. cbn [negb].
    split; [reflexivity|].
    destruct (walkTimestamp H getBlockInfo (timestamp ots) (fileDigest ots) 0 w)
      as [rs w']. now exists rs.
  - intros Hne. apply constantTimeEqual_false_iff in Hne. rewrite Hne. cbn [negb].
    split; reflexivity.
Qed.

(** X20.  When [verifyFile] or [verifyDigest] throws (the proof does not
    parse, the hash is not supported, the digest text is not hexadecimal, or
    the digest differs), no block has been looked up. *)
Theorem verify_throws_before_any_lookup :
  forall (otsData : bytes) (w : Lookups),
    (forall (fileData : bytes) (e : VerifyThrown),
        fst (verifyFile H getBlockInfo fileData otsData w) = Err e ->
        snd (verifyFile H getBlockInfo fileData otsData w) = w) /\
    (forall (digestHex : string) (e : VerifyThrown),
        fst (verifyDigest H getBlockInfo digestHex otsData w) = Err e ->
        snd (verifyDigest H getBlockInfo digestHex otsData w) = w).
Proof.
  intros otsData w. split.
  - intros fileData e. unfold verifyFile.
    destruct (Parser.parseOts otsData) as [ots|e']; [|reflexivity].
    destruct (hashContents H fileData (hashOp ots)) as [d|e']; [|reflexivity].
    destruct (negb _); [reflexivity|].
    destruct (walkTimestamp H getBlockInfo (timestamp ots) (fileDigest ots) 0 w)
      as [rs w']. discriminate.
  - intros digestHex e. unfold verifyDigest.
    destruct (Parser.parseOts otsData) as [ots|e']; [|reflexivity].
    destruct (Hex.hexToBytes digestHex) as [d|e']; [|reflexivity].
    destruct (negb _); [reflexivity|].
    destruct (walkTimestamp H getBlockInfo (timestamp ots) (fileDigest ots) 0 w)
      as [rs w']. discriminate.
Qed.

(** X21.  A proof whose header names Keccak-256 is parsed, but it cannot be
    verified against a file: [verifyFile] throws "Keccak256 is not
    supported" for every file, without a lookup.  [verifyDigest] does not
    hash, and walks the same proof when given the stored digest. *)
Theorem verifyFile_keccak256_header_unsupported :
  forall (fileData otsData : bytes) (w : Lookups) (ots : OtsFile),
    Parser.parseOts otsData = Ok ots ->
    hashOp ots = keccak256 ->
    verifyFile H getBlockInfo fileData otsData w =
      (Err (ThrownHashError Keccak256NotSupported), w) /\
    verifyDigest H getBlockInfo (Hex.bytesToHex (fileDigest ots)) otsData w =
      (let '(results, w') :=
         walkTimestamp H getBlockInfo (timestamp ots) (fileDigest ots) 0 w in
       (Ok results, w')).
Proof.
  intros fileData otsData w ots Eots Hk. unfold verifyFile, verifyDigest.
  rewrite Eots, Hk, hexToBytes_of_bytesToHex, constantTimeEqual_refl.
  split; reflexivity.
Qed.

End VerifierFacts.

Lemma walkTimestamp_asks_for_bitcoin_heights_witness :
  snd (Verify.walkTimestamp Examples.hashes Examples.unreachableExplorer
         (mkTimestamp [Pending Examples.calendarUri] []) [] 0 []) = [] /\
  snd (Verify.walkTimestamp Examples.hashes Examples.unreachableExplorer
         (mkTimestamp [Bitcoin 358391] [(OpSha256, mkTimestamp [Bitcoin 358392] [])])
         [] 0 []) =
    [] ++ Shape.bitcoinHeights
            (Spec.attestationsDepthFirst
               (mkTimestamp [Bitcoin 358391]
                  [(OpSha256, mkTimestamp [Bitcoin 358392] [])])).
Proof.
  split.
  - apply (proj1 (proj2 (walkTimestamp_asks_for_bitcoin_heights
                           Examples.hashes Examples.unreachableExplorer
                           (mkTimestamp [Pending Examples.calendarUri] []) [] 0 []))).
    reflexivity.
  - apply (proj2 (proj2 (walkTimestamp_asks_for_bitcoin_heights
                           Examples.hashes Examples.unreachableExplorer
                           (mkTimestamp [Bitcoin 358391]
                              [(OpSha256, mkTimestamp [Bitcoin 358392] [])]) [] 0 []))).
    + reflexivity.
    + cbn. lia.
Defined.

Lemma verify_never_reports_depth_error_witness :
  ~ In (Verify.VError Verify.ProofTreeExceedsMaximumDepth)
      [Verify.VError
         (Verify.CouldNotFetchBitcoinBlock 358391
            (Verify.BlockApiFailure "Network error"))].
Proof.
  apply (proj1 (verify_never_reports_depth_error Examples.hashes
                  Examples.unreachableExplorer Examples.helloWorldLikeOts []) []).
  reflexivity.
Defined.

Lemma verifyDigest_agrees_with_verifyFile_witness :
  (Verify.verifyDigest Examples.hashes Examples.unreachableExplorer
     (Hex.bytesToHex (repeat xaa 32)) Examples.helloWorldLikeOts [] =
   Verify.verifyFile Examples.hashes Examples.unreachableExplorer []
     Examples.helloWorldLikeOts [] /\
   exists results,
     fst (Verify.verifyFile Examples.hashes Examples.unreachableExplorer []
            Examples.helloWorldLikeOts []) = Ok results) /\
  (Verify.verifyFile Examples.hashes Examples.unreachableExplorer []
     Examples.mismatchedOts [] =
     (Err (Verify.FileDigestMismatch (Hex.bytesToHex (repeat x00 32))
             (Hex.bytesToHex (repeat xaa 32))), []) /\
   Verify.verifyDigest Examples.hashes Examples.unreachableExplorer
     (Hex.bytesToHex (repeat xaa 32)) Examples.mismatchedOts [] =
     (Err (Verify.DigestMismatch (Hex.bytesToHex (repeat x00 32))
             (Hex.bytesToHex (repeat xaa 32))), [])).
Proof.
  split.
  - apply (proj1 (verifyDigest_agrees_with_verifyFile Examples.hashes
                    Examples.unreachableExplorer [] Examples.helloWorldLikeOts []
                    (mkOtsFile sha256 (repeat xaa 32) (mkTimestamp [Bitcoin 358391] []))
                    (repeat xaa 32) eq_refl eq_refl)).
    reflexivity.
  - apply (proj2 (verifyDigest_agrees_with_verifyFile Examples.hashes
                    Examples.unreachableExplorer [] Examples.mismatchedOts []
                    (mkOtsFile sha256 (repeat x00 32) (mkTimestamp [Bitcoin 358391] []))
                    (repeat xaa 32) eq_refl eq_refl)).
    discriminate.
Defined.

Lemma verify_throws_before_any_lookup_witness :
  snd (Verify.verifyFile Examples.hashes Examples.unreachableExplorer []
         Examples.mismatchedOts [7]) = [7] /\
  snd (Verify.verifyDigest Examples.hashes Examples.unreachableExplorer "zz"
         Examples.helloWorldLikeOts [7]) = [7].
Proof.
  split.
  - apply (proj1 (verify_throws_before_any_lookup Examples.hashes
                    Examples.unreachableExplorer Examples.mismatchedOts [7]) []
             (Verify.FileDigestMismatch (Hex.bytesToHex (repeat x00 32))
                (Hex.bytesToHex (repeat xaa 32)))).
    reflexivity.
  - apply (proj2 (verify_throws_before_any_lookup Examples.hashes
                    Examples.unreachableExplorer Examples.helloWorldLikeOts [7]) "zz"%string
             (Verify.ThrownHexError (Hex.InvalidHexCharacter 0))).
    reflexivity.
Defined.

Lemma verifyFile_keccak256_header_unsupported_witness :
  Verify.verifyFile Examples.hashes Examples.unreachableExplorer [x01]
    (HEADER_MAGIC ++ x01 :: x67 :: repeat xaa 32
       ++ x00 :: ATT_TAG_LITECOIN ++ [x01; x05]) [] =
    (Err (Verify.ThrownHashError Operations.Keccak256NotSupported), []) /\
  Verify.verifyDigest Examples.hashes Examples.unreachableExplorer
    (Hex.bytesToHex (repeat xaa 32))
    (HEADER_MAGIC ++ x01 :: x67 :: repeat xaa 32
       ++ x00 :: ATT_TAG_LITECOIN ++ [x01; x05]) [] =
    (let '(results, w') :=
       Verify.walkTimestamp Examples.hashes Examples.unreachableExplorer
         (mkTimestamp [Litecoin 5] []) (repeat xaa 32) 0 [] in
     (Ok results, w')).
Proof.
  apply (verifyFile_keccak256_header_unsupported Examples.hashes
           Examples.unreachableExplorer [x01]
           (HEADER_MAGIC ++ x01 :: x67 :: repeat xaa 32
              ++ x00 :: ATT_TAG_LITECOIN ++ [x01; x05]) []
           (mkOtsFile keccak256 (repeat xaa 32) (mkTimestamp [Litecoin 5] [])));
    reflexivity.
Defined.

(* ================================================================== *)
(** * upgrade.ts *)

Section UpgradeUrl.
Import Upgrade UpgradeSteps.

Lemma stripTrailingSlashes_slashes (k : nat) :
  stripTrailingSlashes (slashes k) = EmptyString.
Proof. induction k as [|k IH]; [reflexivity|]. cbn. now rewrite IH. Qed.

Lemma stripTrailingSlashes_app_slashes (s : string) (k : nat) :
  stripTrailingSlashes (s ++ slashes k) = stripTrailingSlashes s.
Proof.
  induction s as [|c s IH]; cbn [String.append stripTrailingSlashes].
  - apply stripTrailingSlashes_slashes.
  - now rewrite IH.
Qed.

Lemma stripTrailingSlashes_split (s : string) :
  exists k : nat, s = (stripTrailingSlashes s ++ slashes k)%string.
Proof.
  induction s as [|c s [k IH]]; [now exists 0%nat|].
  cbn [stripTrailingSlashes].
  destruct (Ascii.eqb c "/" && String.eqb (stripTrailingSlashes s) EmptyString) eqn:E.
  - apply andb_true_iff in E. destruct E as [Ec Es].
    apply Ascii.eqb_eq in Ec. apply String.eqb_eq in Es. subst c.
    exists (S k). cbn. rewrite IH at 1. now rewrite Es.
  - exists k. cbn. now rewrite <- IH.
Qed.

Lemma stripTrailingSlashes_no_slash_at_end (s t : string) :
  stripTrailingSlashes s <> (t ++ "/")%string.
Proof.
  revert t. induction s as [|c s IH]; intros t; cbn [stripTrailingSlashes].
  - destruct t; discriminate.
  - destruct (Ascii.eqb c "/" && String.eqb (stripTrailingSlashes s) EmptyString) eqn:E.
    + destruct t; discriminate.
    + destruct t as [|c' t]; cbn [String.append]; intros Heq.
      * injection Heq as -> Hs. rewrite Hs in E. discriminate E.
      * injection Heq as -> Hs. now apply (IH t).
Qed.

(** X22.  The URL of an upgrade request drops the whole run of slashes at
    the end of the calendar URI, and nothing else: the URI is the stripped
    text followed by slashes only, the stripped text does not end in a
    slash, and a calendar URI written with or without trailing slashes gives
    the same request URL. *)
Theorem upgradeUrl_ignores_trailing_slashes :
  forall (uri : string) (msg : bytes),
    (exists k : nat, uri = (stripTrailingSlashes uri ++ slashes k)%string) /\
    (forall t : string, stripTrailingSlashes uri <> (t ++ "/")%string) /\
    (forall k : nat, upgradeUrl (uri ++ slashes k) msg = upgradeUrl uri msg) /\
    upgradeUrl uri msg =
      (stripTrailingSlashes uri ++ "/timestamp/" ++ Hex.bytesToHex msg)%string.
Proof.
  intros uri msg. split; [apply stripTrailingSlashes_split|].
  split; [intros t; apply stripTrailingSlashes_no_slash_at_end|].
  split; [|reflexivity].
  intros k. unfold upgradeUrl. now rewrite stripTrailingSlashes_app_slashes.
Qed.

End UpgradeUrl.

Section UpgraderFacts.
Import Operations Upgrade UpgradeSteps Shape.
Variable H : Crypto.HashOracle.
Variable fetch : Http.GetOracle.

Lemma upgradeAttestation_state (msg : bytes) (acc : AttLoopState) (att : Attestation) :
  snd (upgradeAttestation fetch msg acc att) =
  match att with
  | Pending uri => attemptState fetch msg (snd acc) uri
  | _ => snd acc
  end.
Proof.
  destruct acc as [[na no] st]. destruct att; try reflexivity.
  cbn [upgradeAttestation snd]. unfold attemptState.
  destruct (fetchUpgrade fetch uri msg) as [[sub|]|e]; reflexivity.
Qed.

(** A property of the statistics that every step of an upgrade keeps is
    kept by the upgrade of a tree.  The step for a tree beyond the depth
    limit is not needed when the tree is within it. *)
Lemma upgradeTimestamp_state_invariant (P : UpgradeState -> Prop) :
  (forall st uri msg, P st -> P (attemptState fetch msg st uri)) ->
  (forall st e, P st -> P (pushError st (OperationFailed e))) ->
  forall (ts : Timestamp) (msg : bytes) (st : UpgradeState) (depth : nat),
    ((depth + Spec.treeDepth ts <= MAX_DEPTH)%nat \/
     (forall st, P st -> P (pushError st ProofTreeExceedsMaximumDepth))) ->
    P st ->
    P (snd (upgradeTimestamp H fetch ts msg st depth)).
Proof.
  intros Hattempt Hop.
  induction ts as [atts chs IH] using Timestamp_ind'.
  intros msg st depth Hdepth Hst. rewrite upgradeTimestamp_unfold.
  destruct (Nat.ltb MAX_DEPTH depth) eqn:Ed.
  - cbn [snd]. destruct Hdepth as [Hd|Hd]; [|now apply Hd].
    apply Nat.ltb_lt in Ed. lia.
  - assert (Hatts : forall acc : AttLoopState,
               P (snd acc) ->
               P (snd (fold_left (upgradeAttestation fetch msg) atts acc))).
    { clear - Hattempt.
      induction atts as [|att atts IHatts]; intros acc Hacc; cbn [fold_left];
        [exact Hacc|].
      apply IHatts. rewrite upgradeAttestation_state.
      destruct att; try exact Hacc. now apply Hattempt. }
    specialize (Hatts ([], [], st) Hst).
    destruct (fold_left (upgradeAttestation fetch msg) atts ([], [], st))
      as [[newAttestations newOps] st1].
    cbn [snd] in Hatts.
    assert (Hkids : forall st0,
               P st0 -> P (snd (Loops.upgradeChildren H fetch msg depth chs st0))).
    { cbn [Spec.treeDepth] in Hdepth. clear Hatts Hst.
      induction chs as [|[op child] chs IHchs]; intros st0 Hst0;
        cbn [Loops.upgradeChildren]; [exact Hst0|].
      inversion IH as [|? ? IHchild IHrest]; subst. cbn [snd] in IHchild.
      cbn [fold_right snd] in Hdepth.
      assert (Hrest : (depth + fold_right
                         (fun oc acc => Nat.max (S (Spec.treeDepth (snd oc))) acc)
                         0%nat chs <= MAX_DEPTH)%nat \/
                      (forall st, P st -> P (pushError st ProofTreeExceedsMaximumDepth)))
        by (destruct Hdepth as [Hd|Hd]; [left; lia|now right]).
      assert (Hchild : (S depth + Spec.treeDepth child <= MAX_DEPTH)%nat \/
                       (forall st, P st -> P (pushError st ProofTreeExceedsMaximumDepth)))
        by (destruct Hdepth as [Hd|Hd]; [left; lia|now right]).
      destruct (applyOperation H op msg) as [newMsg|e].
      - pose proof (IHchild newMsg st0 (S depth) Hchild Hst0) as Hc.
        destruct (upgradeTimestamp H fetch child newMsg st0 (S depth)) as [child' st2].
        cbn [snd] in Hc.
        pose proof (IHchs IHrest Hrest st2 Hc) as Hr.
        destruct (Loops.upgradeChildren H fetch msg depth chs st2) as [rest st3].
        exact Hr.
      - pose proof (IHchs IHrest Hrest _ (Hop st0 e Hst0)) as Hr.
        destruct (Loops.upgradeChildren H fetch msg depth chs
                    (pushError st0 (OperationFailed e))) as [rest st3].
        exact Hr. }
    specialize (Hkids st1 Hatts).
    destruct (Loops.upgradeChildren H fetch msg depth chs st1) as [updated st2].
    exact Hkids.
Qed.

Lemma fetchUpgrade_error (uri : string) (msg : bytes) (e : UpgradeError) :
  fetchUpgrade fetch uri msg = Err e -> isFetchError e = true.
Proof.
  unfold fetchUpgrade.
  destruct (fetch (upgradeUrl uri msg)) as [response|m]; [|intros E; now injection E as <-].
  destruct (Http.status response =? 404); [discriminate|].
  destruct (negb (Http.ok response)); [intros E; now injection E as <-|].
  destruct (Nat.eqb _ 0); [discriminate|].
  destruct (Parser.parseTimestampFromBytes _); [discriminate|].
  intros E. now injection E as <-.
Qed.

Lemma settled_pushError (st : UpgradeState) (e : UpgradeError) :
  settled (pushError st e) =
  (settled st + (if isFetchError e then 1 else 0))%nat.
Proof.
  unfold settled, pushError. cbn [result_ upgraded stillPending errors].
  rewrite filter_app, length_app. cbn [filter].
  destruct (isFetchError e); cbn [List.length]; lia.
Qed.

(** X23.  The statistics of [upgradeProof] account for every request: the
    number of calendar requests made is the number of attestations counted
    as upgraded, plus those counted as still pending, plus the errors
    recorded for a request (a rejected fetch, an error status, a response
    that does not parse).  No request goes uncounted, and none is counted
    twice. *)
Theorem upgradeProof_accounts_for_every_request :
  forall (ots : OtsFile) (requests0 : list string),
    List.length (requests (snd (upgradeProof H fetch ots requests0))) =
    (List.length requests0
     + N.to_nat (upgraded (result_ (snd (upgradeProof H fetch ots requests0))))
     + N.to_nat (stillPending (result_ (snd (upgradeProof H fetch ots requests0))))
     + List.length
         (filter isFetchError
            (errors (result_ (snd (upgradeProof H fetch ots requests0))))))%nat.
Proof.
  intros ots requests0. unfold upgradeProof.
  destruct (negb (hasPendingAttestation (timestamp ots))); [cbn; lia|].
  set (P := fun st : UpgradeState =>
              List.length (requests st) = (List.length requests0 + settled st)%nat).
  assert (Hattempt : forall st uri msg, P st -> P (attemptState fetch msg st uri)).
  { intros st uri msg Hst. unfold P, attemptState in *.
    destruct (fetchUpgrade fetch uri msg) as [[sub|]|e] eqn:Ef.
    - unfold settled, incUpgraded, logRequest in *.
      cbn [requests result_ upgraded stillPending errors] in *.
      rewrite length_app, Hst. cbn [List.length]. lia.
    - unfold settled, incStillPending, logRequest in *.
      cbn [requests result_ upgraded stillPending errors] in *.
      rewrite length_app, Hst. cbn [List.length]. lia.
    - rewrite settled_pushError, (fetchUpgrade_error _ _ _ Ef), requests_pushError.
      unfold settled, logRequest in *.
      cbn [requests result_ upgraded stillPending errors] in *.
      rewrite length_app, Hst. cbn [List.length]. lia. }
  assert (Hother : forall st e, isFetchError e = false -> P st -> P (pushError st e)).
  { intros st e He Hst. unfold P in *.
    rewrite settled_pushError, requests_pushError, He. lia. }
  pose proof (upgradeTimestamp_state_invariant P Hattempt
                (fun st e => Hother st (OperationFailed e) eq_refl)
                (timestamp ots) (fileDigest ots)
                (mkUpgradeState (mkUpgradeResult 0 0 [] false) requests0) 0%nat
                (or_intror (fun st => Hother st ProofTreeExceedsMaximumDepth eq_refl)))
    as Hinv.
  destruct (upgradeTimestamp H fetch (timestamp ots) (fileDigest ots) _ 0)
    as [ts' st'].
  cbn [snd] in *. unfold P, settled in Hinv. rewrite Hinv; [lia|cbn; lia].
Qed.

Lemma fetchUpgrade_nothingCompleted (uri : string) (msg : bytes) (sub : Timestamp) :
  nothingCompleted fetch -> fetchUpgrade fetch uri msg <> Ok (Some sub).
Proof.
  intros Hno. specialize (Hno (upgradeUrl uri msg)). unfold fetchUpgrade.
  destruct (fetch (upgradeUrl uri msg)) as [response|m]; [|discriminate].
  destruct (Http.status response =? 404) eqn:E404; [discriminate|].
  destruct Hno as [Hs|[Hok|Hbody]].
  - rewrite Hs in E404. discriminate E404.
  - rewrite Hok. discriminate.
  - destruct (negb (Http.ok response)); [discriminate|].
    rewrite Hbody. discriminate.
Qed.

Lemma upgradedTree_unfold (atts : list Attestation) (chs : list (Operation * Timestamp))
    (msg : bytes) (depth : nat) :
  UpgradeSpec.upgradedTree H fetch (mkTimestamp atts chs) msg depth =
  if Nat.ltb MAX_DEPTH depth then mkTimestamp atts chs
  else
    mkTimestamp
      (flat_map (fun a => fst (UpgradeSpec.replacement fetch msg a)) atts)
      (map (fun oc =>
              (fst oc,
               match applyOperation H (fst oc) msg with
               | Ok newMsg => UpgradeSpec.upgradedTree H fetch (snd oc) newMsg (S depth)
               | Err _ => snd oc
               end)) chs
       ++ flat_map (fun a => snd (UpgradeSpec.replacement fetch msg a)) atts).
Proof. reflexivity. Qed.

Lemma replacement_nothingCompleted (msg : bytes) (att : Attestation) :
  nothingCompleted fetch -> UpgradeSpec.replacement fetch msg att = ([att], []).
Proof.
  intros Hno. destruct att; try reflexivity. cbn [UpgradeSpec.replacement].
  pose proof (fun sub => fetchUpgrade_nothingCompleted uri msg sub Hno) as Hf.
  destruct (fetchUpgrade fetch uri msg) as [[sub|]|e]; try reflexivity.
  now elim (Hf sub).
Qed.

Lemma upgradedTree_nothingCompleted :
  nothingCompleted fetch ->
  forall (ts : Timestamp) (msg : bytes) (depth : nat),
    UpgradeSpec.upgradedTree H fetch ts msg depth = ts.
Proof.
  intros Hno. induction ts as [atts chs IH] using Timestamp_ind'.
  intros msg depth. rewrite upgradedTree_unfold.
  destruct (Nat.ltb MAX_DEPTH depth); [reflexivity|].
  f_equal.
  - induction atts as [|att atts IHatts]; [reflexivity|].
    cbn [flat_map]. rewrite replacement_nothingCompleted by exact Hno.
    cbn [fst app]. now rewrite IHatts.
  - replace (flat_map (fun a => snd (UpgradeSpec.replacement fetch msg a)) atts)
      with (@nil (Operation * Timestamp)).
    + rewrite app_nil_r.
      induction chs as [|[op child] chs IHchs]; [reflexivity|].
      inversion IH as [|? ? IHchild IHrest]; subst. cbn [snd] in IHchild.
      cbn [map fst snd]. rewrite (IHchs IHrest).
      destruct (applyOperation H op msg); [now rewrite IHchild|reflexivity].
    + induction atts as [|att atts IHatts]; [reflexivity|].
      cbn [flat_map]. rewrite replacement_nothingCompleted by exact Hno.
      cbn [snd app]. exact IHatts.
Qed.

(** X24.  An upgrade that gets no completed proof leaves the file as it
    was: when every calendar is unreachable or answers 404, an error status
    or an empty body, [upgradeProof] returns the same file and counts no
    attestation as upgraded. *)
Theorem upgradeProof_without_completed_proof_changes_nothing :
  forall (ots : OtsFile) (requests0 : list string),
    nothingCompleted fetch ->
    fst (upgradeProof H fetch ots requests0) = ots /\
    upgraded (result_ (snd (upgradeProof H fetch ots requests0))) = 0.
Proof.
  intros ots requests0 Hno. unfold upgradeProof.
  destruct (negb (hasPendingAttestation (timestamp ots))); [split; reflexivity|].
  set (st0 := mkUpgradeState (mkUpgradeResult 0 0 [] false) requests0).
  destruct (upgradeTimestamp_spec H fetch (timestamp ots) (fileDigest ots) st0 0)
    as [Htree _].
  rewrite upgradedTree_nothingCompleted in Htree by exact Hno.
  set (P := fun st : UpgradeState => upgraded (result_ st) = 0).
  assert (Hattempt : forall st uri msg, P st -> P (attemptState fetch msg st uri)).
  { intros st uri msg Hst. unfold attemptState.
    pose proof (fun sub => fetchUpgrade_nothingCompleted uri msg sub Hno) as Hf.
    destruct (fetchUpgrade fetch uri msg) as [[sub|]|e]; try exact Hst.
    now elim (Hf sub). }
  pose proof (upgradeTimestamp_state_invariant P Hattempt (fun st e Hst => Hst)
                (timestamp ots) (fileDigest ots) st0 0%nat
                (or_intror (fun st Hst => Hst)) eq_refl) as Hinv.
  destruct (upgradeTimestamp H fetch (timestamp ots) (fileDigest ots) st0 0)
    as [ts' st'].
  cbn [fst snd] in *. subst ts'. split; [|exact Hinv].
  now destruct ots.
Qed.

Lemma replacement_keeps (msg : bytes) (att : Attestation) :
  Parser.isPending att = false ->
  UpgradeSpec.replacement fetch msg att = ([att], []).
Proof. destruct att; try reflexivity. discriminate. Qed.

Lemma upgradedTree_keeps :
  forall (ts : Timestamp) (msg : bytes) (depth : nat) (a : Attestation),
    Parser.isPending a = false ->
    In a (Spec.attestationsDepthFirst ts) ->
    In a (Spec.attestationsDepthFirst (UpgradeSpec.upgradedTree H fetch ts msg depth)).
Proof.
  induction ts as [atts chs IH] using Timestamp_ind'.
  intros msg depth a Ha Hin. rewrite upgradedTree_unfold.
  destruct (Nat.ltb MAX_DEPTH depth); [exact Hin|].
  cbn [Spec.attestationsDepthFirst] in *.
  apply in_app_or in Hin. apply in_or_app. destruct Hin as [Hin|Hin].
  - left. apply in_flat_map. exists a. split; [exact Hin|].
    rewrite replacement_keeps by exact Ha. now left.
  - right. rewrite flat_map_app. apply in_or_app. left.
    apply in_flat_map in Hin. destruct Hin as ([op child] & Hoc & Hin).
    cbn [snd] in Hin. rewrite Forall_forall in IH.
    pose proof (IH _ Hoc) as IHchild. cbn [snd] in IHchild.
    apply in_flat_map.
    eexists. split; [apply in_map; exact Hoc|]. cbn [fst snd].
    destruct (applyOperation H op msg); [now apply IHchild|exact Hin].
Qed.

(** X25.  An upgrade never loses what a proof already has: the hash
    operation and the file digest are kept, and every attestation of the
    tree that is not pending is still an attestation of the upgraded
    tree. *)
Theorem upgradeProof_keeps_completed_attestations :
  forall (ots : OtsFile) (requests0 : list string),
    hashOp (fst (upgradeProof H fetch ots requests0)) = hashOp ots /\
    fileDigest (fst (upgradeProof H fetch ots requests0)) = fileDigest ots /\
    forall a : Attestation,
      Parser.isPending a = false ->
      In a (Spec.attestationsDepthFirst (timestamp ots)) ->
      In a (Spec.attestationsDepthFirst
              (timestamp (fst (upgradeProof H fetch ots requests0)))).
Proof.
  intros ots requests0. unfold upgradeProof.
  destruct (negb (hasPendingAttestation (timestamp ots)));
    [cbn [fst]; repeat split; auto|].
  set (st0 := mkUpgradeState (mkUpgradeResult 0 0 [] false) requests0).
  destruct (upgradeTimestamp_spec H fetch (timestamp ots) (fileDigest ots) st0 0)
    as [Htree _].
  destruct (upgradeTimestamp H fetch (timestamp ots) (fileDigest ots) st0 0)
    as [ts' st'].
  cbn [fst snd hashOp fileDigest timestamp] in *. subst ts'.
  repeat split. intros a Ha Hin. now apply upgradedTree_keeps.
Qed.

(** X26.  The depth check of the upgrader never fires on a parsed proof:
    for a file that [parseOts] returned, the errors that [upgradeProof]
    records never include the one for a proof tree that exceeds the maximum
    depth. *)
Theorem upgradeProof_never_reports_depth_error :
  forall (data : bytes) (ots : OtsFile) (requests0 : list string),
    Parser.parseOts data = Ok ots ->
    ~ In ProofTreeExceedsMaximumDepth
        (errors (result_ (snd (upgradeProof H fetch ots requests0)))).
Proof.
  intros data ots requests0 Eots. unfold upgradeProof.
  destruct (negb (hasPendingAttestation (timestamp ots))); [intros []|].
  set (st0 := mkUpgradeState (mkUpgradeResult 0 0 [] false) requests0).
  set (P := fun st : UpgradeState =>
              ~ In ProofTreeExceedsMaximumDepth (errors (result_ st))).
  assert (Hpush : forall st e,
             e <> ProofTreeExceedsMaximumDepth -> P st -> P (pushError st e)).
  { intros st e He Hst Hin. unfold P, pushError in *. cbn [result_ errors] in Hin.
    apply in_app_or in Hin. destruct Hin as [Hin|[Hin|[]]]; [now apply Hst|].
    now apply He. }
  assert (Hattempt : forall st uri msg, P st -> P (attemptState fetch msg st uri)).
  { intros st uri msg Hst. unfold attemptState.
    destruct (fetchUpgrade fetch uri msg) as [[sub|]|e] eqn:Ef; try exact Hst.
    apply Hpush; [|exact Hst].
    intros ->. apply fetchUpgrade_error in Ef. discriminate Ef. }
  pose proof (parseOts_depth data ots Eots) as Hd.
  pose proof (upgradeTimestamp_state_invariant P Hattempt
                (fun st e => Hpush st (OperationFailed e) ltac:(discriminate))
                (timestamp ots) (fileDigest ots) st0 0%nat
                (or_introl Hd) (fun F : In _ [] => F)) as Hinv.
  destruct (upgradeTimestamp H fetch (timestamp ots) (fileDigest ots) st0 0)
    as [ts' st'].
  exact Hinv.
Qed.

End UpgraderFacts.

Lemma upgradeProof_without_completed_proof_changes_nothing_witness :
  fst (Upgrade.upgradeProof Examples.hashes Examples.notFoundCalendar
         Examples.pendingOts []) = Examples.pendingOts /\
  Upgrade.upgraded
    (Upgrade.result_
       (snd (Upgrade.upgradeProof Examples.hashes Examples.notFoundCalendar
               Examples.pendingOts []))) = 0.
Proof.
  apply (upgradeProof_without_completed_proof_changes_nothing Examples.hashes
           Examples.notFoundCalendar Examples.pendingOts []).
  intros url. left. reflexivity.
Defined.

Lemma upgradeProof_keeps_completed_attestations_witness :
  In (Bitcoin 100000)
    (Spec.attestationsDepthFirst
       (timestamp
          (fst (Upgrade.upgradeProof Examples.hashes Examples.bitcoinCalendar
                  (mkOtsFile sha256 (repeat x00 32)
                     (mkTimestamp [Bitcoin 100000; Pending Examples.calendarUri] []))
                  [])))).
Proof.
  apply (proj2 (proj2 (upgradeProof_keeps_completed_attestations Examples.hashes
                         Examples.bitcoinCalendar
                         (mkOtsFile sha256 (repeat x00 32)
                            (mkTimestamp [Bitcoin 100000; Pending Examples.calendarUri] []))
                         []))).
  - reflexivity.
  - left. reflexivity.
Defined.

Lemma upgradeProof_never_reports_depth_error_witness :
  ~ In Upgrade.ProofTreeExceedsMaximumDepth
      (Upgrade.errors
         (Upgrade.result_
            (snd (Upgrade.upgradeProof Examples.hashes Examples.nestedCalendar
                    Examples.pendingOts [])))).
Proof.
  apply (upgradeProof_never_reports_depth_error Examples.hashes
           Examples.nestedCalendar
           (HEADER_MAGIC ++ x01 :: x08 :: repeat x00 32
              ++ Grammar.encodeAttestation (Pending Examples.calendarUri))
           Examples.pendingOts []).
  reflexivity.
Defined.

(* ================================================================== *)
(** * stamp.ts *)

Section StamperFacts.
Import Grammar Stamp StampSpec.
Variable H : Crypto.HashOracle.
Variable getRandomValue : nat -> byte.
Variable fetch : Http.PostOracle.

Lemma nonce_prepended :
  Writer.writeOperation [] (OpPrepend (nonceOf getRandomValue)) =
  xf1 :: x10 :: nonceOf getRandomValue.
Proof.
  cbn [Writer.writeOperation]. rewrite writeVarbytes_app.
  unfold nonceOf at 1. rewrite length_map, length_seq. reflexivity.
Qed.

(** When no calendar answers, the error names each server with its own
    failure, in the configured order. *)
Lemma stampHash_no_calendar (sha256Hex : string) (fileDigest : bytes) :
  Hex.hexToBytes sha256Hex = Ok fileDigest ->
  List.length fileDigest = 32%nat ->
  successfulResponses fetch (calendarDigestOf H getRandomValue fileDigest) = [] ->
  exists errors,
    stampHash H getRandomValue fetch sha256Hex = Err (NoCalendarServerResponded errors) /\
    map fst errors = CALENDAR_SERVERS.
Proof.
  intros Hhex Hlen. unfold stampHash. rewrite Hhex.
  rewrite Uint8Array_set_concat, Hlen. cbn [Nat.eqb negb].
  fold (nonceOf getRandomValue).
  fold (calendarDigestOf H getRandomValue fileDigest).
  unfold successfulResponses, CALENDAR_SERVERS.
  cbn [fold_left flat_map fst snd app].
  destruct (submitToCalendar fetch _ _) as [d1|e1];
    destruct (submitToCalendar fetch _ _) as [d2|e2];
    cbn [fst snd app List.length Nat.eqb]; intros Hnone; try discriminate Hnone.
  eexists. split; reflexivity.
Qed.

Lemma answerOf_answered (calendarDigest : bytes) (server : string) (body : bytes) :
  Calendars.answerOf fetch calendarDigest server = Some body <->
  Calendars.answered fetch calendarDigest server body.
Proof.
  unfold Calendars.answerOf, Calendars.answered. split.
  - destruct (fetch (server ++ "/digest")%string calendarDigest) as [response|m];
      [|discriminate].
    destruct (Http.ok response) eqn:Eok; [|discriminate].
    destruct (1 <=? N.of_nat (List.length (Http.body response))) eqn:E1; [|discriminate].
    destruct (N.of_nat (List.length (Http.body response)) <=? 65536) eqn:E2;
      [|discriminate].
    cbn [andb]. intros E. injection E as <-.
    apply N.leb_le in E1, E2. exists response. now repeat split.
  - intros (response & -> & -> & <- & H1 & H2).
    apply N.leb_le in H1, H2. now rewrite H1, H2.
Qed.

(** [submitToCalendar] returns a body exactly when the calendar answered
    with it. *)
Lemma submitToCalendar_answerOf (server : string) (digest data : bytes) :
  submitToCalendar fetch server digest = Ok data <->
  Calendars.answerOf fetch digest server = Some data.
Proof.
  unfold submitToCalendar, Calendars.answerOf.
  destruct (fetch (server ++ "/digest")%string digest) as [response|m];
    [|split; discriminate].
  destruct (Http.ok response); cbn [negb andb]; [|split; discriminate].
  destruct (Nat.eqb (List.length (Http.body response)) 0) eqn:E0.
  - apply Nat.eqb_eq in E0. rewrite E0. cbn. split; discriminate.
  - apply Nat.eqb_neq in E0.
    replace (1 <=? N.of_nat (List.length (Http.body response))) with true
      by (symmetry; apply N.leb_le; lia).
    cbn [andb]. rewrite N.ltb_antisym.
    destruct (N.of_nat (List.length (Http.body response)) <=? 65536); cbn [negb];
      split; intros E; (discriminate E || (injection E as <-; reflexivity)).
Qed.

Lemma successfulResponses_answers (calendarDigest : bytes) :
  successfulResponses fetch calendarDigest = Calendars.answers fetch calendarDigest.
Proof.
  unfold successfulResponses, Calendars.answers, CALENDAR_SERVERS.
  assert (Hone : forall server,
             match submitToCalendar fetch server calendarDigest with
             | Ok data => [(server, data)]
             | Err _ => []
             end =
             match Calendars.answerOf fetch calendarDigest server with
             | Some body => [(server, body)]
             | None => []
             end).
  { intros server.
    destruct (submitToCalendar fetch server calendarDigest) as [data|e] eqn:Es.
    - apply submitToCalendar_answerOf in Es. now rewrite Es.
    - destruct (Calendars.answerOf fetch calendarDigest server) as [body|] eqn:Ea;
        [|reflexivity].
      apply submitToCalendar_answerOf in Ea. rewrite Ea in Es. discriminate Es. }
  cbn [flat_map]. now rewrite !Hone.
Qed.

(** X27.  [stampHash] returns a proof exactly when its argument is the
    hexadecimal text of 32 bytes and at least one of the two calendars
    answered the [POST] of [SHA-256(nonce || digest)] to its [/digest] URL
    with an ok response whose body has 1 to 65536 bytes; a calendar that
    cannot be reached, answers with a status that is not ok, or with a body
    that is empty or longer, does not count.  [submitToCalendar] returns a
    body exactly in that case.  The proof is then the magic header, version
    1, the SHA-256 tag, the 32 bytes, [prepend] of the 16-byte nonce, the
    SHA-256 tag, and the bodies of the calendars that answered, alice
    before bob, each but the last behind a fork marker; what the bodies hold
    is not looked at. *)
Theorem stampHash_output_layout :
  (forall (server : string) (digest data : bytes),
      submitToCalendar fetch server digest = Ok data <->
      Calendars.answered fetch digest server data) /\
  (forall (calendarDigest : bytes) (server : string) (body : bytes),
      In (server, body) (Calendars.answers fetch calendarDigest) <->
      In server ["https://alice.btc.calendar.opentimestamps.org"%string;
                 "https://bob.btc.calendar.opentimestamps.org"%string] /\
      Calendars.answered fetch calendarDigest server body) /\
  (forall (sha256Hex : string) (otsBytes : bytes),
      stampHash H getRandomValue fetch sha256Hex = Ok otsBytes <->
      exists fileDigest,
        Hex.hexToBytes sha256Hex = Ok fileDigest /\
        List.length fileDigest = 32%nat /\
        Calendars.answers fetch (calendarDigestOf H getRandomValue fileDigest) <> [] /\
        otsBytes =
          HEADER_MAGIC ++ x01 :: x08 :: fileDigest
            ++ xf1 :: x10 :: nonceOf getRandomValue
            ++ x08 :: joinBranches
                        (map snd
                           (Calendars.answers fetch
                              (calendarDigestOf H getRandomValue fileDigest)))).
Proof.
  split; [|split].
  - intros server digest data.
    rewrite submitToCalendar_answerOf. apply answerOf_answered.
  - intros calendarDigest server body. unfold Calendars.answers.
    rewrite in_flat_map. split.
    + intros (server' & Hin & Hbody).
      destruct (Calendars.answerOf fetch calendarDigest server') as [b|] eqn:Ea;
        [|destruct Hbody].
      destruct Hbody as [Heq|[]]. injection Heq as <- <-.
      split; [exact Hin|]. now apply answerOf_answered.
    + intros [Hin Hans]. exists server. split; [exact Hin|].
      apply answerOf_answered in Hans. rewrite Hans. now left.
  - intros sha256Hex otsBytes. split.
    + intros E.
      destruct (Hex.hexToBytes sha256Hex) as [fileDigest|e] eqn:Ehex;
        [|unfold stampHash in E; rewrite Ehex in E; discriminate E].
      destruct (Nat.eqb (List.length fileDigest) 32) eqn:Elen;
        [|unfold stampHash in E; rewrite Ehex, Elen in E; discriminate E].
      apply Nat.eqb_eq in Elen.
      destruct (successfulResponses fetch (calendarDigestOf H getRandomValue fileDigest))
        as [|r rs] eqn:Eresp.
      * destruct (stampHash_no_calendar sha256Hex fileDigest Ehex Elen Eresp)
          as (errors & Eerr & _).
        rewrite Eerr in E. discriminate E.
      * assert (Hne : successfulResponses fetch
                        (calendarDigestOf H getRandomValue fileDigest) <> [])
          by (rewrite Eresp; discriminate).
        rewrite (stampHash_builds H getRandomValue fetch sha256Hex fileDigest
                   Ehex Elen Hne) in E.
        injection E as <-. exists fileDigest.
        split; [reflexivity|]. split; [exact Elen|].
        rewrite <- successfulResponses_answers.
        split; [exact Hne|].
        rewrite buildOts_bytes by exact Hne. rewrite nonce_prepended.
        reflexivity.
    + intros (fileDigest & Ehex & Elen & Hne & ->).
      rewrite <- successfulResponses_answers in *.
      rewrite (stampHash_builds H getRandomValue fetch sha256Hex fileDigest
                 Ehex Elen Hne).
      rewrite buildOts_bytes by exact Hne. rewrite nonce_prepended. reflexivity.
Qed.


End StamperFacts.

Lemma stampHash_output_layout_witness :
  exists fileDigest,
    Hex.hexToBytes Examples.digestHex = Ok fileDigest /\
    List.length fileDigest = 32%nat /\
    Calendars.answers Examples.pendingCalendar
      (StampSpec.calendarDigestOf Examples.hashes Examples.zeroRandom fileDigest) <> [] /\
    Stamp.buildOts (repeat xaa 32) (repeat x00 16)
      [("https://alice.btc.calendar.opentimestamps.org"%string,
        Grammar.encodeAttestation (Pending Examples.calendarUri));
       ("https://bob.btc.calendar.opentimestamps.org"%string,
        Grammar.encodeAttestation (Pending Examples.calendarUri))] =
      HEADER_MAGIC ++ x01 :: x08 :: fileDigest
        ++ xf1 :: x10 :: StampSpec.nonceOf Examples.zeroRandom
        ++ x08 :: Grammar.joinBranches
                    (map snd
                       (Calendars.answers Examples.pendingCalendar
                          (StampSpec.calendarDigestOf Examples.hashes
                             Examples.zeroRandom fileDigest))).
Proof.
  apply (proj1 (proj2 (proj2 (stampHash_output_layout Examples.hashes
                                Examples.zeroRandom Examples.pendingCalendar))
                  Examples.digestHex
                  (Stamp.buildOts (repeat xaa 32) (repeat x00 16)
                     [("https://alice.btc.calendar.opentimestamps.org"%string,
                       Grammar.encodeAttestation (Pending Examples.calendarUri));
                      ("https://bob.btc.calendar.opentimestamps.org"%string,
                       Grammar.encodeAttestation (Pending Examples.calendarUri))]))).
  reflexivity.
Defined.


(* ================================================================== *)
(** * info.ts *)

Section ProofTreeDisplay.
Import Info InfoLoops Shape.

Lemma formatTimestampTree_unfold (atts : list Attestation)
    (chs : list (Operation * Timestamp)) (prefix : string) (lines : list string) :
  formatTimestampTree (mkTimestamp atts chs) prefix lines =
  let total := Z.of_nat (List.length atts + List.length chs) in
  fst (formatChildren total prefix chs
         (fold_left (formatAttestationStep total prefix) atts (lines, 0%Z))).
Proof. reflexivity. Qed.

Lemma startsWith_app (prefix more rest : string) :
  startsWith prefix (prefix ++ more ++ rest).
Proof. now exists (more ++ rest)%string. Qed.

Lemma startsWith_longer (prefix more line : string) :
  startsWith (prefix ++ more) line -> startsWith prefix line.
Proof.
  intros [rest ->]. exists (more ++ rest)%string. apply string_app_assoc.
Qed.

Lemma shows_line (prefix c : string) (att : Attestation) :
  shows att (prefix ++ c ++ formatAttestation att).
Proof. exists (prefix ++ c)%string. now rewrite string_app_assoc. Qed.

Lemma formatAttestationStep_pair (total : Z) (prefix : string) (lines : list string)
    (index : Z) (att : Attestation) :
  formatAttestationStep total prefix (lines, index) att =
  (lines ++ [prefix ++ connector (index =? total - 1)%Z ++ formatAttestation att]%string,
   (index + 1)%Z).
Proof. reflexivity. Qed.

Lemma formatAttestations_lines (total : Z) (prefix : string) (atts : list Attestation) :
  forall index : Z,
  exists new,
    (forall lines,
        fold_left (formatAttestationStep total prefix) atts (lines, index) =
        (lines ++ new, (index + Z.of_nat (List.length atts))%Z)) /\
    List.length new = List.length atts /\
    Forall (startsWith prefix) new /\
    forall att, In att atts -> Exists (shows att) new.
Proof.
  induction atts as [|a atts IH]; intros index.
  - exists []. split; [|repeat split; [constructor|intros ? []]].
    intros lines. cbn. now rewrite app_nil_r, Z.add_0_r.
  - destruct (IH (index + 1)%Z) as (new & Hfold & Hlen & Hpre & Hshow).
    exists ((prefix ++ connector (index =? total - 1)%Z ++ formatAttestation a)%string
            :: new).
    split; [|split; [cbn; now rewrite Hlen|split]].
    + intros lines. cbn [fold_left]. rewrite formatAttestationStep_pair.
      rewrite Hfold, <- app_assoc. cbn [app List.length]. f_equal. lia.
    + constructor; [apply startsWith_app|exact Hpre].
    + intros att [<-|Hin]; [left; apply shows_line|right; now apply Hshow].
Qed.

(** A node only appends to the lines, and what it appends does not depend
    on those it was given. *)
Lemma formatTimestampTree_lines :
  forall (ts : Timestamp) (prefix : string),
  exists new,
    (forall lines, formatTimestampTree ts prefix lines = lines ++ new) /\
    addsLines ts prefix new.
Proof.
  induction ts as [atts chs IH] using Timestamp_ind'.
  intros prefix.
  set (total := Z.of_nat (List.length atts + List.length chs)).
  destruct (formatAttestations_lines total prefix atts 0%Z)
    as (new & Hfold & Hlen & Hpre & Hshow).
  assert (Hkids : forall index : Z,
    exists more,
      (forall lines0,
          fst (formatChildren total prefix chs (lines0, index)) = lines0 ++ more) /\
      List.length more =
        (List.length (flat_map (fun oc => Spec.attestationsDepthFirst (snd oc)) chs)
         + fold_right (fun oc acc => (S (countOps (snd oc)) + acc)%nat) 0%nat chs)%nat /\
      Forall (startsWith prefix) more /\
      forall att,
        In att (flat_map (fun oc => Spec.attestationsDepthFirst (snd oc)) chs) ->
        Exists (shows att) more).
  { clear new Hfold Hlen Hpre Hshow. generalize total as t. clear total. intros total.
    induction chs as [|[op child] chs IHchs]; intros index.
    - exists []. split; [|repeat split; [constructor|intros ? []]].
      intros lines0. cbn. now rewrite app_nil_r.
    - inversion IH as [|? ? IHchild IHrest]; subst. cbn [snd] in IHchild.
      set (isLast := (index =? total - 1)%Z).
      destruct (IHchild (prefix ++ extension isLast)%string)
        as (sub & Hsub & Hsublen & Hsubpre & Hsubshow).
      destruct (IHchs IHrest (index + 1)%Z)
        as (more & Hmore & Hmorelen & Hmorepre & Hmoreshow).
      exists ((prefix ++ connector isLast ++ formatOperation op)%string :: sub ++ more).
      split; [|split; [|split]].
      + intros lines0. cbn [formatChildren fst snd]. fold isLast.
        rewrite Hsub, Hmore, <- !app_assoc. reflexivity.
      + cbn [flat_map fold_right snd List.length].
        rewrite !length_app, Hsublen, Hmorelen. lia.
      + constructor; [apply startsWith_app|].
        apply Forall_app. split; [|exact Hmorepre].
        eapply Forall_impl; [|exact Hsubpre].
        intros line. apply startsWith_longer.
      + intros att Hin. cbn [flat_map snd] in Hin. apply in_app_or in Hin. right.
        apply Exists_app. destruct Hin as [Hin|Hin];
          [left; now apply Hsubshow|right; now apply Hmoreshow]. }
  destruct (Hkids (0 + Z.of_nat (List.length atts))%Z)
    as (more & Hmore & Hmorelen & Hmorepre & Hmoreshow).
  exists (new ++ more). split; [|split; [|split]].
  - intros lines. rewrite formatTimestampTree_unfold. cbn zeta. fold total.
    rewrite Hfold, Hmore, <- app_assoc. reflexivity.
  - cbn [Spec.attestationsDepthFirst countOps].
    rewrite !length_app, Hlen, Hmorelen. lia.
  - apply Forall_app. now split.
  - intros att Hin. cbn [Spec.attestationsDepthFirst] in Hin.
    apply in_app_or in Hin. apply Exists_app.
    destruct Hin as [Hin|Hin]; [left; now apply Hshow|right; now apply Hmoreshow].
Qed.

(** X29.  The display of a proof has one line for the file hash, one for
    the trunk, and then one line for every attestation and every
    continuation of the tree; the first line gives the digest in
    hexadecimal and the name of the hash; and every attestation of the tree
    is shown at the end of a line. *)
Theorem formatProofTree_shows_every_branch :
  forall ots : OtsFile,
    formatProofTree ots =
      String.concat (String "010" EmptyString) (formatProofTree_lines ots) /\
    List.length (formatProofTree_lines ots) =
      (2 + List.length (Spec.attestationsDepthFirst (timestamp ots))
       + countOps (timestamp ots))%nat /\
    hd_error (formatProofTree_lines ots) =
      Some ("File hash: " ++ Hex.bytesToHex (fileDigest ots)
            ++ " (" ++ HASH_OP_DISPLAY (hashOp ots) ++ ")")%string /\
    forall att,
      In att (Spec.attestationsDepthFirst (timestamp ots)) ->
      Exists (shows att) (formatProofTree_lines ots).
Proof.
  intros ots. split; [reflexivity|]. unfold formatProofTree_lines.
  destruct (formatTimestampTree_lines (timestamp ots) EmptyString)
    as (new & E & Hlen & _ & Hshow).
  rewrite E. cbn [app List.length hd_error].
  split; [rewrite Hlen; lia|]. split; [reflexivity|].
  intros att Hin. right. right. now apply Hshow.
Qed.

(** X30.  [formatTimestampTree] only appends to the lines it is given; what
    it appends does not depend on them; and every line it appends starts
    with the prefix it was called with, so the lines of a sub-tree stay
    under the branch they belong to. *)
Theorem formatTimestampTree_appends_prefixed_lines :
  forall (ts : Timestamp) (prefix : string) (lines : list string),
    formatTimestampTree ts prefix lines =
      lines ++ formatTimestampTree ts prefix [] /\
    Forall (startsWith prefix) (formatTimestampTree ts prefix []).
Proof.
  intros ts prefix lines.
  destruct (formatTimestampTree_lines ts prefix) as (new & E & _ & Hpre & _).
  rewrite (E lines), (E []). split; [reflexivity|exact Hpre].
Qed.

End ProofTreeDisplay.

Lemma formatProofTree_shows_every_branch_witness :
  Exists (InfoLoops.shows (Bitcoin 358391))
    (Info.formatProofTree_lines
       (mkOtsFile sha256 (repeat xaa 32)
          (mkTimestamp [] [(OpSha256, mkTimestamp [Bitcoin 358391] [])]))).
Proof.
  apply (proj2 (proj2 (proj2 (formatProofTree_shows_every_branch
                                (mkOtsFile sha256 (repeat xaa 32)
                                   (mkTimestamp []
                                      [(OpSha256, mkTimestamp [Bitcoin 358391] [])])))))).
  left. reflexivity.
Defined.

Example formatProofTree_small_tree :
  Info.formatProofTree
    (mkOtsFile sha256 [xab; xcd]
       (mkTimestamp []
          [(OpSha256, mkTimestamp [Bitcoin 358391; Pending "u"] []);
           (OpAppend [x01], mkTimestamp [Litecoin 7] [])])) =
  "File hash: abcd (SHA256)
│
├── SHA256
│   ├── Bitcoin block #358391
│   └── Pending (u)
└── append(01)
    └── Litecoin block #7"%string.
Proof. reflexivity. Qed.
